(** * dictalchemy.utils: [asdict] and [fromdict] over mapped instances

    A shallow embedding of [src/dictalchemy/utils.py].  The host mapping
    framework is represented by the metadata the module reads from it
    ([__mapper__.iterate_properties], the [columns] of a column property
    and their [primary_key] flag) and by attribute access on instances.
    Instances and the lists handed in as [exclude] are Python objects with
    identity, so both live in a store that every call threads through. *)

From Stdlib Require Import Ascii String.
From stdpp Require Import base strings list gmap.

Open Scope string_scope.
Open Scope list_scope.
Set Warnings "-register-all".

(** ** Values *)

(** Python values an attribute or a mapping can hold.  [VObj] is a
    reference to an instance in the store, [VColl] an [InstrumentedList],
    [VList] a plain list and [VDict] a plain [dict] whose items are listed
    in iteration order. *)
Inductive value :=
| VNone
| VInt (z : Z)
| VStr (s : string)
| VObj (o : nat)
| VList (l : list value)
| VColl (l : list value)
| VDict (d : list (string * value)).

(** ** Dictionaries with string keys, items in iteration order *)

Section dict.
Context {A : Type}.

Fixpoint dict_get (k : string) (d : list (string * A)) : option A :=
  match d with
  | [] => None
  | (k', v) :: d' => if decide (k = k') then Some v else dict_get k d'
  end.

(** [d[k] = v]: replaces the value of an existing key, appends a new one. *)
Fixpoint dict_set (k : string) (v : A) (d : list (string * A)) : list (string * A) :=
  match d with
  | [] => [(k, v)]
  | (k', v') :: d' =>
      if decide (k = k') then (k, v) :: d' else (k', v') :: dict_set k v d'
  end.

(** [dict(pairs)]: later pairs overwrite earlier ones. *)
Definition dict_of (pairs : list (string * A)) : list (string * A) :=
  foldl (λ d kv, dict_set kv.1 kv.2 d) [] pairs.

End dict.

(** [k in l] for a list of names. *)
Definition mem (k : string) (l : list string) : bool := bool_decide (k ∈ l).

(** ** Metadata of a mapped class *)

Record column := { primary_key : bool }.

(** A synonym property carries the [name] of the attribute it stands for. *)
Inductive property_kind :=
| ColumnProperty (columns : list column)
| SynonymProperty (name : string)
| RelationshipProperty.

Record property := { key : string; kind : property_kind }.

(** A mapped class: its mapper's properties in iteration order, whether
    the functions [asdict] and [fromdict] of this module are attached to it
    as methods ([make_class_dictable] attaches both; each can also be set on
    a class directly), and the [dictalchemy_*] class attributes ([None] when
    the attribute is not set; [dictalchemy_exclude] may also be set to
    Python's [None]). *)
Record mapped_class := {
  iterate_properties : list property;
  has_asdict : bool;
  has_fromdict : bool;
  dictalchemy_exclude : option (option (list string));
  dictalchemy_exclude_underscore : option bool;
  dictalchemy_fromdict_allow_pk : option bool;
  dictalchemy_asdict_include : option (list string);
  dictalchemy_fromdict_include : option (list string)
}.

(** Modelled from the spec: the module [dictalchemy.constants] is not part
    of the sources; section 6 of the specification gives its three values
    (exclude: empty, exclude_underscore: true, fromdict_allow_pk: false). *)
Definition default_exclude : option (list string) := Some [].
Definition default_exclude_underscore : bool := true.
Definition default_fromdict_allow_pk : bool := false.

Definition is_relationship (p : property) : bool :=
  match kind p with RelationshipProperty => true | _ => false end.
Definition is_column (p : property) : bool :=
  match kind p with ColumnProperty _ => true | _ => false end.
Definition is_synonym (p : property) : bool :=
  match kind p with SynonymProperty _ => true | _ => false end.

Definition get_relation_keys (c : mapped_class) : list string :=
  key <$> filter (λ p, is_relationship p = true) (iterate_properties c).

Definition get_column_keys (c : mapped_class) : list string :=
  key <$> filter (λ p, is_column p = true) (iterate_properties c).

Definition get_synonym_keys (c : mapped_class) : list string :=
  key <$> filter (λ p, is_synonym p = true) (iterate_properties c).

(** Only a column property has the attribute [columns]; its key is added
    once for every column flagged [primary_key], into a set. *)
Definition get_primary_key_properties (c : mapped_class) : gset string :=
  foldl (λ primary_keys k,
           match kind k with
           | ColumnProperty columns =>
               foldl (λ pks col, if primary_key col then pks ∪ {[ key k ]} else pks)
                     primary_keys columns
           | _ => primary_keys
           end)
        ∅ (iterate_properties c).

(** ** The store *)

Record instance := { cls : mapped_class; attrs : gmap string value }.

Record state := {
  objs : gmap nat instance;
  lists : gmap nat (list string)
}.

(** ** Exceptions and the state-and-error monad *)

Inductive exn :=
| ValueError        (* follow names a key that is not a relationship *)
| Exception         (* primary key protection in fromdict *)
| TypeError
| AttributeError
| IndexError
| RuntimeError.     (* attribute access that recurses through synonyms without end *)

Inductive result (A : Type) :=
| Ok (a : A)
| Raise (e : exn)
| OutOfFuel.
Arguments Ok {A} a.
Arguments Raise {A} e.
Arguments OutOfFuel {A}.

Definition M (A : Type) : Type := state → result A * state.

Definition ret {A} (a : A) : M A := λ st, (Ok a, st).
Definition raise {A} (e : exn) : M A := λ st, (Raise e, st).
Definition bind {A B} (m : M A) (f : A → M B) : M B :=
  λ st, match m st with
        | (Ok a, st') => f a st'
        | (Raise e, st') => (Raise e, st')
        | (OutOfFuel, st') => (OutOfFuel, st')
        end.

#[global] Instance M_ret : MRet M := @ret.
#[global] Instance M_bind : MBind M := λ A B f m, bind m f.

(** ** Attribute access *)

(** [model.__mapper__] and the class attributes of [model]. *)
Definition class_of (model : nat) : M mapped_class :=
  λ st, match objs st !! model with
        | Some i => (Ok (cls i), st)
        | None => (Raise AttributeError, st)
        end.

(** The name that the synonym [k] stands for, when the mapper's property
    for [k] (the first in iteration order) is a synonym. *)
Fixpoint synonym_of (props : list property) (k : string) : option string :=
  match props with
  | [] => None
  | p :: props' =>
      if decide (key p = k)
      then match kind p with SynonymProperty name => Some name | _ => None end
      else synonym_of props' k
  end.

(** The attribute that an access to [k] ends at.  On an instance a synonym
    is a descriptor that forwards reads and writes to the attribute it
    names, which may be a synonym again; [fuel] bounds the number of hops. *)
Fixpoint target_fuel (fuel : nat) (c : mapped_class) (k : string) : option string :=
  match synonym_of (iterate_properties c) k with
  | None => Some k
  | Some name =>
      match fuel with
      | 0 => None
      | S fuel' => target_fuel fuel' c name
      end
  end.

(** A chain with more hops than the mapper has properties passes through
    one synonym twice and never ends: the access recurses until Python gives
    up with [RuntimeError]. *)
Definition target (c : mapped_class) (k : string) : option string :=
  target_fuel (length (iterate_properties c)) c k.

(** The value that [getattr(model, k)] finds: the attribute [k] of the
    instance, read through the synonyms. *)
Definition attr_of (st : state) (model : nat) (k : string) : option value :=
  i ← objs st !! model; t ← target (cls i) k; attrs i !! t.

(** Whether the access to [k] ends at some attribute name. *)
Definition resolves (st : state) (model : nat) (k : string) : bool :=
  match objs st !! model with
  | Some i => bool_decide (is_Some (target (cls i) k))
  | None => true
  end.

Definition getattr (model : nat) (k : string) : M value :=
  λ st, match attr_of st model k with
        | Some v => (Ok v, st)
        | None => (Raise (if resolves st model k then AttributeError else RuntimeError),
                   st)
        end.

Definition setattr (model : nat) (k : string) (v : value) : M unit :=
  λ st, match objs st !! model with
        | Some i =>
            match target (cls i) k with
            | Some t =>
                (Ok (), {| objs := <[model := {| cls := cls i;
                                                 attrs := <[t := v]> (attrs i) |}]> (objs st);
                           lists := lists st |})
            | None => (Raise RuntimeError, st)
            end
        | None => (Raise AttributeError, st)
        end.

(** Among the values of the model only an instance of a class with the
    method [asdict] has the attribute [asdict]; [dictable_instance] returns
    that instance. *)
Definition dictable_instance (st : state) (rel : value) : option nat :=
  match rel with
  | VObj o => match objs st !! o with
              | Some i => if has_asdict (cls i) then Some o else None
              | None => None
              end
  | _ => None
  end.

(** [hasattr(rel, 'asdict')] *)
Definition hasattr_asdict (rel : value) : M (option nat) :=
  λ st, (Ok (dictable_instance st rel), st).

(** [data.iteritems()]: only a dict has the method. *)
Definition iteritems (data : value) : M (list (string * value)) :=
  match data with
  | VDict d => ret d
  | _ => raise AttributeError
  end.

(** ** Call arguments *)

(** The [follow] argument: absent, a sequence of names, or a mapping (given
    by its items) from names to keyword bundles. *)
Inductive follow_of (A : Type) :=
| FollowNone
| FollowSeq (names : list string)
| FollowMap (m : list (string * A)).
Arguments FollowNone {A}.
Arguments FollowSeq {A} names.
Arguments FollowMap {A} m.

(** A bundle of keyword arguments; an absent keyword is [None].
    [exclude] is a reference to a list object of the store. *)
Inductive kwargs :=
| Kwargs (exclude : option nat) (exclude_underscore : option bool)
         (exclude_pk : option bool) (allow_pk : option bool)
         (follow : follow_of kwargs) (include : option (list string)).

Definition follow_arg := follow_of kwargs.

(** The empty bundle [{}]. *)
Definition no_kwargs : kwargs := Kwargs None None None None FollowNone None.

(** What a key of the normalised [follow] dict maps to: a bundle, or, when
    [dict(follow)] split a two-character name, its second character. *)
Inductive args :=
| ArgsKw (kw : kwargs)
| ArgsStr (s : string).

(** [dict(names)] for a sequence of strings: every element must be a
    sequence of length two, else [ValueError]. *)
Fixpoint dict_pairs_of_strings (names : list string) : option (list (string * args)) :=
  match names with
  | [] => Some []
  | String a (String b EmptyString) :: names' =>
      match dict_pairs_of_strings names' with
      | Some ps => Some ((String a EmptyString, ArgsStr (String b EmptyString)) :: ps)
      | None => None
      end
  | _ => None
  end.

(** The builtin [dict(follow)]. *)
Definition dict_builtin (follow : follow_arg) : result (list (string * args)) :=
  match follow with
  | FollowNone => Ok []
  | FollowMap m => Ok (dict_of ((λ kv, (kv.1, ArgsKw kv.2)) <$> m))
  | FollowSeq names =>
      match dict_pairs_of_strings names with
      | Some ps => Ok (dict_of ps)
      | None => Raise ValueError
      end
  end.

(** [list(follow)] *)
Definition list_builtin (follow : follow_arg) : list string :=
  match follow with
  | FollowNone => []
  | FollowSeq names => names
  | FollowMap m => (dict_of m).*1
  end.

(** [dict.fromkeys(keys, v)] *)
Definition fromkeys {A} (keys : list string) (v : A) : list (string * A) :=
  dict_of ((λ k, (k, v)) <$> keys).

(** Lines 77-82 and 156-161:
    [if follow == None: follow = []];
    [try: follow = dict(follow)]
    [except ValueError: follow = dict.fromkeys(list(follow), {})]. *)
Definition normalize_follow (follow : follow_arg) : list (string * args) :=
  let follow := match follow with FollowNone => FollowSeq [] | f => f end in
  match dict_builtin follow with
  | Ok d => d
  | _ => fromkeys (list_builtin follow) (ArgsKw no_kwargs)
  end.

(** ** The [exclude] list *)

(** The local variable [exclude] is bound either to a list created by the
    call itself or to the list object of the caller. *)
Inductive listref :=
| Fresh (l : list string)
| Caller (id : nat).

(** [exclude = exclude or []] *)
Definition or_fresh (exclude : option nat) : M listref :=
  λ st, match exclude with
        | None => (Ok (Fresh []), st)
        | Some id => match lists st !! id with
                     | Some (_ :: _) => (Ok (Caller id), st)
                     | _ => (Ok (Fresh []), st)
                     end
        end.

(** [exclude += names]: extends the list object in place. *)
Definition extend (exclude : listref) (names : list string) : M listref :=
  λ st, match exclude with
        | Fresh l => (Ok (Fresh (l ++ names)), st)
        | Caller id =>
            (Ok (Caller id),
             {| objs := objs st;
                lists := <[id := default [] (lists st !! id) ++ names]> (lists st) |})
        end.

Definition contents (exclude : listref) : M (list string) :=
  λ st, match exclude with
        | Fresh l => (Ok l, st)
        | Caller id => (Ok (default [] (lists st !! id)), st)
        end.

(** [x or []] on a value that is [None] or a list. *)
Definition or_nil (x : option (list string)) : list string := default [] x.

(** [[k.key for k in model.__mapper__.iterate_properties if k.key[0] == '_']];
    indexing an empty key raises [IndexError]. *)
Fixpoint underscore_keys (props : list property) : M (list string) :=
  match props with
  | [] => ret []
  | k :: props' =>
      match key k with
      | EmptyString => raise IndexError
      | String c _ =>
          ks ← underscore_keys props';
          ret (if decide (c = "_"%char) then key k :: ks else ks)
      end
  end.

(** Lines 87-89 and 166-168: the call-site value, else the class attribute,
    else the constant. *)
Definition resolve_exclude_underscore (c : mapped_class)
    (exclude_underscore : option bool) : bool :=
  match exclude_underscore with
  | None => default default_exclude_underscore (dictalchemy_exclude_underscore c)
  | Some b => b
  end.

(** Lines 175-177. *)
Definition resolve_allow_pk (c : mapped_class) (allow_pk : option bool) : bool :=
  match allow_pk with
  | None => default default_fromdict_allow_pk (dictalchemy_fromdict_allow_pk c)
  | Some b => b
  end.

(** Lines 84-93 and 163-173, shared by both directions: the resolved
    [exclude] list. *)
Definition resolve_exclude (c : mapped_class) (exclude : option nat)
    (exclude_underscore : option bool) : M listref :=
  exclude ← or_fresh exclude;
  exclude ← extend exclude
    (or_nil (default default_exclude (dictalchemy_exclude c)));
  let exclude_underscore := resolve_exclude_underscore c exclude_underscore in
  if exclude_underscore
  then ks ← underscore_keys (iterate_properties c); extend exclude ks
  else ret exclude.

(** ** asdict *)

(** The list comprehension of lines 104-105:
    [[(k, getattr(model, k)) for k in keys if k not in exclude]]. *)
Fixpoint read_fields (model : nat) (keys exclude : list string)
  : M (list (string * value)) :=
  match keys with
  | [] => ret []
  | k :: keys' =>
      if mem k exclude then read_fields model keys' exclude
      else v ← getattr model k;
           kvs ← read_fields model keys' exclude;
           ret ((k, v) :: kvs)
  end.

(** One element of the sequence given to [dict(...)]: a sequence of length
    two.  Keys of mappings are names in this model, so a key that is not a
    string is refused. *)
Definition pair_of (v : value) : M (string * value) :=
  match v with
  | VList [VStr k; x] | VColl [VStr k; x] => ret (k, x)
  | VStr (String a (String b EmptyString)) =>
      ret (String a EmptyString, VStr (String b EmptyString))
  | VDict [(k1, _); (k2, _)] => ret (k1, VStr k2)
  | VList [_; _] | VColl [_; _] => raise TypeError
  | VList _ | VColl _ | VStr _ | VDict _ => raise ValueError
  | VNone | VInt _ | VObj _ => raise TypeError
  end.

Fixpoint pairs_of (vs : list value) : M (list (string * value)) :=
  match vs with
  | [] => ret []
  | v :: vs' => kv ← pair_of v; kvs ← pairs_of vs'; ret (kv :: kvs)
  end.

(** [dict(child)] for a child without [asdict] (line 121). *)
Definition dict_child (child : value) : M value :=
  match child with
  | VDict d => ret (VDict d)
  | VList vs | VColl vs => kvs ← pairs_of vs; ret (VDict (dict_of kvs))
  | VStr EmptyString => ret (VDict [])
  | VStr _ => raise ValueError
  | VNone | VInt _ | VObj _ => raise TypeError
  end.

Section asdict_body.
(** [rel.asdict] applied to the unpacked bundle *)
Variable rel_asdict : nat → args → M value.

(** Lines 116-121. *)
Fixpoint asdict_children (rel : list value) (a : args) : M (list value) :=
  match rel with
  | [] => ret []
  | child :: rel' =>
      h ← hasattr_asdict child;
      d ← match h with
          | Some o => rel_asdict o a
          | None => dict_child child
          end;
      children ← asdict_children rel' a;
      ret (d :: children)
  end.

(** Lines 107-122. *)
Fixpoint asdict_follow (model : nat) (relations : list string)
    (follow : list (string * args)) (data : list (string * value))
  : M (list (string * value)) :=
  match follow with
  | [] => ret data
  | (k, a) :: follow' =>
      if negb (mem k relations) then raise ValueError
      else
        rel ← getattr model k;
        h ← hasattr_asdict rel;
        data ← match h, rel with
               | Some o, _ => d ← rel_asdict o a; ret (dict_set k d data)
               | None, VColl children =>
                   children ← asdict_children children a;
                   ret (dict_set k (VList children) data)
               | None, _ => ret data
               end;
        asdict_follow model relations follow' data
  end.

Definition asdict_body (model : nat) (exclude : option nat)
    (exclude_underscore exclude_pk : option bool) (follow : follow_arg)
    (include : option (list string)) : M value :=
  let follow := normalize_follow follow in
  c ← class_of model;
  exclude ← resolve_exclude c exclude exclude_underscore;
  exclude ← match exclude_pk with
            | Some true => extend exclude (elements (get_primary_key_properties c))
            | _ => ret exclude
            end;
  let include := or_nil include ++ or_nil (dictalchemy_asdict_include c) in
  let columns := get_column_keys c in
  let synonyms := get_synonym_keys c in
  let relations := get_relation_keys c in
  ex ← contents exclude;
  kvs ← read_fields model (columns ++ synonyms ++ include) ex;
  data ← asdict_follow model relations follow (dict_of kvs);
  ret (VDict data).
End asdict_body.

(** Unpacking the bundle at a call of [asdict]: a string is no mapping, and
    [allow_pk] is no keyword of [asdict]. *)
Definition call_asdict
    (asdict : nat → option nat → option bool → option bool → follow_arg →
              option (list string) → M value)
    (rel : nat) (a : args) : M value :=
  match a with
  | ArgsStr _ => raise TypeError
  | ArgsKw (Kwargs exclude exclude_underscore exclude_pk allow_pk follow include) =>
      match allow_pk with
      | Some _ => raise TypeError
      | None => asdict rel exclude exclude_underscore exclude_pk follow include
      end
  end.

(** The recursion of [asdict] through [follow], cut after [fuel] nested calls. *)
Fixpoint asdict_fuel (fuel : nat) (model : nat) (exclude : option nat)
    (exclude_underscore exclude_pk : option bool) (follow : follow_arg)
    (include : option (list string)) : M value :=
  match fuel with
  | 0 => λ st, (OutOfFuel, st)
  | S fuel' =>
      asdict_body (call_asdict (asdict_fuel fuel'))
        model exclude exclude_underscore exclude_pk follow include
  end.

(** Nesting depth of a [follow] argument: a call recurses at most this deep. *)
Fixpoint depth (kw : kwargs) : nat :=
  match kw with
  | Kwargs _ _ _ _ follow _ =>
      match follow with
      | FollowNone => 0
      | FollowSeq _ => 1
      | FollowMap m =>
          S ((fix go (m : list (string * kwargs)) : nat :=
                match m with
                | [] => 0
                | (_, kw') :: m' => Nat.max (depth kw') (go m')
                end) m)
      end
  end.

Definition depth_follow (follow : follow_arg) : nat :=
  depth (Kwargs None None None None follow None).

Definition asdict (model : nat) (exclude : option nat)
    (exclude_underscore exclude_pk : option bool) (follow : follow_arg)
    (include : option (list string)) : M value :=
  asdict_fuel (S (depth_follow follow))
    model exclude exclude_underscore exclude_pk follow include.

(** ** fromdict *)

Section fromdict_body.
(** [rel.fromdict] applied to [data[k]] and the unpacked bundle *)
Variable rel_fromdict : nat → value → args → M unit.

(** Lines 188-194. *)
Fixpoint update_simple (model : nat) (allow_pk : bool)
    (primary_keys : gset string) (fields : list string)
    (items : list (string * value)) : M unit :=
  match items with
  | [] => ret ()
  | (k, v) :: items' =>
      if negb allow_pk && bool_decide (k ∈ primary_keys) then raise Exception
      else
        (if mem k fields then setattr model k v else ret ());;
        update_simple model allow_pk primary_keys fields items'
  end.

(** Lines 197-206. *)
Fixpoint fromdict_follow (model : nat) (relations : list string)
    (data : list (string * value)) (follow : list (string * args)) : M unit :=
  match follow with
  | [] => ret ()
  | (k, a) :: follow' =>
      match dict_get k data with
      | None => fromdict_follow model relations data follow'
      | Some dk =>
          if negb (mem k relations) then raise ValueError
          else
            rel ← getattr model k;
            h ← hasattr_asdict rel;
            match h with
            | Some o => rel_fromdict o dk a
            | None => ret ()
            end;;
            fromdict_follow model relations data follow'
      end
  end.

Definition fromdict_body (model : nat) (data : value) (exclude : option nat)
    (exclude_underscore allow_pk : option bool) (follow : follow_arg)
    (include : option (list string)) : M unit :=
  let follow := normalize_follow follow in
  c ← class_of model;
  _ ← resolve_exclude c exclude exclude_underscore;
  let allow_pk := resolve_allow_pk c allow_pk in
  let include := or_nil include ++ or_nil (dictalchemy_fromdict_include c) in
  let columns := get_column_keys c in
  let synonyms := get_synonym_keys c in
  let relations := get_relation_keys c in
  let primary_keys := get_primary_key_properties c in
  items ← iteritems data;
  update_simple model allow_pk primary_keys (columns ++ synonyms ++ include) items;;
  fromdict_follow model relations items follow.
End fromdict_body.

(** The call [rel.fromdict(data[k], ...)] with the unpacked bundle.  The
    method is looked up first: line 205 has tested [hasattr(rel, 'asdict')],
    not that [rel] has [fromdict].  Then the bundle is unpacked:
    [exclude_pk] is no keyword of [fromdict]. *)
Definition call_fromdict
    (fromdict : nat → value → option nat → option bool → option bool →
                follow_arg → option (list string) → M unit)
    (rel : nat) (data : value) (a : args) : M unit :=
  c ← class_of rel;
  if has_fromdict c
  then match a with
       | ArgsStr _ => raise TypeError
       | ArgsKw (Kwargs exclude exclude_underscore exclude_pk allow_pk follow include) =>
           match exclude_pk with
           | Some _ => raise TypeError
           | None => fromdict rel data exclude exclude_underscore allow_pk follow include
           end
       end
  else raise AttributeError.

Fixpoint fromdict_fuel (fuel : nat) (model : nat) (data : value)
    (exclude : option nat) (exclude_underscore allow_pk : option bool)
    (follow : follow_arg) (include : option (list string)) : M unit :=
  match fuel with
  | 0 => λ st, (OutOfFuel, st)
  | S fuel' =>
      fromdict_body (call_fromdict (fromdict_fuel fuel'))
        model data exclude exclude_underscore allow_pk follow include
  end.

Definition fromdict (model : nat) (data : value) (exclude : option nat)
    (exclude_underscore allow_pk : option bool) (follow : follow_arg)
    (include : option (list string)) : M unit :=
  fromdict_fuel (S (depth_follow follow))
    model data exclude exclude_underscore allow_pk follow include.

(** ** iter and make_class_dictable *)

(** [iter(model)]: the items of [model.asdict()]; the method exists on
    instances of a class with [asdict] only. *)
Definition iter (model : nat) : M (list (string * value)) :=
  c ← class_of model;
  if has_asdict c
  then d ← asdict model None None None FollowNone None; iteritems d
  else raise AttributeError.

Definition make_class_dictable (c : mapped_class)
    (exclude : option (list string)) (exclude_underscore fromdict_allow_pk : bool)
    (asdict_include fromdict_include : option (list string)) : mapped_class :=
  {| iterate_properties := iterate_properties c;
     has_asdict := true;
     has_fromdict := true;
     dictalchemy_exclude := Some exclude;
     dictalchemy_exclude_underscore := Some exclude_underscore;
     dictalchemy_fromdict_allow_pk := Some fromdict_allow_pk;
     dictalchemy_asdict_include := asdict_include;
     dictalchemy_fromdict_include := fromdict_include |}.

(** * Properties *)

(** ** Dictionaries *)

Section dict_facts.
Context {A : Type}.
Implicit Types (d : list (string * A)) (k : string) (v : A).

Lemma dict_set_keys k' k v d :
  k' ∈ (dict_set k v d).*1 ↔ k' = k ∨ k' ∈ d.*1.
Proof.
  induction d as [|[k0 v0] d IH]; simpl.
  - set_solver.
  - case_decide; subst; simpl; set_solver.
Qed.

Lemma dict_set_items k' v' k v d :
  (k', v') ∈ dict_set k v d → (k', v') = (k, v) ∨ (k', v') ∈ d.
Proof.
  induction d as [|[k0 v0] d IH]; simpl.
  - set_solver.
  - case_decide; subst; set_solver.
Qed.

Lemma dict_set_fresh k v d : k ∉ d.*1 → dict_set k v d = d ++ [(k, v)].
Proof.
  induction d as [|[k0 v0] d IH]; simpl; intros Hk; [done|].
  apply not_elem_of_cons in Hk as [Hne Hk].
  case_decide; [done|]. by rewrite IH.
Qed.

Lemma dict_get_set_eq k v d : dict_get k (dict_set k v d) = Some v.
Proof.
  induction d as [|[k0 v0] d IH]; simpl.
  - by case_decide.
  - case_decide; simpl; by case_decide.
Qed.

Lemma dict_get_set_ne k k' v d :
  k ≠ k' → dict_get k (dict_set k' v d) = dict_get k d.
Proof.
  intros Hne. induction d as [|[k0 v0] d IH]; simpl.
  - by case_decide.
  - repeat (case_decide; simpl; subst); congruence.
Qed.

Lemma dict_get_None k d : dict_get k d = None ↔ k ∉ d.*1.
Proof.
  induction d as [|[k0 v0] d IH]; simpl.
  - set_solver.
  - case_decide; subst; [set_solver|]. rewrite IH. set_solver.
Qed.

Lemma dict_get_Some_elem k v d : dict_get k d = Some v → (k, v) ∈ d.
Proof.
  induction d as [|[k0 v0] d IH]; simpl; [done|].
  case_decide; subst; [intros [= ->]; left|right; auto].
Qed.

Lemma dict_get_NoDup k v d : NoDup d.*1 → (k, v) ∈ d → dict_get k d = Some v.
Proof.
  induction d as [|[k0 v0] d IH]; simpl; [by intros _ ?%elem_of_nil|].
  intros [Hk0 Hd]%NoDup_cons [[= -> ->]|Hin]%elem_of_cons.
  - by case_decide.
  - case_decide; subst; [|auto].
    destruct Hk0. by apply (list_elem_of_fmap_2 fst _ (k0, v)).
Qed.

Lemma dict_of_acc_keys k acc (l : list (string * A)) :
  k ∈ (foldl (λ d kv, dict_set kv.1 kv.2 d) acc l).*1 ↔ k ∈ acc.*1 ∨ k ∈ l.*1.
Proof.
  revert acc. induction l as [|[k0 v0] l IH]; intros acc; simpl.
  - set_solver.
  - rewrite IH, dict_set_keys. set_solver.
Qed.

Lemma dict_of_keys k (l : list (string * A)) : k ∈ (dict_of l).*1 ↔ k ∈ l.*1.
Proof. unfold dict_of. rewrite dict_of_acc_keys. set_solver. Qed.

Lemma dict_of_acc_items kv acc (l : list (string * A)) :
  kv ∈ foldl (λ d kv, dict_set kv.1 kv.2 d) acc l → kv ∈ acc ∨ kv ∈ l.
Proof.
  revert acc. induction l as [|[k0 v0] l IH]; intros acc; simpl.
  - auto.
  - intros [Hin|Hin]%IH; [|set_solver].
    destruct kv as [k v]. apply dict_set_items in Hin. set_solver.
Qed.

Lemma dict_of_items kv (l : list (string * A)) : kv ∈ dict_of l → kv ∈ l.
Proof. intros [Hin|Hin]%dict_of_acc_items; [by apply elem_of_nil in Hin|done]. Qed.

Lemma dict_of_acc_NoDup acc (l : list (string * A)) :
  NoDup (acc ++ l).*1 → foldl (λ d kv, dict_set kv.1 kv.2 d) acc l = acc ++ l.
Proof.
  revert acc. induction l as [|[k0 v0] l IH]; intros acc Hnd; simpl.
  - by rewrite app_nil_r.
  - rewrite dict_set_fresh.
    + rewrite IH; rewrite <- app_assoc; done.
    + rewrite fmap_app in Hnd. apply NoDup_app in Hnd as (_ & Hd & _).
      intros Hin. apply (Hd _ Hin). simpl. left.
Qed.

(** On the items of a dict, [dict(...)] is a copy. *)
Lemma dict_of_NoDup (l : list (string * A)) : NoDup l.*1 → dict_of l = l.
Proof. intros Hnd. unfold dict_of. by rewrite dict_of_acc_NoDup. Qed.

Lemma dict_of_NoDup_keys (l : list (string * A)) : NoDup (dict_of l).*1.
Proof.
  unfold dict_of. assert (Hacc : NoDup ([] : list (string * A)).*1) by constructor.
  revert Hacc. generalize ([] : list (string * A)).
  induction l as [|[k0 v0] l IH]; intros acc Hacc; simpl; [done|].
  apply IH. clear IH. induction acc as [|[k1 v1] acc IHa]; simpl.
  - apply NoDup_singleton.
  - apply NoDup_cons in Hacc as [Hk1 Hacc].
    case_decide; subst; simpl.
    + by apply NoDup_cons.
    + apply NoDup_cons. split; [|auto].
      rewrite dict_set_keys. intros [?|?]; [congruence|done].
Qed.
End dict_facts.

(** ** The monad *)

Ltac munfold := unfold mbind, M_bind, mret, M_ret in *.

Lemma bind_ext {A B} (m : M A) (f g : A → M B) st :
  (∀ a st', f a st' = g a st') → bind m f st = bind m g st.
Proof. intros Hfg. unfold bind. destruct (m st) as [[a|e|] st']; auto. Qed.

Lemma bind_Ok {A B} (m : M A) (f : A → M B) st b st' :
  bind m f st = (Ok b, st') → ∃ a st1, m st = (Ok a, st1) ∧ f a st1 = (Ok b, st').
Proof.
  unfold bind. destruct (m st) as [[a|e|] st1]; [eauto|done|done].
Qed.

(** [frames R m]: every run of [m], whatever its outcome, takes a state to
    an [R]-related one. *)
Definition frames (R : relation state) {A} (m : M A) : Prop :=
  ∀ st r st', m st = (r, st') → R st st'.

(** A computation that only reads the store. *)
Definition reads {A} (m : M A) : Prop := ∀ st, (m st).2 = st.

Lemma reads_class_of model : reads (class_of model).
Proof. intros st. unfold class_of. by destruct (objs st !! model). Qed.

Lemma reads_getattr model k : reads (getattr model k).
Proof. intros st. unfold getattr. by destruct (attr_of st model k). Qed.

Lemma reads_hasattr_asdict rel : reads (hasattr_asdict rel).
Proof. done. Qed.

Lemma reads_or_fresh exclude : reads (or_fresh exclude).
Proof.
  intros st. unfold or_fresh. destruct exclude as [id|]; [|done].
  by destruct (lists st !! id) as [[|??]|].
Qed.

Lemma reads_contents exclude : reads (contents exclude).
Proof. intros st. by destruct exclude. Qed.

Lemma reads_ret {A} (a : A) : reads (ret a).
Proof. done. Qed.

Lemma reads_raise {A} e : reads (@raise A e).
Proof. done. Qed.

Lemma reads_bind {A B} (m : M A) (f : A → M B) :
  reads m → (∀ a, reads (f a)) → reads (bind m f).
Proof.
  intros Hm Hf st. unfold bind. specialize (Hm st).
  destruct (m st) as [[a|e|] st1]; simpl in *; subst; [apply Hf|done|done].
Qed.

Lemma reads_iteritems data : reads (iteritems data).
Proof. by destruct data. Qed.

Lemma reads_underscore_keys props : reads (underscore_keys props).
Proof.
  induction props as [|k props IH]; simpl; [done|].
  destruct (key k); [done|]. munfold. apply reads_bind; [done|]. by intros.
Qed.

Lemma reads_read_fields model keys exclude : reads (read_fields model keys exclude).
Proof.
  induction keys as [|k keys IH]; simpl; [done|].
  destruct (mem k exclude); [done|]. munfold.
  apply reads_bind; [apply reads_getattr|]. intros v.
  apply reads_bind; [done|]. by intros.
Qed.

Lemma reads_pair_of v : reads (pair_of v).
Proof. intros st. unfold pair_of. repeat case_match; done. Qed.

Lemma reads_pairs_of vs : reads (pairs_of vs).
Proof.
  induction vs as [|v vs IH]; simpl; [done|]. munfold.
  apply reads_bind; [apply reads_pair_of|]. intros kv.
  apply reads_bind; [done|]. by intros.
Qed.

Lemma reads_dict_child child : reads (dict_child child).
Proof.
  destruct child as [| | s |o|l|l|d]; try done.
  - by destruct s.
  - simpl. munfold. apply reads_bind; [apply reads_pairs_of|]. by intros.
  - simpl. munfold. apply reads_bind; [apply reads_pairs_of|]. by intros.
Qed.

Section frames.
Context (R : relation state) `{!PreOrder R}.

Lemma frames_reads {A} (m : M A) : reads m → frames R m.
Proof. intros Hm st r st' Hrun. specialize (Hm st). rewrite Hrun in Hm. by simplify_eq/=. Qed.

Lemma frames_bind {A B} (m : M A) (f : A → M B) :
  frames R m → (∀ a, frames R (f a)) → frames R (bind m f).
Proof.
  intros Hm Hf st r st'. unfold bind.
  destruct (m st) as [[a|e|] st1] eqn:Hrun; intros Hk.
  - etrans; [by eapply Hm|by eapply Hf].
  - simplify_eq. by eapply Hm.
  - simplify_eq. by eapply Hm.
Qed.

Hypothesis R_extend : ∀ exclude names, frames R (extend exclude names).

Lemma frames_resolve_exclude c exclude exclude_underscore :
  frames R (resolve_exclude c exclude exclude_underscore).
Proof.
  unfold resolve_exclude. munfold.
  apply frames_bind; [apply frames_reads, reads_or_fresh|]. intros ex.
  apply frames_bind; [apply R_extend|]. intros ex'.
  destruct (resolve_exclude_underscore c exclude_underscore).
  - apply frames_bind; [apply frames_reads, reads_underscore_keys|]. intros; apply R_extend.
  - apply frames_reads, reads_ret.
Qed.

Section asdict.
Variable rel_asdict : nat → args → M value.
Hypothesis R_rec : ∀ o a, frames R (rel_asdict o a).

Lemma frames_asdict_children rel a : frames R (asdict_children rel_asdict rel a).
Proof.
  induction rel as [|child rel IH]; simpl; [apply frames_reads, reads_ret|].
  munfold.
  apply frames_bind; [apply frames_reads, reads_hasattr_asdict|]. intros h.
  apply frames_bind.
  { destruct h; [apply R_rec|apply frames_reads, reads_dict_child]. }
  intros d. apply frames_bind; [done|]. intros. apply frames_reads, reads_ret.
Qed.

Lemma frames_asdict_follow model relations follow data :
  frames R (asdict_follow rel_asdict model relations follow data).
Proof.
  revert data. induction follow as [|[k a] follow IH]; intros data; simpl.
  { apply frames_reads, reads_ret. }
  destruct (negb (mem k relations)); [apply frames_reads, reads_raise|].
  munfold.
  apply frames_bind; [apply frames_reads, reads_getattr|]. intros rel.
  apply frames_bind; [apply frames_reads, reads_hasattr_asdict|]. intros h.
  apply frames_bind; [|done].
  destruct h.
  { apply frames_bind; [apply R_rec|]. intros; apply frames_reads, reads_ret. }
  destruct rel; try apply frames_reads, reads_ret.
  apply frames_bind; [apply frames_asdict_children|].
  intros; apply frames_reads, reads_ret.
Qed.

Lemma frames_asdict_body model exclude exclude_underscore exclude_pk follow include :
  frames R (asdict_body rel_asdict model exclude exclude_underscore exclude_pk
              follow include).
Proof.
  unfold asdict_body. munfold.
  apply frames_bind; [apply frames_reads, reads_class_of|]. intros c.
  apply frames_bind; [apply frames_resolve_exclude|]. intros ex.
  apply frames_bind.
  { destruct exclude_pk as [[]|]; try apply frames_reads, reads_ret. apply R_extend. }
  intros ex'.
  apply frames_bind; [apply frames_reads, reads_contents|]. intros names.
  apply frames_bind; [apply frames_reads, reads_read_fields|]. intros kvs.
  apply frames_bind; [apply frames_asdict_follow|]. intros.
  apply frames_reads, reads_ret.
Qed.
End asdict.

Lemma frames_call_asdict asdict o a :
  (∀ o ex eu epk follow inc, frames R (asdict o ex eu epk follow inc)) →
  frames R (call_asdict asdict o a).
Proof.
  intros Hrec. destruct a as [[ex eu epk [apk|] follow inc]|s]; simpl;
    try apply frames_reads, reads_raise. apply Hrec.
Qed.

Lemma frames_asdict_fuel fuel model exclude exclude_underscore exclude_pk follow include :
  frames R (asdict_fuel fuel model exclude exclude_underscore exclude_pk follow include).
Proof.
  revert model exclude exclude_underscore exclude_pk follow include.
  induction fuel as [|fuel IH]; intros; simpl.
  - intros st r st' [= _ ->]. done.
  - apply frames_asdict_body. intros. by apply frames_call_asdict.
Qed.
End frames.

(** ** What a call leaves alone *)

(** The instances are the same before and after. *)
Definition same_objs : relation state := λ st st', objs st' = objs st.

(** Every list object of the store is only ever extended at its end. *)
Definition lists_grow : relation state := λ st st',
  ∀ id xs, lists st !! id = Some xs → ∃ ys, lists st' !! id = Some (xs ++ ys).

#[global] Instance same_objs_preorder : PreOrder same_objs.
Proof.
  split; [done|]. intros st1 st2 st3 H12 H23. unfold same_objs in *. congruence.
Qed.

#[global] Instance lists_grow_preorder : PreOrder lists_grow.
Proof.
  split.
  - intros st id xs Hid. exists []. by rewrite app_nil_r.
  - intros st1 st2 st3 H12 H23 id xs Hid.
    destruct (H12 _ _ Hid) as [ys Hys]. destruct (H23 _ _ Hys) as [zs Hzs].
    exists (ys ++ zs). by rewrite app_assoc.
Qed.

Lemma extend_same_objs exclude names : frames same_objs (extend exclude names).
Proof. intros st r st'. destruct exclude; intros [= _ <-]; done. Qed.

Lemma extend_lists_grow exclude names : frames lists_grow (extend exclude names).
Proof.
  intros st r st'. destruct exclude as [l|id]; intros [= _ <-]; [done|].
  intros id' xs Hid'. simpl. destruct (decide (id = id')) as [->|Hne].
  - rewrite lookup_insert_eq, Hid'. simpl. eauto.
  - rewrite lookup_insert_ne by done. exists []. by rewrite app_nil_r.
Qed.

(** [asdict] never touches an instance. *)
Lemma asdict_fuel_same_objs fuel model exclude exclude_underscore exclude_pk follow
    include st r st' :
  asdict_fuel fuel model exclude exclude_underscore exclude_pk follow include st
    = (r, st') →
  objs st' = objs st.
Proof. apply (frames_asdict_fuel same_objs), extend_same_objs. Qed.

Lemma asdict_fuel_lists_grow fuel model exclude exclude_underscore exclude_pk follow
    include st r st' :
  asdict_fuel fuel model exclude exclude_underscore exclude_pk follow include st
    = (r, st') →
  lists_grow st st'.
Proof. apply (frames_asdict_fuel lists_grow), extend_lists_grow. Qed.

Lemma setattr_lists_grow model k v : frames lists_grow (setattr model k v).
Proof.
  intros st r st'. unfold setattr.
  destruct (objs st !! model) as [i|]; [destruct (target (cls i) k)|];
    intros [= _ <-] id xs Hid; exists []; by rewrite app_nil_r.
Qed.

Ltac frames_pure :=
  match goal with |- frames ?R _ => apply (frames_reads R); intros ?; reflexivity end.

Section frames_fromdict.
Context (R : relation state) `{!PreOrder R}.
Hypothesis R_extend : ∀ exclude names, frames R (extend exclude names).
Hypothesis R_setattr : ∀ model k v, frames R (setattr model k v).

Section body.
Variable rel_fromdict : nat → value → args → M unit.
Hypothesis R_rec : ∀ o d a, frames R (rel_fromdict o d a).

Lemma frames_update_simple model allow_pk primary_keys fields items :
  frames R (update_simple model allow_pk primary_keys fields items).
Proof.
  induction items as [|[k v] items IH]; simpl; [frames_pure|].
  destruct (negb allow_pk && _); [frames_pure|]. munfold.
  apply (frames_bind R); [|done].
  destruct (mem k fields); [apply R_setattr|frames_pure].
Qed.

Lemma frames_fromdict_follow model relations data follow :
  frames R (fromdict_follow rel_fromdict model relations data follow).
Proof.
  induction follow as [|[k a] follow IH]; simpl; [frames_pure|].
  destruct (dict_get k data) as [dk|]; [|done].
  destruct (negb (mem k relations)); [frames_pure|]. munfold.
  apply (frames_bind R); [apply (frames_reads R), reads_getattr|]. intros rel.
  apply (frames_bind R); [apply (frames_reads R), reads_hasattr_asdict|]. intros h.
  apply (frames_bind R); [|done].
  destruct h; [apply R_rec|frames_pure].
Qed.

Lemma frames_fromdict_body model data exclude exclude_underscore allow_pk follow
    include :
  frames R (fromdict_body rel_fromdict model data exclude exclude_underscore
              allow_pk follow include).
Proof.
  unfold fromdict_body. munfold.
  apply (frames_bind R); [apply (frames_reads R), reads_class_of|]. intros c.
  apply (frames_bind R); [by apply (frames_resolve_exclude R)|]. intros _.
  apply (frames_bind R); [apply (frames_reads R), reads_iteritems|]. intros items.
  apply (frames_bind R); [apply frames_update_simple|]. intros _.
  apply frames_fromdict_follow.
Qed.
End body.

Lemma frames_call_fromdict fromdict o d a :
  (∀ model data exclude exclude_underscore allow_pk follow include,
     frames R (fromdict model data exclude exclude_underscore allow_pk follow include)) →
  frames R (call_fromdict fromdict o d a).
Proof.
  intros Hrec. unfold call_fromdict. munfold.
  apply (frames_bind R); [apply (frames_reads R), reads_class_of|]. intros c.
  destruct (has_fromdict c); [|frames_pure].
  destruct a as [[ex eu [epk|] apk fol inc]|s]; try frames_pure. apply Hrec.
Qed.

Lemma frames_fromdict_fuel fuel model data exclude exclude_underscore allow_pk follow
    include :
  frames R (fromdict_fuel fuel model data exclude exclude_underscore allow_pk
              follow include).
Proof.
  revert model data exclude exclude_underscore allow_pk follow include.
  induction fuel as [|fuel IH]; intros; simpl.
  - intros st r st' [= _ ->]. done.
  - apply frames_fromdict_body. intros o d a. by apply frames_call_fromdict.
Qed.
End frames_fromdict.

Lemma fromdict_fuel_lists_grow fuel model data exclude exclude_underscore allow_pk
    follow include st r st' :
  fromdict_fuel fuel model data exclude exclude_underscore allow_pk follow include st
    = (r, st') →
  lists_grow st st'.
Proof.
  apply (frames_fromdict_fuel lists_grow); auto using extend_lists_grow, setattr_lists_grow.
Qed.

(** ** Fuel *)

Lemma bind_ext2 {A B} (m1 m2 : M A) (f g : A → M B) st :
  m1 st = m2 st → (∀ a st', f a st' = g a st') → bind m1 f st = bind m2 g st.
Proof. intros Hm Hfg. unfold bind. rewrite Hm. destruct (m2 st) as [[a|e|] st']; auto. Qed.

Fixpoint depth_items (m : list (string * kwargs)) : nat :=
  match m with
  | [] => 0
  | (_, kw) :: m' => Nat.max (depth kw) (depth_items m')
  end.

Lemma depth_follow_FollowMap m : depth_follow (FollowMap m) = S (depth_items m).
Proof.
  unfold depth_follow. simpl. f_equal.
Qed.

Lemma depth_items_elem k kw m : (k, kw) ∈ m → (depth kw ≤ depth_items m)%nat.
Proof.
  induction m as [|[k' kw'] m IH]; simpl; [by intros ?%elem_of_nil|].
  intros [[= <- <-]|Hin]%elem_of_cons; [lia|]. specialize (IH Hin). lia.
Qed.

Lemma depth_items_app m1 m2 :
  depth_items (m1 ++ m2) = Nat.max (depth_items m1) (depth_items m2).
Proof. induction m1 as [|[k kw] m1 IH]; simpl; [done|]. rewrite IH. lia. Qed.

Lemma dict_pairs_of_strings_str names ps k a :
  dict_pairs_of_strings names = Some ps → (k, a) ∈ ps → ∃ s, a = ArgsStr s.
Proof.
  revert ps. induction names as [|n names IH]; intros ps; simpl.
  - intros [= <-] ?%elem_of_nil. done.
  - destruct n as [|c1 [|c2 [|??]]]; try done.
    destruct (dict_pairs_of_strings names) as [ps'|]; [|done].
    intros [= <-] [[= _ ->]|Hin]%elem_of_cons; eauto.
Qed.

(** A bundle reached through [follow] is nested strictly less deeply. *)
Lemma normalize_follow_depth follow k kw :
  (k, ArgsKw kw) ∈ normalize_follow follow → (depth kw < depth_follow follow)%nat.
Proof.
  destruct follow as [|names|m]; unfold normalize_follow; simpl.
  - by intros ?%elem_of_nil.
  - destruct (dict_pairs_of_strings names) as [ps|] eqn:Hps.
    + intros Hin%dict_of_items.
      destruct (dict_pairs_of_strings_str _ _ _ _ Hps Hin); done.
    + unfold fromkeys. intros Hin%dict_of_items.
      apply list_elem_of_fmap in Hin as (? & [= _ ->] & _).
      unfold depth_follow. simpl. lia.
  - intros Hin%dict_of_items. apply list_elem_of_fmap in Hin as ([k' kw'] & [= -> ->] & Hin).
    rewrite depth_follow_FollowMap. apply depth_items_elem in Hin. lia.
Qed.

Section asdict_ext.
Variables rec1 rec2 : nat → args → M value.

Lemma asdict_children_ext rel a st :
  (∀ o st, rec1 o a st = rec2 o a st) →
  asdict_children rec1 rel a st = asdict_children rec2 rel a st.
Proof.
  intros Hrec. revert st. induction rel as [|child rel IH]; intros st; simpl; [done|].
  munfold. apply bind_ext. intros h st1. apply bind_ext2.
  - destruct h; [apply Hrec|done].
  - intros d st2. apply bind_ext2; [apply IH|done].
Qed.

Lemma asdict_follow_ext model relations follow data st :
  (∀ k a, (k, a) ∈ follow → ∀ o st, rec1 o a st = rec2 o a st) →
  asdict_follow rec1 model relations follow data st
  = asdict_follow rec2 model relations follow data st.
Proof.
  revert data st. induction follow as [|[k a] follow IH]; intros data st Hrec; simpl; [done|].
  destruct (negb (mem k relations)); [done|]. munfold.
  apply bind_ext. intros rel st1. apply bind_ext. intros h st2.
  assert (Ha : ∀ o st, rec1 o a st = rec2 o a st) by (apply (Hrec k); left).
  apply bind_ext2.
  - destruct h; [by apply bind_ext2|].
    destruct rel; try done. apply bind_ext2; [by apply asdict_children_ext|done].
  - intros data' st3. apply IH. intros k' a' Hin. apply (Hrec k'). by right.
Qed.

Lemma asdict_body_ext model exclude exclude_underscore exclude_pk follow include st :
  (∀ k a, (k, a) ∈ normalize_follow follow → ∀ o st, rec1 o a st = rec2 o a st) →
  asdict_body rec1 model exclude exclude_underscore exclude_pk follow include st
  = asdict_body rec2 model exclude exclude_underscore exclude_pk follow include st.
Proof.
  intros Hrec. unfold asdict_body. munfold.
  repeat (apply bind_ext; intros ? ?).
  apply bind_ext2; [by apply asdict_follow_ext|done].
Qed.
End asdict_ext.

(** Any fuel above the nesting depth of [follow] gives the same run. *)
Lemma asdict_fuel_irrel n m model exclude exclude_underscore exclude_pk follow include st :
  (depth_follow follow < n)%nat → (depth_follow follow < m)%nat →
  asdict_fuel n model exclude exclude_underscore exclude_pk follow include st
  = asdict_fuel m model exclude exclude_underscore exclude_pk follow include st.
Proof.
  revert m model exclude exclude_underscore exclude_pk follow include st.
  induction n as [|n IH]; intros [|m] ??????? Hn Hm; try lia. simpl.
  apply asdict_body_ext. intros k [[ex eu epk [apk|] fol inc]|s] Hin o st'; simpl; try done.
  apply normalize_follow_depth in Hin. change (depth_follow fol < depth_follow follow)%nat in Hin.
  apply IH; lia.
Qed.

Lemma asdict_fuel_enough n model exclude exclude_underscore exclude_pk follow include st :
  (depth_follow follow < n)%nat →
  asdict_fuel n model exclude exclude_underscore exclude_pk follow include st
  = asdict model exclude exclude_underscore exclude_pk follow include st.
Proof. intros Hn. unfold asdict. apply asdict_fuel_irrel; lia. Qed.

Section fromdict_ext.
Variables rec1 rec2 : nat → value → args → M unit.

Lemma fromdict_follow_ext model relations data follow st :
  (∀ k a, (k, a) ∈ follow → ∀ o d st, rec1 o d a st = rec2 o d a st) →
  fromdict_follow rec1 model relations data follow st
  = fromdict_follow rec2 model relations data follow st.
Proof.
  revert st. induction follow as [|[k a] follow IH]; intros st Hrec; simpl; [done|].
  assert (Hrest : ∀ st, fromdict_follow rec1 model relations data follow st
                        = fromdict_follow rec2 model relations data follow st).
  { intros st'. apply IH. intros k' a' Hin. apply (Hrec k'). by right. }
  destruct (dict_get k data) as [dk|]; [|done].
  destruct (negb (mem k relations)); [done|]. munfold.
  apply bind_ext. intros rel st1. apply bind_ext. intros h st2.
  apply bind_ext2; [|done].
  destruct h; [|done]. apply (Hrec k). left.
Qed.

Lemma fromdict_body_ext model data exclude exclude_underscore allow_pk follow include st :
  (∀ k a, (k, a) ∈ normalize_follow follow → ∀ o d st, rec1 o d a st = rec2 o d a st) →
  fromdict_body rec1 model data exclude exclude_underscore allow_pk follow include st
  = fromdict_body rec2 model data exclude exclude_underscore allow_pk follow include st.
Proof.
  intros Hrec. unfold fromdict_body. munfold.
  repeat (apply bind_ext; intros ? ?).
  by apply fromdict_follow_ext.
Qed.
End fromdict_ext.

Lemma call_fromdict_ext f g o d a st :
  (∀ ex eu apk fol inc st',
     a = ArgsKw (Kwargs ex eu None apk fol inc) →
     f o d ex eu apk fol inc st' = g o d ex eu apk fol inc st') →
  call_fromdict f o d a st = call_fromdict g o d a st.
Proof.
  intros Hfg. unfold call_fromdict. munfold. apply bind_ext. intros c st'.
  destruct (has_fromdict c); [|done].
  destruct a as [[ex eu [epk|] apk fol inc]|s]; try done. by apply Hfg.
Qed.

Lemma fromdict_fuel_irrel n m model data exclude exclude_underscore allow_pk follow
    include st :
  (depth_follow follow < n)%nat → (depth_follow follow < m)%nat →
  fromdict_fuel n model data exclude exclude_underscore allow_pk follow include st
  = fromdict_fuel m model data exclude exclude_underscore allow_pk follow include st.
Proof.
  revert m model data exclude exclude_underscore allow_pk follow include st.
  induction n as [|n IH]; intros [|m] ???????? Hn Hm; try lia. simpl.
  apply fromdict_body_ext.
  intros k a Hin o d st'. apply call_fromdict_ext. intros ex eu apk fol inc st'' ->.
  apply normalize_follow_depth in Hin. change (depth_follow fol < depth_follow follow)%nat in Hin.
  apply IH; lia.
Qed.

Lemma fromdict_fuel_enough n model data exclude exclude_underscore allow_pk follow
    include st :
  (depth_follow follow < n)%nat →
  fromdict_fuel n model data exclude exclude_underscore allow_pk follow include st
  = fromdict model data exclude exclude_underscore allow_pk follow include st.
Proof. intros Hn. unfold fromdict. apply fromdict_fuel_irrel; lia. Qed.

(** ** Resolution of the exclude list *)

Definition starts_with_underscore (k : string) : bool :=
  match k with
  | String c _ => bool_decide (c = "_"%char)
  | EmptyString => false
  end.

(** The keys of the class, of any kind, that start with an underscore. *)
Definition underscore_names (c : mapped_class) : list string :=
  filter (λ k, starts_with_underscore k = true) (key <$> iterate_properties c).

(** No property of the class has the empty string as its key. *)
Definition keys_nonempty (c : mapped_class) : Prop :=
  Forall (λ p, key p ≠ "") (iterate_properties c).

(** The names a call passes in through [exclude]. *)
Definition given_exclude (st : state) (exclude : option nat) : list string :=
  match exclude with
  | Some id => default [] (lists st !! id)
  | None => []
  end.

(** The names that lines 85-93 (165-173) add to them. *)
Definition added_exclude (c : mapped_class) (exclude_underscore : option bool)
  : list string :=
  or_nil (default default_exclude (dictalchemy_exclude c))
  ++ (if resolve_exclude_underscore c exclude_underscore
      then underscore_names c else []).

(** The list a [listref] denotes in a state. *)
Definition list_of (exclude : listref) (st : state) : list string :=
  match exclude with
  | Fresh l => l
  | Caller id => default [] (lists st !! id)
  end.

Lemma underscore_keys_Ok props st ks st' :
  underscore_keys props st = (Ok ks, st') →
  ks = filter (λ k, starts_with_underscore k = true) (key <$> props) ∧ st' = st.
Proof.
  revert ks. induction props as [|p props IH]; intros ks; simpl.
  - by intros [= <- <-].
  - destruct (key p) as [|c s] eqn:Hkey; [done|]. munfold.
    intros (ks' & st1 & Hrun & [= <- <-])%bind_Ok.
    destruct (IH _ Hrun) as [-> ->]. split; [|done].
    change (list_fmap property string key props) with (key <$> props).
    rewrite filter_cons. simpl.
    repeat case_decide; try done; case_bool_decide; done.
Qed.

Lemma underscore_keys_total props st :
  Forall (λ p, key p ≠ "") props →
  underscore_keys props st
  = (Ok (filter (λ k, starts_with_underscore k = true) (key <$> props)), st).
Proof.
  induction 1 as [|p props Hp _ IH]; simpl; [done|].
  destruct (key p) as [|c s] eqn:Hkey; [done|]. munfold. unfold bind. rewrite IH.
  change (list_fmap property string key props) with (key <$> props).
  rewrite filter_cons. simpl. unfold ret.
  repeat case_decide; try done; case_bool_decide; done.
Qed.

Lemma or_fresh_list_of exclude st :
  ∃ ex, or_fresh exclude st = (Ok ex, st) ∧ list_of ex st = given_exclude st exclude.
Proof.
  unfold or_fresh. destruct exclude as [id|]; simpl; [|by eexists].
  destruct (lists st !! id) as [[|x xs]|] eqn:Hid; eexists; (split; [done|]); simpl;
    by rewrite ?Hid.
Qed.

Lemma extend_list_of ex names st :
  ∃ ex' st', extend ex names st = (Ok ex', st')
             ∧ list_of ex' st' = list_of ex st ++ names
             ∧ objs st' = objs st.
Proof.
  destruct ex as [l|id]; simpl; do 2 eexists; (split; [done|]); simpl; [done|].
  by rewrite lookup_insert_eq.
Qed.

(** What the resolved list holds when resolution goes through. *)
Lemma resolve_exclude_Ok c exclude exclude_underscore st ex st1 :
  resolve_exclude c exclude exclude_underscore st = (Ok ex, st1) →
  list_of ex st1 = given_exclude st exclude ++ added_exclude c exclude_underscore
  ∧ objs st1 = objs st.
Proof.
  unfold resolve_exclude, added_exclude. munfold. unfold bind.
  destruct (or_fresh_list_of exclude st) as (ex0 & -> & Hex0).
  destruct (extend_list_of ex0 (or_nil (default default_exclude (dictalchemy_exclude c))) st)
    as (ex1 & st1' & -> & Hex1 & Hobjs1).
  destruct (resolve_exclude_underscore c exclude_underscore).
  - destruct (underscore_keys (iterate_properties c) st1') as [[ks| |] st2] eqn:Hks;
      try done.
    apply underscore_keys_Ok in Hks as [-> ->].
    destruct (extend_list_of ex1 (underscore_names c) st1') as (ex2 & st2 & Hrun & Hex2 & Hobjs2).
    unfold underscore_names in Hrun. rewrite Hrun. intros [= <- <-].
    rewrite Hex2, Hex1, Hex0, <- app_assoc. split; [done|congruence].
  - intros [= <- <-]. rewrite app_nil_r, Hex1, Hex0. done.
Qed.

(** Resolution can only fail on an empty key. *)
Lemma resolve_exclude_total c exclude exclude_underscore st :
  keys_nonempty c →
  ∃ ex st1, resolve_exclude c exclude exclude_underscore st = (Ok ex, st1).
Proof.
  intros Hne. unfold resolve_exclude. munfold. unfold bind.
  destruct (or_fresh_list_of exclude st) as (ex0 & -> & Hex0).
  destruct (extend_list_of ex0 (or_nil (default default_exclude (dictalchemy_exclude c))) st)
    as (ex1 & st1' & -> & Hex1 & Hobjs1).
  destruct (resolve_exclude_underscore c exclude_underscore); [|by do 2 eexists].
  rewrite underscore_keys_total by done.
  destruct (extend_list_of ex1 (underscore_names c) st1') as (ex2 & st2 & Hrun & _).
  unfold underscore_names in Hrun. rewrite Hrun. by do 2 eexists.
Qed.

(** When the caller hands in a list that is not empty, that very list
    object is extended. *)
Lemma resolve_exclude_caller c id xs exclude_underscore st :
  keys_nonempty c → lists st !! id = Some xs → xs ≠ [] →
  ∃ st1, resolve_exclude c (Some id) exclude_underscore st = (Ok (Caller id), st1)
         ∧ lists st1 !! id = Some (xs ++ added_exclude c exclude_underscore)
         ∧ objs st1 = objs st.
Proof.
  intros Hne Hid Hxs. unfold resolve_exclude, added_exclude, or_fresh. munfold.
  unfold bind at 1. rewrite Hid. destruct xs as [|x xs]; [done|].
  unfold bind at 1. simpl. rewrite Hid. simpl.
  destruct (resolve_exclude_underscore c exclude_underscore).
  - unfold bind. rewrite underscore_keys_total by done. simpl.
    eexists. split; [done|]. simpl. rewrite !lookup_insert_eq. simpl.
    split; [|done]. by rewrite <- app_assoc.
  - eexists. split; [done|]. simpl. rewrite lookup_insert_eq, app_nil_r. done.
Qed.

(** ** A small world to run the functions in *)

Definition column_property (k : string) (pk : bool) : property :=
  {| key := k; kind := ColumnProperty [ {| primary_key := pk |} ] |}.
Definition relationship_property (k : string) : property :=
  {| key := k; kind := RelationshipProperty |}.

(** A mapped class before [make_class_dictable] is applied to it. *)
Definition plain_class (props : list property) : mapped_class :=
  {| iterate_properties := props;
     has_asdict := false;
     has_fromdict := false;
     dictalchemy_exclude := None;
     dictalchemy_exclude_underscore := None;
     dictalchemy_fromdict_allow_pk := None;
     dictalchemy_asdict_include := None;
     dictalchemy_fromdict_include := None |}.

Definition Employee : mapped_class :=
  make_class_dictable
    (plain_class [column_property "id" true; column_property "name" false;
                  column_property "_salary" false;
                  relationship_property "boss"; relationship_property "reports";
                  relationship_property "hq"])
    default_exclude default_exclude_underscore default_fromdict_allow_pk None None.

Definition Office : mapped_class :=
  make_class_dictable
    (plain_class [column_property "id" true; column_property "city" false])
    default_exclude default_exclude_underscore default_fromdict_allow_pk None None.

Definition new (c : mapped_class) (fields : list (string * value)) : instance :=
  {| cls := c; attrs := list_to_map fields |}.

(** Employee 0 leads employees 1 and 2; all sit in office 3.  List object 0
    is a caller's exclude list. *)
Definition world : state :=
  {| objs := list_to_map
       [(0, new Employee [("id", VInt 1); ("name", VStr "ann"); ("_salary", VInt 10);
                          ("boss", VNone); ("reports", VColl [VObj 1; VObj 2]);
                          ("hq", VObj 3)]);
        (1, new Employee [("id", VInt 2); ("name", VStr "bob"); ("_salary", VInt 20);
                          ("boss", VObj 0); ("reports", VColl []); ("hq", VObj 3)]);
        (2, new Employee [("id", VInt 3); ("name", VStr "cyd"); ("_salary", VInt 30);
                          ("boss", VObj 0); ("reports", VColl []); ("hq", VObj 3)]);
        (3, new Office [("id", VInt 7); ("city", VStr "oslo")])];
     lists := list_to_map [(0, ["name"])] |}.

Definition synonym_property (k name : string) : property :=
  {| key := k; kind := SynonymProperty name |}.

(** An account: [number] is a synonym of the primary key [id], and the class
    excludes [owner] by default. *)
Definition Account : mapped_class :=
  make_class_dictable
    (plain_class [column_property "id" true; column_property "owner" false;
                  column_property "_pin" false; synonym_property "number" "id"])
    (Some ["owner"]) default_exclude_underscore default_fromdict_allow_pk None None.

(** Account 0; list object 0 is a caller's exclude list. *)
Definition bank : state :=
  {| objs := list_to_map
       [(0, new Account [("id", VInt 1); ("owner", VStr "ann"); ("_pin", VInt 1234)])];
     lists := list_to_map [(0, ["number"])] |}.

(** Two classes of rooms on which one of the two functions was set
    directly: a vault has [asdict] only, a depot has [fromdict] only. *)
Definition Vault : mapped_class :=
  {| iterate_properties := [column_property "id" true; column_property "city" false];
     has_asdict := true;
     has_fromdict := false;
     dictalchemy_exclude := None;
     dictalchemy_exclude_underscore := None;
     dictalchemy_fromdict_allow_pk := None;
     dictalchemy_asdict_include := None;
     dictalchemy_fromdict_include := None |}.

Definition Depot : mapped_class :=
  {| iterate_properties := [column_property "id" true; column_property "city" false];
     has_asdict := false;
     has_fromdict := true;
     dictalchemy_exclude := None;
     dictalchemy_exclude_underscore := None;
     dictalchemy_fromdict_allow_pk := None;
     dictalchemy_asdict_include := None;
     dictalchemy_fromdict_include := None |}.

(** Employee 0 sits in vault 2, employee 1 in depot 3. *)
Definition archive : state :=
  {| objs := list_to_map
       [(0, new Employee [("id", VInt 1); ("name", VStr "ann"); ("_salary", VInt 10);
                          ("boss", VNone); ("reports", VColl []); ("hq", VObj 2)]);
        (1, new Employee [("id", VInt 2); ("name", VStr "bob"); ("_salary", VInt 20);
                          ("boss", VNone); ("reports", VColl []); ("hq", VObj 3)]);
        (2, new Vault [("id", VInt 7); ("city", VStr "oslo")]);
        (3, new Depot [("id", VInt 8); ("city", VStr "bergen")])];
     lists := ∅ |}.

Lemma Employee_keys_nonempty : keys_nonempty Employee.
Proof. repeat constructor; done. Qed.

(** The set of line 44-49, by its elements. *)
Lemma primary_key_elem c k :
  k ∈ get_primary_key_properties c
  ↔ ∃ p columns col,
      p ∈ iterate_properties c ∧ key p = k ∧ kind p = ColumnProperty columns
      ∧ col ∈ columns ∧ primary_key col = true.
Proof.
  unfold get_primary_key_properties.
  assert (∀ (kp : string) columns (acc : gset string),
            k ∈ foldl (λ pks col, if primary_key col then pks ∪ {[ kp ]} else pks)
                      acc columns
            ↔ k ∈ acc ∨ (k = kp ∧ ∃ col, col ∈ columns ∧ primary_key col = true))
    as Hinner.
  { intros kp columns. induction columns as [|col columns IH]; intros acc; simpl.
    - split; [auto|]. intros [?|(_ & col & []%elem_of_nil & _)]; done.
    - rewrite IH. destruct (primary_key col) eqn:Hpk.
      + rewrite elem_of_union, elem_of_singleton. split.
        * intros [[?| ->]|(-> & col' & ? & ?)]; [by left| |].
          -- right. split; [done|]. exists col. split; [left|done].
          -- right. split; [done|]. exists col'. split; [by right|done].
        * intros [?|(-> & col' & Hin & ?)]; [by left; left|].
          apply elem_of_cons in Hin as [->|Hin]; [left; by right|].
          right. split; [done|]. by exists col'.
      + split.
        * intros [?|(-> & col' & ? & ?)]; [by left|].
          right. split; [done|]. exists col'. split; [by right|done].
        * intros [?|(-> & col' & Hin & Hcol')]; [by left|].
          apply elem_of_cons in Hin as [->|Hin]; [congruence|].
          right. split; [done|]. by exists col'. }
  assert (∀ props (acc : gset string),
            k ∈ foldl (λ primary_keys p,
                         match kind p with
                         | ColumnProperty columns =>
                             foldl (λ pks col, if primary_key col
                                               then pks ∪ {[ key p ]} else pks)
                                   primary_keys columns
                         | _ => primary_keys
                         end) acc props
            ↔ k ∈ acc ∨ ∃ p columns col,
                  p ∈ props ∧ key p = k ∧ kind p = ColumnProperty columns
                  ∧ col ∈ columns ∧ primary_key col = true) as Houter.
  { induction props as [|p props IH]; intros acc; simpl.
    - split; [auto|]. intros [?|(p & ? & ? & []%elem_of_nil & _)]; done.
    - rewrite IH. split.
      + intros [Hacc|(p' & columns & col & ? & ? & ? & ? & ?)].
        * destruct (kind p) as [columns| |] eqn:Hkind; [|by left|by left].
          apply Hinner in Hacc as [?|(-> & col & ? & ?)]; [by left|].
          right. exists p, columns, col. repeat split; try done. left.
        * right. exists p', columns, col. repeat split; try done. by right.
      + intros [Hacc|(p' & columns & col & Hin & Hkey & Hkind & Hcol & Hpk)].
        * left. destruct (kind p); [|done|done]. apply Hinner. by left.
        * apply elem_of_cons in Hin as [->|Hin].
          -- left. rewrite Hkind. apply Hinner. right. split; [done|]. by exists col.
          -- right. by exists p', columns, col. }
  rewrite Houter. split; [|auto]. intros [?%not_elem_of_empty|?]; done.
Qed.

(** ** The caller's exclude list (lines 84-95 and 163-173) *)

Lemma bind_frames_after (R : relation state) `{!PreOrder R} {A B}
    (m : M A) (f : A → M B) st r st' :
  (∀ a, frames R (f a)) → bind m f st = (r, st') → R (m st).2 st'.
Proof.
  intros Hf. unfold bind. destruct (m st) as [[a|e|] st1]; simpl.
  - apply Hf.
  - by intros [= _ <-].
  - by intros [= _ <-].
Qed.

(** The names added on behalf of [exclude_pk]. *)
Definition added_pk (c : mapped_class) (exclude_pk : option bool) : list string :=
  match exclude_pk with
  | Some true => elements (get_primary_key_properties c)
  | _ => []
  end.

(** The caller's list after a call, in terms of the names that the
    resolution of the options adds. *)
Lemma caller_list_after_call model i id xs exclude_underscore st :
  objs st !! model = Some i →
  keys_nonempty (cls i) →
  lists st !! id = Some xs →
  xs ≠ [] →
  (∀ exclude_pk follow include r st',
     asdict model (Some id) exclude_underscore exclude_pk follow include st = (r, st') →
     ∃ more, lists st' !! id
             = Some (xs ++ added_exclude (cls i) exclude_underscore
                        ++ added_pk (cls i) exclude_pk ++ more))
  ∧ (∀ data allow_pk follow include r st',
       fromdict model data (Some id) exclude_underscore allow_pk follow include st
         = (r, st') →
       ∃ more, lists st' !! id
               = Some (xs ++ added_exclude (cls i) exclude_underscore ++ more)).
Proof.
  intros Hi Hne Hid Hxs.
  destruct (resolve_exclude_caller (cls i) id xs exclude_underscore st Hne Hid Hxs)
    as (st1 & Hres & Hid1 & Hobjs1).
  split.
  - intros exclude_pk follow include r st'. unfold asdict. simpl.
    unfold asdict_body. munfold. unfold bind at 1, class_of. rewrite Hi.
    unfold bind at 1. rewrite Hres.
    set (pk := match exclude_pk with Some true => _ | _ => _ end).
    assert (∃ st2, pk st1 = (Ok (Caller id), st2)
                   ∧ lists st2 !! id
                     = Some ((xs ++ added_exclude (cls i) exclude_underscore)
                               ++ added_pk (cls i) exclude_pk)) as (st2 & Hpk & Hid2).
    { unfold pk, added_pk. destruct exclude_pk as [[]|]; simpl.
      - eexists. split; [done|]. simpl. by rewrite lookup_insert_eq, Hid1.
      - exists st1. by rewrite app_nil_r.
      - exists st1. by rewrite app_nil_r. }
    intros Hrun. eapply (bind_frames_after lists_grow) in Hrun.
    + rewrite Hpk in Hrun. destruct (Hrun _ _ Hid2) as [more Hmore].
      exists more. by rewrite Hmore, <- !app_assoc.
    + intros ex. repeat (apply (frames_bind lists_grow); [|intros ?]); try frames_pure.
      * apply (frames_reads lists_grow), reads_contents.
      * apply (frames_reads lists_grow), reads_read_fields.
      * apply (frames_asdict_follow lists_grow). intros o' a'.
        apply (frames_call_asdict lists_grow). intros.
        apply (frames_asdict_fuel lists_grow), extend_lists_grow.
  - intros data allow_pk follow include r st'. unfold fromdict. simpl.
    unfold fromdict_body. munfold. unfold bind at 1, class_of. rewrite Hi.
    intros Hrun. eapply (bind_frames_after lists_grow) in Hrun.
    + rewrite Hres in Hrun. destruct (Hrun _ _ Hid1) as [more Hmore].
      exists more. by rewrite Hmore, <- !app_assoc.
    + intros ex. repeat (apply (frames_bind lists_grow); [|intros ?]).
      * apply (frames_reads lists_grow), reads_iteritems.
      * apply (frames_update_simple lists_grow), setattr_lists_grow.
      * apply (frames_fromdict_follow lists_grow). intros o' d' a'.
        apply (frames_call_fromdict lists_grow). intros ??????? ???.
        apply fromdict_fuel_lists_grow.
Qed.

Lemma NoDup_all_eq {A} (l : list A) (x : A) :
  NoDup l → x ∈ l → (∀ y, y ∈ l → y = x) → l = [x].
Proof.
  intros Hnd Hx Hall. destruct l as [|y l]; [by apply elem_of_nil in Hx|].
  rewrite (Hall y) by left. f_equal. destruct l as [|z l]; [done|].
  apply NoDup_cons in Hnd as [Hy _]. destruct Hy.
  rewrite (Hall y), <- (Hall z); [left|right; left|left].
Qed.

(** C10: a non-empty list passed as [exclude] is the list object the call
    extends: whatever the outcome of [asdict] or [fromdict], afterwards the
    caller's list holds its former elements, then the class's default
    exclude names ([dictalchemy_exclude], else the constant), then the
    underscore-prefixed keys of the mapper when [exclude_underscore]
    resolves true, then, for [asdict] with [exclude_pk = True], the
    primary-key names, each once: the keys of the column properties that
    have a column flagged as primary key (nested calls that were given the
    same list may have appended more after them). *)
Theorem exclude_list_extended_in_place model i id xs exclude_underscore st :
  objs st !! model = Some i →
  keys_nonempty (cls i) →
  lists st !! id = Some xs →
  xs ≠ [] →
  let defaults :=
    match dictalchemy_exclude (cls i) with
    | Some (Some names) => names
    | Some None => []
    | None => match default_exclude with Some names => names | None => [] end
    end in
  let underscore :=
    match exclude_underscore with
    | Some b => b
    | None => match dictalchemy_exclude_underscore (cls i) with
              | Some b => b
              | None => default_exclude_underscore
              end
    end in
  let underscored :=
    if underscore
    then filter (λ k, starts_with_underscore k = true) (key <$> iterate_properties (cls i))
    else [] in
  (∀ exclude_pk follow include r st',
     asdict model (Some id) exclude_underscore exclude_pk follow include st = (r, st') →
     ∃ pks more,
       lists st' !! id = Some (xs ++ defaults ++ underscored ++ pks ++ more)
       ∧ NoDup pks
       ∧ ∀ k, k ∈ pks
              ↔ exclude_pk = Some true
                ∧ ∃ p columns col,
                    p ∈ iterate_properties (cls i) ∧ key p = k
                    ∧ kind p = ColumnProperty columns
                    ∧ col ∈ columns ∧ primary_key col = true)
  ∧ (∀ data allow_pk follow include r st',
       fromdict model data (Some id) exclude_underscore allow_pk follow include st
         = (r, st') →
       ∃ more, lists st' !! id = Some (xs ++ defaults ++ underscored ++ more)).
Proof.
  intros Hi Hne Hid Hxs defaults underscore underscored.
  destruct (caller_list_after_call model i id xs exclude_underscore st Hi Hne Hid Hxs)
    as [Hasdict Hfromdict].
  assert (added_exclude (cls i) exclude_underscore = defaults ++ underscored) as Hadded.
  { unfold added_exclude, defaults, underscored, underscore, resolve_exclude_underscore,
      underscore_names, or_nil.
    destruct (dictalchemy_exclude (cls i)) as [[names|]|]; simpl;
      destruct exclude_underscore as [[]|]; simpl; try done;
      destruct (dictalchemy_exclude_underscore (cls i)) as [[]|]; done. }
  split.
  - intros exclude_pk follow include r st' Hrun.
    destruct (Hasdict _ _ _ _ _ Hrun) as [more Hmore].
    exists (added_pk (cls i) exclude_pk), more.
    split; [by rewrite Hmore, Hadded, <- !app_assoc|].
    unfold added_pk. destruct exclude_pk as [[]|].
    + split; [apply NoDup_elements|]. intros k.
      rewrite elem_of_elements, primary_key_elem. naive_solver.
    + split; [constructor|]. intros k. rewrite elem_of_nil. naive_solver.
    + split; [constructor|]. intros k. rewrite elem_of_nil. naive_solver.
  - intros data allow_pk follow include r st' Hrun.
    destruct (Hfromdict _ _ _ _ _ _ Hrun) as [more Hmore].
    exists more. by rewrite Hmore, Hadded, <- !app_assoc.
Qed.

Lemma exclude_list_extended_in_place_witness :
  (∃ more,
     lists (asdict 0 (Some 0) None (Some true) FollowNone None bank).2 !! 0
     = Some (["number"; "owner"; "_pin"; "id"] ++ more))
  ∧ (∃ more,
       lists (fromdict 0 (VDict []) (Some 0) None None FollowNone None bank).2 !! 0
       = Some (["number"; "owner"; "_pin"] ++ more)).
Proof.
  destruct (exclude_list_extended_in_place 0
              (new Account [("id", VInt 1); ("owner", VStr "ann"); ("_pin", VInt 1234)])
              0 ["number"] None bank) as [Hasdict Hfromdict].
  - vm_compute. reflexivity.
  - simpl. repeat constructor; done.
  - vm_compute. reflexivity.
  - done.
  - split.
    + destruct (Hasdict (Some true) FollowNone None _ _ (surjective_pairing _))
        as (pks & more & Hlist & Hnd & Hpks).
      assert (pks = ["id"]) as ->.
      { apply NoDup_all_eq; [done| |].
        - apply Hpks. split; [done|].
          exists (column_property "id" true), [ {| primary_key := true |} ],
            {| primary_key := true |}.
          repeat split; [left|left].
        - intros k (_ & p & columns & col & Hp & <- & Hkind & Hcol & Hpk)%Hpks.
          simpl in Hp.
          repeat (apply elem_of_cons in Hp as [->|Hp]; [simpl in *|]);
            try (by apply elem_of_nil in Hp); try done;
            injection Hkind as <-; apply list_elem_of_singleton in Hcol as ->; done. }
      exists more. exact Hlist.
    + destruct (Hfromdict (VDict []) None FollowNone None _ _ (surjective_pairing _))
        as (more & Hlist).
      exists more. exact Hlist.
Defined.

(** ** The mapping returned by asdict *)

Lemma getattr_Ok model k st v st' :
  getattr model k st = (Ok v, st') → attr_of st model k = Some v ∧ st' = st.
Proof. unfold getattr. destruct (attr_of st model k); by intros [= <- <-]. Qed.

(** The comprehension of lines 104-105 reads, in order, the keys that are
    not excluded. *)
Lemma read_fields_Ok model keys exclude st kvs st' :
  read_fields model keys exclude st = (Ok kvs, st') →
  st' = st
  ∧ kvs.*1 = filter (λ k, k ∉ exclude) keys
  ∧ Forall (λ kv, attr_of st model kv.1 = Some kv.2) kvs.
Proof.
  revert kvs. induction keys as [|k keys IH]; intros kvs; simpl.
  - by intros [= <- <-].
  - rewrite filter_cons. unfold mem. case_bool_decide as Hk.
    + rewrite decide_False by auto. apply IH.
    + rewrite decide_True by done. munfold.
      intros (v & st1 & [Hv ->]%getattr_Ok & (kvs' & st2 & Hrest & [= <- <-])%bind_Ok)%bind_Ok.
      destruct (IH _ Hrest) as (-> & Hkeys & Hvals).
      split; [done|]. split; [by rewrite fmap_cons, Hkeys|]. by constructor.
Qed.

Lemma read_fields_total model keys exclude st :
  (∀ k, k ∈ keys → k ∉ exclude → is_Some (attr_of st model k)) →
  ∃ kvs, read_fields model keys exclude st = (Ok kvs, st).
Proof.
  induction keys as [|k keys IH]; intros Hattrs; simpl; [by eexists|].
  destruct IH as [kvs Hkvs]. { intros k' Hk'. apply Hattrs. by right. }
  unfold mem. case_bool_decide as Hk; [by eexists|].
  destruct (Hattrs k) as [v Hv]; [left|done|].
  munfold. unfold bind, getattr. rewrite Hv, Hkvs. by eexists.
Qed.

Section asdict_follow_facts.
Variable rel_asdict : nat → args → M value.

(** The loop over [follow] only writes under keys of [follow]. *)
Lemma asdict_follow_get model relations follow data st d st' k :
  asdict_follow rel_asdict model relations follow data st = (Ok d, st') →
  k ∉ follow.*1 →
  dict_get k d = dict_get k data.
Proof.
  revert data st. induction follow as [|[k0 a] follow IH]; intros data st; simpl.
  - by intros [= <- <-].
  - destruct (negb (mem k0 relations)); [done|]. munfold.
    intros (rel & st1 & _ & (h & st2 & _ & (data' & st3 & Hstep & Hrest)%bind_Ok)%bind_Ok)%bind_Ok.
    intros [Hne Hk]%not_elem_of_cons. rewrite (IH _ _ Hrest Hk).
    destruct h as [o|].
    + apply bind_Ok in Hstep as (v & st4 & _ & [= <- <-]).
      by apply dict_get_set_ne.
    + destruct rel; try (by injection Hstep as <- <-).
      apply bind_Ok in Hstep as (v & st4 & _ & [= <- <-]).
      by apply dict_get_set_ne.
Qed.


(** What a run of [asdict] that returns went through. *)
Lemma asdict_body_Ok model exclude exclude_underscore exclude_pk follow include
    st r st' :
  asdict_body rel_asdict model exclude exclude_underscore exclude_pk follow include st
    = (Ok r, st') →
  ∃ i st1 kvs d,
    objs st !! model = Some i
    ∧ objs st1 = objs st
    ∧ read_fields model
        (get_column_keys (cls i) ++ get_synonym_keys (cls i)
           ++ or_nil include ++ or_nil (dictalchemy_asdict_include (cls i)))
        (given_exclude st exclude ++ added_exclude (cls i) exclude_underscore
           ++ added_pk (cls i) exclude_pk) st1 = (Ok kvs, st1)
    ∧ asdict_follow rel_asdict model (get_relation_keys (cls i))
        (normalize_follow follow) (dict_of kvs) st1 = (Ok d, st')
    ∧ r = VDict d.
Proof.
  unfold asdict_body. munfold.
  intros (c & st0 & Hc & Hrun)%bind_Ok.
  unfold class_of in Hc. destruct (objs st !! model) as [i|] eqn:Hi; [|done].
  injection Hc as <- <-.
  apply bind_Ok in Hrun as (ex1 & st1 & Hres & Hrun).
  apply resolve_exclude_Ok in Hres as [Hex1 Hobjs1].
  apply bind_Ok in Hrun as (ex2 & st2 & Hpk & Hrun).
  assert (list_of ex2 st2 = list_of ex1 st1 ++ added_pk (cls i) exclude_pk
          ∧ objs st2 = objs st1) as [Hex2 Hobjs2].
  { unfold added_pk. destruct exclude_pk as [[]|];
      try (injection Hpk as <- <-; by rewrite app_nil_r).
    destruct (extend_list_of ex1 (elements (get_primary_key_properties (cls i))) st1)
      as (? & ? & Hext & ? & ?). rewrite Hext in Hpk. by injection Hpk as <- <-. }
  apply bind_Ok in Hrun as (names & st3 & Hnames & Hrun).
  assert (names = list_of ex2 st2 ∧ st3 = st2) as [-> ->].
  { destruct ex2; by injection Hnames as <- <-. }
  apply bind_Ok in Hrun as (kvs & st4 & Hread & Hrun).
  pose proof (read_fields_Ok _ _ _ _ _ _ Hread) as (-> & _).
  apply bind_Ok in Hrun as (d & st5 & Hfollow & [= <- <-]).
  exists i, st2, kvs, d. rewrite Hex2, Hex1, <- app_assoc in Hread.
  split; [done|]. split; [congruence|]. done.
Qed.
End asdict_follow_facts.

(** The asdict half of C1 and C2: a name in the resolved exclude list, and
    not a key of [follow], is no key of the returned mapping, whether or not
    it is also in the include list. *)
Lemma asdict_excluded_absent model i exclude exclude_underscore exclude_pk follow
    include st d st' k :
  objs st !! model = Some i →
  asdict model exclude exclude_underscore exclude_pk follow include st
    = (Ok (VDict d), st') →
  k ∈ given_exclude st exclude ++ added_exclude (cls i) exclude_underscore
        ++ added_pk (cls i) exclude_pk →
  k ∉ (normalize_follow follow).*1 →
  k ∉ d.*1.
Proof.
  intros Hi Hrun Hk Hfollow. unfold asdict in Hrun. simpl in Hrun.
  apply asdict_body_Ok in Hrun as (i' & st1 & kvs & d' & Hi' & _ & Hread & Hloop & [= <-]).
  assert (i' = i) as -> by congruence.
  apply dict_get_None. rewrite (asdict_follow_get _ _ _ _ _ _ _ _ _ Hloop Hfollow).
  apply dict_get_None. rewrite dict_of_keys.
  apply read_fields_Ok in Hread as (_ & -> & _).
  rewrite list_elem_of_filter. tauto.
Qed.

(** The other direction, used for the second half of C2: a column, synonym
    or included name that no exclusion rule covers is a key of the returned
    mapping, and, unless [follow] names it, holds the attribute's value. *)
Lemma asdict_field_present model i exclude exclude_underscore exclude_pk follow
    include st d st' k :
  objs st !! model = Some i →
  asdict model exclude exclude_underscore exclude_pk follow include st
    = (Ok (VDict d), st') →
  k ∈ get_column_keys (cls i) ++ get_synonym_keys (cls i)
        ++ or_nil include ++ or_nil (dictalchemy_asdict_include (cls i)) →
  k ∉ given_exclude st exclude ++ added_exclude (cls i) exclude_underscore
        ++ added_pk (cls i) exclude_pk →
  k ∉ (normalize_follow follow).*1 →
  ∃ v, dict_get k d = Some v ∧ attr_of st model k = Some v.
Proof.
  intros Hi Hrun Hk Hex Hfollow. unfold asdict in Hrun. simpl in Hrun.
  apply asdict_body_Ok in Hrun as (i' & st1 & kvs & d' & Hi' & Hobjs & Hread & Hloop & [= <-]).
  assert (i' = i) as -> by congruence.
  rewrite (asdict_follow_get _ _ _ _ _ _ _ _ _ Hloop Hfollow).
  apply read_fields_Ok in Hread as (_ & Hkeys & Hvals).
  assert (k ∈ (dict_of kvs).*1) as Hin.
  { rewrite dict_of_keys, Hkeys, list_elem_of_filter. done. }
  destruct (dict_get k (dict_of kvs)) as [v|] eqn:Hget.
  - exists v. split; [done|].
    apply dict_get_Some_elem, dict_of_items in Hget.
    rewrite Forall_forall in Hvals. specialize (Hvals _ Hget). simpl in Hvals.
    unfold attr_of in *. by rewrite <- Hobjs.
  - by apply dict_get_None in Hget.
Qed.

(** X4: without [follow], [asdict] returns a mapping as soon as the instance
    has the attributes it is asked for. *)
Lemma asdict_returns model i exclude exclude_underscore exclude_pk include st :
  objs st !! model = Some i →
  keys_nonempty (cls i) →
  (∀ k, k ∈ get_column_keys (cls i) ++ get_synonym_keys (cls i)
              ++ or_nil include ++ or_nil (dictalchemy_asdict_include (cls i)) →
        is_Some (attr_of st model k)) →
  ∃ d st', asdict model exclude exclude_underscore exclude_pk FollowNone include st
           = (Ok (VDict d), st').
Proof.
  intros Hi Hne Hattrs. unfold asdict. simpl. unfold asdict_body. munfold.
  unfold bind at 1, class_of. rewrite Hi.
  destruct (resolve_exclude_total (cls i) exclude exclude_underscore st Hne)
    as (ex & st1 & Hres).
  pose proof (resolve_exclude_Ok _ _ _ _ _ _ Hres) as [_ Hobjs1].
  unfold bind at 1. rewrite Hres.
  set (pk := match exclude_pk with Some true => _ | _ => _ end).
  assert (∃ ex2 st2, pk st1 = (Ok ex2, st2) ∧ objs st2 = objs st1)
    as (ex2 & st2 & Hpk & Hobjs2).
  { unfold pk. destruct exclude_pk as [[]|]; try by (exists ex, st1).
    destruct (extend_list_of ex (elements (get_primary_key_properties (cls i))) st1)
      as (ex2 & st2 & ? & _ & ?). by exists ex2, st2. }
  unfold bind at 1. rewrite Hpk.
  unfold bind at 1.
  assert (contents ex2 st2 = (Ok (list_of ex2 st2), st2)) as -> by (by destruct ex2).
  destruct (read_fields_total model
              (get_column_keys (cls i) ++ get_synonym_keys (cls i)
                 ++ or_nil include ++ or_nil (dictalchemy_asdict_include (cls i)))
              (list_of ex2 st2) st2) as [kvs Hkvs].
  { intros k Hk _. specialize (Hattrs k Hk). unfold attr_of in *.
    by rewrite Hobjs2, Hobjs1. }
  unfold bind at 1. rewrite Hkvs. by do 2 eexists.
Qed.

(** ** Synonyms *)

Lemma target_not_synonym c k :
  synonym_of (iterate_properties c) k = None → target c k = Some k.
Proof. intros Hk. unfold target. destruct (length _); simpl; by rewrite Hk. Qed.

Lemma synonym_of_key props k name :
  synonym_of props k = Some name →
  ∃ p, p ∈ props ∧ key p = k ∧ kind p = SynonymProperty name.
Proof.
  induction props as [|p props IH]; simpl; [done|]. case_decide as Hk.
  - destruct (kind p) eqn:Hkind; try done. intros [= ->].
    exists p. split; [left|done].
  - intros (p' & ? & ?)%IH. exists p'. split; [by right|done].
Qed.

Lemma synonym_of_not_key props k :
  k ∉ key <$> props → synonym_of props k = None.
Proof.
  intros Hk. destruct (synonym_of props k) as [name|] eqn:Hs; [|done].
  apply synonym_of_key in Hs as (p & Hp & <- & _).
  destruct Hk. by apply list_elem_of_fmap_2.
Qed.

(** The name reached from [k] after [n] synonyms in a row, if there are
    that many. *)
Fixpoint hops (n : nat) (props : list property) (k : string) : option string :=
  match n with
  | 0 => Some k
  | S n' => name ← synonym_of props k; hops n' props name
  end.

Lemma hops_add a b props k :
  hops (a + b) props k = x ← hops a props k; hops b props x.
Proof.
  revert k. induction a as [|a IH]; intros k; simpl; [done|].
  destruct (synonym_of props k); simpl; auto.
Qed.

Lemma hops_le n m props k :
  (n ≤ m)%nat → is_Some (hops m props k) → is_Some (hops n props k).
Proof.
  intros Hle. replace m with (n + (m - n))%nat by lia. rewrite hops_add.
  destruct (hops n props k); simpl; [eauto|]. by intros [? ?].
Qed.

Lemma target_fuel_None n c k :
  target_fuel n c k = None ↔ is_Some (hops (S n) (iterate_properties c) k).
Proof.
  revert k. induction n as [|n IH]; intros k; simpl.
  - destruct (synonym_of _ k); simpl; split; eauto; try done; by intros [? ?].
  - destruct (synonym_of _ k) as [name|]; simpl; [apply IH|].
    split; [done|]. by intros [? ?].
Qed.

(** Among more names than a list holds, all taken from the list, two are
    the same. *)
Lemma repeat_within n (f : nat → string) (univ : list string) :
  (length univ ≤ n)%nat →
  (∀ j, (j ≤ n)%nat → f j ∈ univ) →
  ∃ a b, (a < b ≤ n)%nat ∧ f a = f b.
Proof.
  revert f univ. induction n as [|n IH]; intros f univ Hlen Hin.
  { destruct univ; [|simpl in Hlen; lia]. specialize (Hin 0%nat). 
    by apply elem_of_nil in Hin. }
  destruct (decide (Exists (λ b, f b = f 0%nat) (seq 1 (S n)))) as [Hex|Hnex].
  - apply Exists_exists in Hex as (b & [??]%elem_of_seq & Hb).
    exists 0%nat, b. split; [lia|done].
  - destruct (IH (λ j, f (S j)) (filter (λ x, x ≠ f 0%nat) univ)) as (a & b & ? & Hab).
    + assert (length (filter (λ x, x ≠ f 0%nat) univ) < length univ)%nat; [|lia].
      apply (length_filter_lt _ _ (f 0%nat)); [apply Hin; lia|]. by intros ?.
    + intros j Hj. apply list_elem_of_filter. split; [|apply Hin; lia].
      intros Heq. apply Hnex, Exists_exists. exists (S j).
      split; [apply elem_of_seq; lia|done].
    + exists (S a), (S b). split; [lia|done].
Qed.

(** More fuel never turns a failed access into a successful one: after as
    many hops as the mapper has properties the chain has passed through
    one synonym twice, and goes round for ever. *)
Lemma target_None_forever c k :
  target c k = None → ∀ n, target_fuel n c k = None.
Proof.
  unfold target. set (props := iterate_properties c). intros Hnone.
  apply target_fuel_None in Hnone. fold props in Hnone.
  assert (∀ j, (j ≤ length props)%nat →
               default "" (hops j props k) ∈ key <$> props) as Hkeys.
  { intros j Hj. assert (is_Some (hops (j + 1) props k)) as [y Hy].
    { apply (hops_le _ (S (length props))); [lia|done]. }
    rewrite hops_add in Hy. destruct (hops j props k) as [x|]; [|done]. simpl in *.
    destruct (synonym_of props x) as [name|] eqn:Hx; [|done].
    apply synonym_of_key in Hx as (p & Hp & <- & _). by apply list_elem_of_fmap_2. }
  destruct (repeat_within (length props) (λ j, default "" (hops j props k))
              (key <$> props)) as (a & b & Hab & Heq).
  { by rewrite length_fmap. }
  { done. }
  simpl in Heq.
  assert (is_Some (hops b props k)) as [x Hb].
  { apply (hops_le _ (S (length props))); [lia|done]. }
  assert (hops a props k = Some x) as Ha.
  { assert (is_Some (hops a props k)) as [y Hy].
    { apply (hops_le _ (S (length props))); [lia|done]. }
    rewrite Hy, Hb in Heq. simpl in Heq. by subst. }
  assert (∀ n, is_Some (hops n props k)) as Hall.
  { intros n. induction (lt_wf n) as [n _ IH].
    destruct (decide (n ≤ b)%nat) as [Hle|Hgt].
    - apply (hops_le _ b); [done|by eexists].
    - replace n with (b + (n - b))%nat by lia. rewrite hops_add, Hb. simpl.
      assert (is_Some (hops (a + (n - b)) props k)) as Hrec by (apply IH; lia).
      by rewrite hops_add, Ha in Hrec. }
  intros n. apply target_fuel_None. apply Hall.
Qed.

(** Nor does more fuel change the attribute that an access ends at. *)
Lemma target_fuel_more n m c k t :
  target_fuel n c k = Some t → (n ≤ m)%nat → target_fuel m c k = Some t.
Proof.
  revert m k. induction n as [|n IH]; intros m k; simpl.
  - destruct (synonym_of _ k) eqn:Hk; [done|]. intros [= <-] _.
    destruct m; simpl; by rewrite Hk.
  - destruct (synonym_of _ k) eqn:Hk.
    + intros Ht Hle. destruct m as [|m]; [lia|]. simpl. rewrite Hk. apply IH; [done|lia].
    + intros [= <-] _. destruct m; simpl; by rewrite Hk.
Qed.

(** No chain of synonyms of the class runs in a circle: every access ends at
    an attribute name. *)
Definition synonyms_resolve (c : mapped_class) : Prop :=
  Forall (λ p, is_Some (target c (key p))) (iterate_properties c).

Lemma target_total c k : synonyms_resolve c → is_Some (target c k).
Proof.
  intros Hc. destruct (synonym_of (iterate_properties c) k) as [name|] eqn:Hk.
  - apply synonym_of_key in Hk as (p & Hp & <- & _).
    unfold synonyms_resolve in Hc. rewrite Forall_forall in Hc. by apply Hc.
  - rewrite target_not_synonym; eauto.
Qed.

(** ** The simple updates of fromdict (lines 188-194) *)

(** The attribute table after the assignments of [items], in order: the
    value of an item whose key is among [fields] is stored in the attribute
    that its key ends at. *)
Definition assign (c : mapped_class) (fields : list string)
    (items : list (string * value)) (m : gmap string value) : gmap string value :=
  foldl (λ m kv, if mem kv.1 fields
                 then match target c kv.1 with
                      | Some t => <[t := kv.2]> m
                      | None => m
                      end
                 else m) m items.

(** The store in which instance [model], so far [i], has the attributes [m]. *)
Definition set_attrs (st : state) (model : nat) (i : instance)
    (m : gmap string value) : state :=
  {| objs := <[model := {| cls := cls i; attrs := m |}]> (objs st);
     lists := lists st |}.

Lemma set_attrs_id st model i :
  objs st !! model = Some i → set_attrs st model i (attrs i) = st.
Proof.
  intros Hi. destruct st as [os ls], i as [c m]. unfold set_attrs. simpl in *.
  f_equal. by apply insert_id.
Qed.

Lemma attr_of_set_attrs st model i m k :
  attr_of (set_attrs st model i m) model k = t ← target (cls i) k; m !! t.
Proof. unfold attr_of, set_attrs. simpl. by rewrite lookup_insert_eq. Qed.

Lemma attr_of_live st model i k :
  objs st !! model = Some i → attr_of st model k = t ← target (cls i) k; attrs i !! t.
Proof. intros Hi. unfold attr_of. by rewrite Hi. Qed.

Lemma assign_cons c fields k v items m :
  assign c fields ((k, v) :: items) m
  = assign c fields items
      (if mem k fields
       then match target c k with Some t => <[t := v]> m | None => m end
       else m).
Proof. done. Qed.

(** An attribute that no assigned name ends at keeps its value. *)
Lemma assign_not_assigned c fields items m t :
  (∀ k, k ∈ items.*1 → k ∈ fields → target c k ≠ Some t) →
  assign c fields items m !! t = m !! t.
Proof.
  revert m. induction items as [|[k0 v0] items IH]; intros m Hother; [done|].
  rewrite assign_cons, IH.
  - unfold mem. case_bool_decide as Hf; [|done].
    destruct (target c k0) as [t0|] eqn:Ht0; [|done].
    rewrite lookup_insert_ne; [done|]. intros ->.
    apply (Hother k0); [left|done|done].
  - intros k Hk. apply Hother. by right.
Qed.

(** An attribute holds the value assigned under a name that ends at it,
    when no other assigned name ends there. *)
Lemma assign_assigned c fields items m k v t :
  NoDup items.*1 → (k, v) ∈ items → k ∈ fields → target c k = Some t →
  (∀ k', k' ∈ items.*1 → k' ≠ k → k' ∈ fields → target c k' ≠ Some t) →
  assign c fields items m !! t = Some v.
Proof.
  revert m. induction items as [|[k0 v0] items IH]; intros m.
  { by intros _ ?%elem_of_nil. }
  rewrite fmap_cons, assign_cons.
  intros [Hk0 Hnd]%NoDup_cons [[= -> ->]|Hin]%elem_of_cons Hf Ht Hother.
  - rewrite assign_not_assigned.
    + unfold mem. rewrite bool_decide_eq_true_2, Ht by done.
      by rewrite lookup_insert_eq.
    + intros k' Hk'. apply Hother; [by right|]. intros ->. done.
  - apply IH; try done. intros k' Hk'. apply Hother. by right.
Qed.

Lemma assign_same c fields items m :
  Forall (λ kv, ∀ t, target c kv.1 = Some t → m !! t = Some kv.2) items →
  assign c fields items m = m.
Proof.
  induction 1 as [|[k v] items Hkv _ IH]; [done|].
  rewrite assign_cons. destruct (mem k fields); [|done]. simpl in Hkv.
  destruct (target c k) as [t|] eqn:Ht; [|done]. rewrite insert_id; auto.
Qed.

(** The loop applies a prefix of the items and stops, with the
    primary-key protection error, at the first primary key it is not
    allowed to set. *)
Lemma update_simple_run model allow_pk primary_keys fields items st i :
  objs st !! model = Some i →
  Forall (λ kv, kv.1 ∈ fields → is_Some (target (cls i) kv.1)) items →
  ∃ applied rest,
    items = applied ++ rest
    ∧ Forall (λ kv, allow_pk = true ∨ kv.1 ∉ primary_keys) applied
    ∧ match rest with
      | [] => True
      | (k, _) :: _ => allow_pk = false ∧ k ∈ primary_keys
      end
    ∧ update_simple model allow_pk primary_keys fields items st
      = (match rest with [] => Ok () | _ => Raise Exception end,
         set_attrs st model i (assign (cls i) fields applied (attrs i))).
Proof.
  revert st i. induction items as [|[k v] items IH]; intros st i Hi Hres; simpl.
  { exists [], []. rewrite set_attrs_id by done. by repeat split. }
  apply Forall_cons in Hres as [Ht Hres]. simpl in Ht.
  destruct (negb allow_pk && bool_decide (k ∈ primary_keys)) eqn:Hguard.
  { apply andb_true_iff in Hguard as [Hallow Hk%bool_decide_eq_true].
    exists [], ((k, v) :: items). rewrite set_attrs_id by done.
    split; [done|]. split; [constructor|]. split; [|done].
    by destruct allow_pk. }
  assert (allow_pk = true ∨ k ∉ primary_keys) as Hok.
  { apply andb_false_iff in Hguard as [Ha|Hk%bool_decide_eq_false]; [|by right].
    left. by destruct allow_pk. }
  munfold. unfold bind at 1.
  assert (∃ i1 st1, (if mem k fields then setattr model k v else ret ()) st = (Ok (), st1)
                    ∧ objs st1 !! model = Some i1
                    ∧ cls i1 = cls i
                    ∧ attrs i1 = assign (cls i) fields [(k, v)] (attrs i)
                    ∧ ∀ m, set_attrs st1 model i1 m = set_attrs st model i m)
    as (i1 & st1 & -> & Hi1 & Hcls & Hattrs & Hset).
  { unfold assign, mem. simpl. destruct (decide (k ∈ fields)) as [Hf|Hf];
      [rewrite !bool_decide_eq_true_2 by done|rewrite !bool_decide_eq_false_2 by done].
    - destruct (Ht Hf) as [t Ht']. unfold setattr. rewrite Hi, Ht'.
      do 2 eexists. split; [done|]. simpl.
      rewrite lookup_insert_eq. split; [done|]. split; [done|]. split; [done|].
      intros m. unfold set_attrs. simpl. by rewrite insert_insert_eq.
    - by exists i, st. }
  destruct (IH st1 i1 Hi1) as (applied & rest & -> & Happlied & Hrest & ->).
  { by rewrite Hcls. }
  exists ((k, v) :: applied), rest. split; [done|]. split; [by constructor|].
  split; [done|]. by rewrite Hset, Hattrs, Hcls.
Qed.

Lemma fromdict_follow_skip rel_fromdict model relations items follow st :
  (∀ k, k ∈ follow.*1 → k ∉ items.*1) →
  fromdict_follow rel_fromdict model relations items follow st = (Ok (), st).
Proof.
  induction follow as [|[k a] follow IH]; intros Hskip; simpl; [done|].
  rewrite (proj2 (dict_get_None k items)).
  - apply IH. intros k' Hk'. apply Hskip. by right.
  - apply Hskip. left.
Qed.

(** Every primary-key property is a column property. *)
Lemma primary_key_is_column c k :
  k ∈ get_primary_key_properties c → k ∈ get_column_keys c.
Proof.
  unfold get_primary_key_properties, get_column_keys.
  assert (∀ props (acc : gset string),
            k ∈ foldl (λ primary_keys p,
                         match kind p with
                         | ColumnProperty columns =>
                             foldl (λ pks col, if primary_key col
                                               then pks ∪ {[ key p ]} else pks)
                                   primary_keys columns
                         | _ => primary_keys
                         end) acc props →
            k ∈ acc ∨ k ∈ key <$> filter (λ p, is_column p = true) props) as Hgen.
  { induction props as [|p props IH]; intros acc Hk; simpl in Hk; [auto|].
    rewrite filter_cons. apply IH in Hk as [Hacc|Hin].
    - destruct (kind p) as [columns| |] eqn:Hkind; [|auto|auto].
      assert (is_column p = true) as Hcol by (unfold is_column; by rewrite Hkind).
      rewrite decide_True by done.
      assert (k ∈ acc ∨ k = key p) as [? | ->]; [|auto|right; left].
      clear -Hacc. revert acc Hacc.
      induction columns as [|col columns IHc]; intros acc; simpl; [auto|].
      intros [Hin|?]%IHc; [|auto]. destruct (primary_key col); set_solver.
    - right. case_decide; [right|]; done. }
  intros [Hin|Hin]%Hgen; [set_solver|done].
Qed.

(** A run of [fromdict] on a dict: after the resolution of its options it
    applies a prefix of the items; if it stopped early the call raises the
    primary-key protection error there, else it goes on to the loop over
    [follow]. *)
Lemma fromdict_run model i items exclude exclude_underscore allow_pk follow include st :
  objs st !! model = Some i →
  keys_nonempty (cls i) →
  let fields := get_column_keys (cls i) ++ get_synonym_keys (cls i)
                  ++ or_nil include ++ or_nil (dictalchemy_fromdict_include (cls i)) in
  Forall (λ kv, kv.1 ∈ fields → is_Some (target (cls i) kv.1)) items →
  ∃ st1 applied rest,
    objs st1 = objs st
    ∧ lists_grow st st1
    ∧ items = applied ++ rest
    ∧ Forall (λ kv, resolve_allow_pk (cls i) allow_pk = true
                    ∨ kv.1 ∉ get_primary_key_properties (cls i)) applied
    ∧ match rest with
      | [] => True
      | (k, _) :: _ => resolve_allow_pk (cls i) allow_pk = false
                       ∧ k ∈ get_primary_key_properties (cls i)
      end
    ∧ fromdict model (VDict items) exclude exclude_underscore allow_pk follow include st
      = match rest with
        | [] => fromdict_follow (call_fromdict (fromdict_fuel (depth_follow follow)))
                  model (get_relation_keys (cls i)) items (normalize_follow follow)
                  (set_attrs st1 model i (assign (cls i) fields applied (attrs i)))
        | _ => (Raise Exception,
                set_attrs st1 model i (assign (cls i) fields applied (attrs i)))
        end.
Proof.
  intros Hi Hne fields Hres0.
  destruct (resolve_exclude_total (cls i) exclude exclude_underscore st Hne)
    as (ex & st1 & Hres).
  pose proof (resolve_exclude_Ok _ _ _ _ _ _ Hres) as [_ Hobjs1].
  assert (objs st1 !! model = Some i) as Hi1 by (by rewrite Hobjs1).
  destruct (update_simple_run model (resolve_allow_pk (cls i) allow_pk)
              (get_primary_key_properties (cls i)) fields items st1 i Hi1 Hres0)
    as (applied & rest & Hitems & Happlied & Hrest & Hrun).
  exists st1, applied, rest. split; [done|]. split.
  { eapply (frames_resolve_exclude lists_grow), Hres. apply extend_lists_grow. }
  split; [done|]. split; [done|]. split; [done|].
  unfold fromdict. simpl. unfold fromdict_body. munfold.
  unfold bind at 1, class_of. rewrite Hi.
  unfold bind at 1. rewrite Hres.
  unfold bind at 1, iteritems, ret.
  unfold bind at 1. fold fields. rewrite Hrun. by destruct rest.
Qed.

(** ** Primary-key protection *)

(** C3 fails as stated, at account 0 of [bank], whose primary key [id] has
    the synonym [number].  With [allow_pk] false and [number] ahead of [id]
    in [data], the protection error is raised when [id] has already been
    changed through the synonym.  With [allow_pk] true the call does not
    succeed when a key of [follow] that is no relationship is a key of
    [data], and [id] does not end with [data["id"]] when [number] comes
    after [id] in [data]. *)
Lemma fromdict_primary_key_changed_or_raises :
  "id" ∈ get_primary_key_properties Account
  ∧ attr_of bank 0 "id" = Some (VInt 1)
  ∧ (fromdict 0 (VDict [("number", VInt 9); ("id", VInt 5)]) None None None FollowNone
       None bank).1 = Raise Exception
  ∧ attr_of (fromdict 0 (VDict [("number", VInt 9); ("id", VInt 5)]) None None None
               FollowNone None bank).2 0 "id" = Some (VInt 9)
  ∧ (fromdict 0 (VDict [("id", VInt 5); ("owner", VStr "bob")]) None None (Some true)
       (FollowMap [("owner", no_kwargs)]) None bank).1 = Raise ValueError
  ∧ (fromdict 0 (VDict [("id", VInt 5); ("number", VInt 9)]) None None (Some true)
       FollowNone None bank).1 = Ok ()
  ∧ attr_of (fromdict 0 (VDict [("id", VInt 5); ("number", VInt 9)]) None None
               (Some true) FollowNone None bank).2 0 "id" = Some (VInt 9).
Proof.
  split; [vm_compute; set_solver|].
  repeat split; vm_compute; reflexivity.
Qed.

(** C3, as amended: [data] holds the primary-key name [k], and no chain of
    synonyms of the class runs in a circle.  When [allow_pk] resolves false
    the call raises the protection error, whatever else it was given, and
    when it does every primary-key attribute that [data] holds no other
    name for (no key that is not itself a primary key ends at it) is as
    before.  When [allow_pk] resolves true, no key of [follow] is a key of
    [data] and [data] holds no other name for the attribute of [k], the same
    call returns and the attribute [k] holds [data[k]]. *)
Theorem fromdict_primary_key_protection model i items k v exclude exclude_underscore
    follow include st :
  objs st !! model = Some i →
  keys_nonempty (cls i) →
  synonyms_resolve (cls i) →
  NoDup items.*1 →
  (k, v) ∈ items →
  k ∈ get_primary_key_properties (cls i) →
  (∀ allow_pk, resolve_allow_pk (cls i) allow_pk = false →
     ∃ st', fromdict model (VDict items) exclude exclude_underscore allow_pk follow
              include st = (Raise Exception, st')
            ∧ ∀ k', k' ∈ get_primary_key_properties (cls i) →
                    (∀ k'', k'' ∈ items.*1 →
                            k'' ∉ get_primary_key_properties (cls i) →
                            target (cls i) k'' ≠ target (cls i) k') →
                    attr_of st' model k' = attr_of st model k')
  ∧ (∀ allow_pk, resolve_allow_pk (cls i) allow_pk = true →
       (∀ f, f ∈ (normalize_follow follow).*1 → f ∉ items.*1) →
       (∀ k', k' ∈ items.*1 → k' ≠ k → target (cls i) k' ≠ target (cls i) k) →
       ∃ st', fromdict model (VDict items) exclude exclude_underscore allow_pk follow
                include st = (Ok (), st')
              ∧ attr_of st' model k = Some v).
Proof.
  intros Hi Hne Hsyn Hnd Hkv Hpk.
  assert (∀ fields : list string,
            Forall (λ kv, kv.1 ∈ fields → is_Some (target (cls i) kv.1)) items)
    as Hres.
  { intros fields. apply Forall_forall. intros kv _ _. by apply target_total. }
  split.
  - intros allow_pk Hallow.
    destruct (fromdict_run model i items exclude exclude_underscore allow_pk follow
                include st Hi Hne (Hres _))
      as (st1 & applied & rest & Hobjs & _ & Hitems & Happlied & Hrest & ->).
    destruct rest as [|[k0 v0] rest].
    { exfalso. rewrite app_nil_r in Hitems. subst applied.
      rewrite Forall_forall in Happlied. destruct (Happlied _ Hkv); [congruence|done]. }
    eexists. split; [done|]. intros k' Hk' Hnames.
    rewrite attr_of_set_attrs, (attr_of_live _ _ _ _ Hi).
    destruct (target (cls i) k') as [t|] eqn:Ht; [|done]. simpl.
    apply assign_not_assigned. intros k1 ([k2 v2] & -> & Hin)%list_elem_of_fmap _ Hk1.
    simpl in Hk1. apply (Hnames k2); [| |congruence].
    + rewrite Hitems, fmap_app. apply elem_of_app. left.
      by apply (list_elem_of_fmap_2 fst _ (k2, v2)).
    + rewrite Forall_forall in Happlied. destruct (Happlied _ Hin); [congruence|done].
  - intros allow_pk Hallow Hfollow Hnames.
    destruct (fromdict_run model i items exclude exclude_underscore allow_pk follow
                include st Hi Hne (Hres _))
      as (st1 & applied & rest & Hobjs & _ & Hitems & Happlied & Hrest & ->).
    destruct rest as [|[k0 v0] rest]; [|destruct Hrest; congruence].
    rewrite app_nil_r in Hitems. subst applied.
    rewrite fromdict_follow_skip by done.
    eexists. split; [done|].
    rewrite attr_of_set_attrs. destruct (target_total (cls i) k Hsyn) as [t Ht].
    rewrite Ht. simpl. apply (assign_assigned _ _ _ _ k v t); try done.
    + apply elem_of_app. left. by apply primary_key_is_column.
    + intros k' Hk' Hne' _ Hk't. apply (Hnames k' Hk' Hne'). congruence.
Qed.

Lemma fromdict_primary_key_protection_witness :
  (∃ st', fromdict 0 (VDict [("owner", VStr "zoe"); ("id", VInt 5)]) None None None
            (FollowSeq ["number"]) None bank = (Raise Exception, st')
          ∧ attr_of st' 0 "id" = attr_of bank 0 "id"
          ∧ attr_of st' 0 "number" = Some (VInt 1))
  ∧ (∃ st', fromdict 0 (VDict [("owner", VStr "zoe"); ("id", VInt 5)]) None None
              (Some true) (FollowSeq ["number"]) None bank = (Ok (), st')
            ∧ attr_of st' 0 "id" = Some (VInt 5)
            ∧ attr_of st' 0 "number" = Some (VInt 5)).
Proof.
  destruct (fromdict_primary_key_protection 0
              (new Account [("id", VInt 1); ("owner", VStr "ann"); ("_pin", VInt 1234)])
              [("owner", VStr "zoe"); ("id", VInt 5)] "id" (VInt 5)
              None None (FollowSeq ["number"]) None bank) as [Hfalse Htrue].
  - vm_compute. reflexivity.
  - simpl. repeat constructor; done.
  - unfold synonyms_resolve. apply (bool_decide_unpack _). vm_compute. exact I.
  - simpl. repeat constructor; set_solver.
  - set_solver.
  - vm_compute. set_solver.
  - split.
    + destruct (Hfalse None) as (st' & Hrun & Hsame); [reflexivity|].
      exists st'. split; [exact Hrun|]. split.
      * apply Hsame; [vm_compute; set_solver|].
        intros k'' [->|[->|[]%elem_of_nil]%elem_of_cons]%elem_of_cons Hpk.
        -- vm_compute. congruence.
        -- exfalso. apply Hpk. vm_compute. set_solver.
      * apply (f_equal snd) in Hrun. simpl in Hrun. rewrite <- Hrun.
        vm_compute. reflexivity.
    + destruct (Htrue (Some true)) as (st' & Hrun & Hset); [reflexivity| | |].
      * intros f. vm_compute. set_solver.
      * intros k' [->|[->|[]%elem_of_nil]%elem_of_cons]%elem_of_cons Hne; [|done].
        vm_compute. congruence.
      * exists st'. split; [exact Hrun|]. split; [exact Hset|].
        apply (f_equal snd) in Hrun. simpl in Hrun. rewrite <- Hrun.
        vm_compute. reflexivity.
Defined.

(** ** Round trip *)

(** C4: after [d = asdict(instance)] without [follow], [fromdict(instance, d)]
    without [follow], on the items of [d] in any order (or on any part of
    them), ends either normally or with the primary-key protection error
    and leaves every instance of the store, attribute by attribute, as it
    was.  It ends normally when the primary keys are treated alike by both
    calls: left out by [exclude_pk = True], or let in by an [allow_pk] that
    resolves true. *)
Theorem asdict_fromdict_roundtrip model i exclude exclude_underscore exclude_pk include
    exclude' exclude_underscore' allow_pk include' st d st1 items :
  objs st !! model = Some i →
  keys_nonempty (cls i) →
  asdict model exclude exclude_underscore exclude_pk FollowNone include st
    = (Ok (VDict d), st1) →
  items ⊆ d →
  ∃ r st2,
    fromdict model (VDict items) exclude' exclude_underscore' allow_pk FollowNone
      include' st1 = (r, st2)
    ∧ objs st2 = objs st
    ∧ (∀ k, attr_of st2 model k = attr_of st model k)
    ∧ (r = Ok () ∨ r = Raise Exception)
    ∧ (exclude_pk = Some true ∨ resolve_allow_pk (cls i) allow_pk = true → r = Ok ()).
Proof.
  intros Hi Hne Hasdict Hitems.
  unfold asdict in Hasdict. simpl in Hasdict.
  apply asdict_body_Ok in Hasdict
    as (i' & st0 & kvs & d' & Hi' & Hobjs0 & Hread & Hloop & [= <-]).
  assert (i' = i) as -> by congruence.
  injection Hloop as <- <-.
  apply read_fields_Ok in Hread as (_ & Hkeys & Hvals).
  assert (objs st0 !! model = Some i) as Hi0 by (by rewrite Hobjs0).
  assert (Forall (λ kv, ∃ t, target (cls i) kv.1 = Some t ∧ attrs i !! t = Some kv.2)
            items) as Hread.
  { apply Forall_forall. intros kv Hkv. apply Hitems, dict_of_items in Hkv.
    rewrite Forall_forall in Hvals. specialize (Hvals _ Hkv).
    rewrite (attr_of_live _ _ _ _ Hi0) in Hvals.
    destruct (target (cls i) kv.1) as [t|]; [|done]. by exists t. }
  assert (∀ fields : list string,
            Forall (λ kv, kv.1 ∈ fields → is_Some (target (cls i) kv.1)) items)
    as Hres.
  { intros fields. eapply Forall_impl; [exact Hread|]. intros kv (t & Ht & _) _.
    by exists t. }
  destruct (fromdict_run model i items exclude' exclude_underscore' allow_pk FollowNone
              include' st0 Hi0 Hne (Hres _))
    as (st2 & applied & rest & Hobjs2 & _ & Happ & Happlied & Hrest & Hrun).
  assert (Forall (λ kv, ∀ t, target (cls i) kv.1 = Some t → attrs i !! t = Some kv.2)
            items) as Hsame.
  { eapply Forall_impl; [exact Hread|]. intros kv (t & Ht & Hv) t' Ht'. congruence. }
  assert (set_attrs st2 model i
            (assign (cls i)
                    (get_column_keys (cls i) ++ get_synonym_keys (cls i)
                       ++ or_nil include' ++ or_nil (dictalchemy_fromdict_include (cls i)))
                    applied (attrs i)) = st2) as Hst2.
  { rewrite assign_same.
    - apply set_attrs_id. by rewrite Hobjs2.
    - rewrite Happ in Hsame. by apply Forall_app in Hsame as [? _]. }
  rewrite Hst2 in Hrun.
  exists (match rest with [] => Ok () | _ => Raise Exception end), st2.
  split; [by destruct rest|].
  split; [congruence|]. split; [intros k; unfold attr_of; by rewrite Hobjs2, Hobjs0|].
  split; [destruct rest; auto|].
  destruct rest as [|[k0 v0] rest]; [done|]. destruct Hrest as [Hallow Hk0].
  intros [->|?]; [|congruence]. exfalso.
  assert ((k0, v0) ∈ dict_of kvs) as Hin.
  { apply Hitems. rewrite Happ. apply elem_of_app. right. left. }
  apply (list_elem_of_fmap_2 fst) in Hin. simpl in Hin.
  rewrite dict_of_keys, Hkeys, list_elem_of_filter in Hin. destruct Hin as [Hex _].
  apply Hex. rewrite !elem_of_app. right. right. simpl. by apply elem_of_elements.
Qed.

Lemma asdict_fromdict_roundtrip_witness :
  ∃ r st2,
    fromdict 0 (VDict [("name", VStr "ann"); ("id", VInt 1)]) None None (Some true)
      FollowNone None world = (r, st2)
    ∧ objs st2 = objs world
    ∧ (∀ k, attr_of st2 0 k = attr_of world 0 k)
    ∧ (r = Ok () ∨ r = Raise Exception)
    ∧ (None = Some true ∨ resolve_allow_pk Employee (Some true) = true → r = Ok ()).
Proof.
  apply (asdict_fromdict_roundtrip 0
           (new Employee [("id", VInt 1); ("name", VStr "ann"); ("_salary", VInt 10);
                          ("boss", VNone); ("reports", VColl [VObj 1; VObj 2]);
                          ("hq", VObj 3)])
           None None None None None None (Some true) None world
           [("id", VInt 1); ("name", VStr "ann")]).
  - vm_compute. reflexivity.
  - simpl. repeat constructor; done.
  - vm_compute. reflexivity.
  - set_solver.
Defined.

(** ** fromdict and the exclude list *)

(** [fromdict] builds the exclude list (lines 163-173) and never consults
    it: line 193 tests [k in columns + synonyms + include] only.  So a field
    of [data] is assigned whatever the exclude list holds (and keeps the
    value when [data] holds no other name for the same attribute). *)
Lemma fromdict_assigns_excluded model i items k v exclude exclude_underscore allow_pk
    follow include st :
  objs st !! model = Some i →
  keys_nonempty (cls i) →
  synonyms_resolve (cls i) →
  (∀ k', k' ∈ items.*1 → k' ≠ k → target (cls i) k' ≠ target (cls i) k) →
  NoDup items.*1 →
  (k, v) ∈ items →
  k ∈ get_column_keys (cls i) ++ get_synonym_keys (cls i)
        ++ or_nil include ++ or_nil (dictalchemy_fromdict_include (cls i)) →
  resolve_allow_pk (cls i) allow_pk = true
    ∨ (∀ k', k' ∈ items.*1 → k' ∉ get_primary_key_properties (cls i)) →
  (∀ f, f ∈ (normalize_follow follow).*1 → f ∉ items.*1) →
  ∃ st', fromdict model (VDict items) exclude exclude_underscore allow_pk follow
           include st = (Ok (), st')
         ∧ attr_of st' model k = Some v.
Proof.
  intros Hi Hne Hsyn Hnames Hnd Hkv Hfield Hpk Hfollow.
  assert (∀ fields : list string,
            Forall (λ kv, kv.1 ∈ fields → is_Some (target (cls i) kv.1)) items)
    as Hres.
  { intros fields. apply Forall_forall. intros kv _ _. by apply target_total. }
  destruct (fromdict_run model i items exclude exclude_underscore allow_pk follow
              include st Hi Hne (Hres _))
    as (st1 & applied & rest & Hobjs & _ & Hitems & Happlied & Hrest & ->).
  destruct rest as [|[k0 v0] rest].
  - rewrite app_nil_r in Hitems. subst applied.
    rewrite fromdict_follow_skip by done.
    eexists. split; [done|]. rewrite attr_of_set_attrs.
    destruct (target_total (cls i) k Hsyn) as [t Ht]. rewrite Ht. simpl.
    apply (assign_assigned _ _ _ _ k v t); try done.
    intros k' Hk' Hne' _ Hk't. apply (Hnames k' Hk' Hne'). congruence.
  - exfalso. destruct Hrest as [Hallow Hk0]. destruct Hpk as [?|Hpk]; [congruence|].
    apply (Hpk k0); [|done]. rewrite Hitems, fmap_app. apply elem_of_app. right. left.
Qed.

(** C1, at the failing input: ["name"] is in the exclude list and in the
    include list of both calls.  [asdict] leaves it out of the mapping;
    [fromdict] assigns it. *)
Theorem fromdict_assigns_excluded_and_included :
  "name" ∈ given_exclude world (Some 0)
  ∧ "name" ∈ or_nil (Some ["name"])
  ∧ (asdict 0 (Some 0) None None FollowNone (Some ["name"]) world).1
    = Ok (VDict [("id", VInt 1)])
  ∧ (fromdict 0 (VDict [("name", VStr "zed")]) (Some 0) None None FollowNone
       (Some ["name"]) world).1 = Ok ()
  ∧ attr_of (fromdict 0 (VDict [("name", VStr "zed")]) (Some 0) None None FollowNone
               (Some ["name"]) world).2 0 "name" = Some (VStr "zed").
Proof.
  split; [vm_compute; set_solver|]. split; [set_solver|].
  split; [vm_compute; reflexivity|]. split; vm_compute; reflexivity.
Qed.

(** C2, at the failing input: [exclude_underscore] is passed as true.
    [asdict] leaves ["_salary"] out of the mapping; [fromdict] assigns it. *)
Theorem fromdict_assigns_underscore_field :
  resolve_exclude_underscore Employee (Some true) = true
  ∧ "_salary" ∈ get_column_keys Employee
  ∧ (asdict 0 None (Some true) None FollowNone None world).1
    = Ok (VDict [("id", VInt 1); ("name", VStr "ann")])
  ∧ (fromdict 0 (VDict [("_salary", VInt 99)]) None (Some true) None FollowNone None
       world).1 = Ok ()
  ∧ attr_of (fromdict 0 (VDict [("_salary", VInt 99)]) None (Some true) None FollowNone
               None world).2 0 "_salary" = Some (VInt 99).
Proof.
  split; [reflexivity|]. split; [vm_compute; set_solver|].
  split; [vm_compute; reflexivity|]. split; vm_compute; reflexivity.
Qed.

(** ** The recursion without fuel *)

(** [asdict] satisfies the equation of the source: the body, with the
    nested calls being [asdict] again. *)
Lemma asdict_unfold model exclude exclude_underscore exclude_pk follow include st :
  asdict model exclude exclude_underscore exclude_pk follow include st
  = asdict_body (call_asdict asdict) model exclude exclude_underscore exclude_pk
      follow include st.
Proof.
  unfold asdict at 1. simpl. apply asdict_body_ext.
  intros k [[ex eu epk [apk|] fol inc]|s] Hin o st'; simpl; try done.
  apply normalize_follow_depth in Hin. change (depth_follow fol < depth_follow follow)%nat in Hin.
  by apply asdict_fuel_enough.
Qed.

Lemma fromdict_unfold model data exclude exclude_underscore allow_pk follow include st :
  fromdict model data exclude exclude_underscore allow_pk follow include st
  = fromdict_body (call_fromdict fromdict) model data exclude exclude_underscore
      allow_pk follow include st.
Proof.
  unfold fromdict at 1. simpl. apply fromdict_body_ext.
  intros k a Hin o d st'. apply call_fromdict_ext. intros ex eu apk fol inc st'' ->.
  apply normalize_follow_depth in Hin. change (depth_follow fol < depth_follow follow)%nat in Hin.
  by apply fromdict_fuel_enough.
Qed.

(** ** Normalisation of follow *)

Lemma normalize_follow_FollowNone : normalize_follow FollowNone = [].
Proof. done. Qed.

(** A mapping is taken as it is. *)
Lemma normalize_follow_FollowMap m :
  NoDup m.*1 → normalize_follow (FollowMap m) = (λ kv, (kv.1, ArgsKw kv.2)) <$> m.
Proof.
  intros Hnd. unfold normalize_follow. simpl. apply dict_of_NoDup.
  rewrite <- list_fmap_compose.
  replace (fst ∘ (λ kv : string * kwargs, (kv.1, ArgsKw kv.2))) with (@fst string kwargs);
    done.
Qed.

Lemma normalize_follow_NoDup follow : NoDup (normalize_follow follow).*1.
Proof.
  unfold normalize_follow. destruct follow as [|names|m]; simpl.
  - constructor.
  - destruct (dict_pairs_of_strings names); apply dict_of_NoDup_keys.
  - apply dict_of_NoDup_keys.
Qed.

(** A sequence of names is taken as the mapping of each name to the empty
    bundle, unless every name in it has exactly two characters. *)
Lemma normalize_follow_FollowSeq names :
  dict_pairs_of_strings names = None ∨ names = [] →
  normalize_follow (FollowSeq names)
  = normalize_follow (FollowMap ((λ k, (k, no_kwargs)) <$> names)).
Proof.
  intros [Hnames| ->]; [|done].
  unfold normalize_follow. simpl. rewrite Hnames. unfold fromkeys.
  by rewrite <- list_fmap_compose.
Qed.

(** The part of C5 that holds: the shorthand and the mapping give the same
    run of [asdict] and of [fromdict], unless the sequence is made of
    two-character names only. *)
Lemma follow_sequence_as_mapping names :
  dict_pairs_of_strings names = None ∨ names = [] →
  (∀ model exclude exclude_underscore exclude_pk include st,
     asdict model exclude exclude_underscore exclude_pk (FollowSeq names) include st
     = asdict model exclude exclude_underscore exclude_pk
         (FollowMap ((λ k, (k, no_kwargs)) <$> names)) include st)
  ∧ (∀ model data exclude exclude_underscore allow_pk include st,
       fromdict model data exclude exclude_underscore allow_pk (FollowSeq names) include st
       = fromdict model data exclude exclude_underscore allow_pk
           (FollowMap ((λ k, (k, no_kwargs)) <$> names)) include st).
Proof.
  intros Hnames. pose proof (normalize_follow_FollowSeq names Hnames) as Hnorm.
  split; intros.
  - rewrite !asdict_unfold. unfold asdict_body. by rewrite Hnorm.
  - rewrite !fromdict_unfold. unfold fromdict_body. by rewrite Hnorm.
Qed.

(** C5, at the failing input: the relationship [hq] of an employee has a
    name of two characters.  [dict(["hq"])] succeeds and yields
    [{"h": "q"}], so the sequence form is taken for a mapping with the key
    ["h"]: [asdict] raises the error for a key that is no relationship and
    [fromdict] skips the key, where the mapping form follows [hq]. *)
Theorem follow_sequence_of_two_letter_names :
  "hq" ∈ get_relation_keys Employee
  ∧ normalize_follow (FollowSeq ["hq"]) = [("h", ArgsStr "q")]
  ∧ (asdict 0 None None None (FollowSeq ["hq"]) None world).1 = Raise ValueError
  ∧ (asdict 0 None None None (FollowMap [("hq", no_kwargs)]) None world).1
    = Ok (VDict [("id", VInt 1); ("name", VStr "ann");
                 ("hq", VDict [("id", VInt 7); ("city", VStr "oslo")])])
  ∧ attr_of (fromdict 0 (VDict [("hq", VDict [("city", VStr "rome")])]) None None None
               (FollowSeq ["hq"]) None world).2 3 "city" = Some (VStr "oslo")
  ∧ attr_of (fromdict 0 (VDict [("hq", VDict [("city", VStr "rome")])]) None None None
               (FollowMap [("hq", no_kwargs)]) None world).2 3 "city" = Some (VStr "rome").
Proof.
  split; [vm_compute; set_solver|]. repeat split; vm_compute; reflexivity.
Qed.

(** ** Enough fuel *)

(** A computation that never runs out of fuel: it returns or it raises. *)
Definition total {A} (m : M A) : Prop := ∀ st, (m st).1 ≠ OutOfFuel.

Lemma total_ret {A} (a : A) : total (ret a).
Proof. done. Qed.

Lemma total_raise {A} e : total (@raise A e).
Proof. done. Qed.









Section total_asdict.
Variable rel_asdict : nat → args → M value.



End total_asdict.



Section total_fromdict.
Variable rel_fromdict : nat → value → args → M unit.



End total_fromdict.



(** ** The loops over follow, entry by entry *)

Lemma bind_assoc {A B C} (m : M A) (f : A → M B) (g : B → M C) st :
  bind (bind m f) g st = bind m (λ a, bind (f a) g) st.
Proof. unfold bind. by destruct (m st) as [[a|e|] st1]. Qed.

Lemma asdict_follow_app rel_asdict model relations follow1 follow2 data st :
  asdict_follow rel_asdict model relations (follow1 ++ follow2) data st
  = bind (asdict_follow rel_asdict model relations follow1 data)
         (asdict_follow rel_asdict model relations follow2) st.
Proof.
  revert data st. induction follow1 as [|[k a] follow1 IH]; intros data st; simpl.
  { done. }
  destruct (negb (mem k relations)); [done|]. munfold.
  rewrite !bind_assoc. apply bind_ext. intros rel st1.
  rewrite !bind_assoc. apply bind_ext. intros h st2.
  rewrite !bind_assoc. apply bind_ext. intros data' st3. apply IH.
Qed.

Lemma fromdict_follow_app rel_fromdict model relations data follow1 follow2 st :
  fromdict_follow rel_fromdict model relations data (follow1 ++ follow2) st
  = bind (fromdict_follow rel_fromdict model relations data follow1)
         (λ _, fromdict_follow rel_fromdict model relations data follow2) st.
Proof.
  revert st. induction follow1 as [|[k a] follow1 IH]; intros st; simpl; [done|].
  destruct (dict_get k data) as [dk|]; [|done].
  destruct (negb (mem k relations)); [done|]. munfold.
  rewrite !bind_assoc. apply bind_ext. intros rel st1.
  rewrite !bind_assoc. apply bind_ext. intros h st2.
  rewrite !bind_assoc. apply bind_ext. intros [] st3. apply IH.
Qed.

(** Lines 84-105 of [asdict]: everything before the loop over [follow]. *)
Definition asdict_base (model : nat) (exclude : option nat)
    (exclude_underscore exclude_pk : option bool) (include : option (list string))
  : M (mapped_class * list (string * value)) :=
  c ← class_of model;
  exclude ← resolve_exclude c exclude exclude_underscore;
  exclude ← match exclude_pk with
            | Some true => extend exclude (elements (get_primary_key_properties c))
            | _ => ret exclude
            end;
  ex ← contents exclude;
  kvs ← read_fields model
          (get_column_keys c ++ get_synonym_keys c
             ++ or_nil include ++ or_nil (dictalchemy_asdict_include c)) ex;
  ret (c, dict_of kvs).

Lemma asdict_body_split rel_asdict model exclude exclude_underscore exclude_pk follow
    include st :
  asdict_body rel_asdict model exclude exclude_underscore exclude_pk follow include st
  = bind (asdict_base model exclude exclude_underscore exclude_pk include)
         (λ cd, bind (asdict_follow rel_asdict model (get_relation_keys cd.1)
                        (normalize_follow follow) cd.2)
                     (λ d, ret (VDict d))) st.
Proof.
  unfold asdict_body, asdict_base. munfold.
  repeat (rewrite !bind_assoc; apply bind_ext; intros ? ?). done.
Qed.

(** Lines 163-194 of [fromdict]: everything before the loop over [follow]. *)
Definition fromdict_base (model : nat) (data : value) (exclude : option nat)
    (exclude_underscore allow_pk : option bool) (include : option (list string))
  : M (mapped_class * list (string * value)) :=
  c ← class_of model;
  _ ← resolve_exclude c exclude exclude_underscore;
  items ← iteritems data;
  update_simple model (resolve_allow_pk c allow_pk) (get_primary_key_properties c)
    (get_column_keys c ++ get_synonym_keys c
       ++ or_nil include ++ or_nil (dictalchemy_fromdict_include c)) items;;
  ret (c, items).

Lemma fromdict_body_split rel_fromdict model data exclude exclude_underscore allow_pk
    follow include st :
  fromdict_body rel_fromdict model data exclude exclude_underscore allow_pk follow
    include st
  = bind (fromdict_base model data exclude exclude_underscore allow_pk include)
         (λ ci, fromdict_follow rel_fromdict model (get_relation_keys ci.1) ci.2
                  (normalize_follow follow)) st.
Proof.
  unfold fromdict_body, fromdict_base. munfold.
  repeat (rewrite !bind_assoc; apply bind_ext; intros ? ?). done.
Qed.

(** The two functions as their part before the loop followed by the loop,
    the nested calls being the functions themselves. *)
Lemma asdict_split model exclude exclude_underscore exclude_pk follow include st :
  asdict model exclude exclude_underscore exclude_pk follow include st
  = bind (asdict_base model exclude exclude_underscore exclude_pk include)
         (λ cd, bind (asdict_follow (call_asdict asdict) model (get_relation_keys cd.1)
                        (normalize_follow follow) cd.2)
                     (λ d, ret (VDict d))) st.
Proof. rewrite asdict_unfold. apply asdict_body_split. Qed.

Lemma fromdict_split model data exclude exclude_underscore allow_pk follow include st :
  fromdict model data exclude exclude_underscore allow_pk follow include st
  = bind (fromdict_base model data exclude exclude_underscore allow_pk include)
         (λ ci, fromdict_follow (call_fromdict fromdict) model (get_relation_keys ci.1)
                  ci.2 (normalize_follow follow)) st.
Proof. rewrite fromdict_unfold. apply fromdict_body_split. Qed.

Lemma bind_ext_run {A B} (m : M A) (f g : A → M B) st :
  (∀ a st', m st = (Ok a, st') → f a st' = g a st') → bind m f st = bind m g st.
Proof. intros Hfg. unfold bind. destruct (m st) as [[a|e|] st']; auto. Qed.

Lemma frames_asdict_base (R : relation state) `{!PreOrder R} model exclude
    exclude_underscore exclude_pk include :
  (∀ ex names, frames R (extend ex names)) →
  frames R (asdict_base model exclude exclude_underscore exclude_pk include).
Proof.
  intros R_extend. unfold asdict_base. munfold.
  apply (frames_bind R); [apply (frames_reads R), reads_class_of|]. intros c'.
  apply (frames_bind R); [by apply (frames_resolve_exclude R)|]. intros ex.
  apply (frames_bind R).
  { destruct exclude_pk as [[]|]; try frames_pure. apply R_extend. }
  intros ex'.
  apply (frames_bind R); [apply (frames_reads R), reads_contents|]. intros names.
  apply (frames_bind R); [apply (frames_reads R), reads_read_fields|].
  intros kvs. frames_pure.
Qed.

Lemma asdict_base_Ok model exclude exclude_underscore exclude_pk include st c data st1 :
  asdict_base model exclude exclude_underscore exclude_pk include st = (Ok (c, data), st1) →
  ∃ i, objs st !! model = Some i ∧ c = cls i ∧ objs st1 = objs st.
Proof.
  intros Hrun.
  pose proof (frames_asdict_base same_objs _ _ _ _ _ extend_same_objs _ _ _ Hrun) as Hobjs.
  unfold asdict_base in Hrun. munfold.
  apply bind_Ok in Hrun as (c' & st0 & Hc & Hrun).
  unfold class_of in Hc. destruct (objs st !! model) as [i|]; [|done].
  injection Hc as <- <-. exists i. split; [done|]. split; [|done].
  repeat (apply bind_Ok in Hrun as (? & ? & _ & Hrun)). by injection Hrun as <- _ _.
Qed.

Lemma fromdict_base_Ok model data exclude exclude_underscore allow_pk include st c
    items st1 :
  fromdict_base model data exclude exclude_underscore allow_pk include st
    = (Ok (c, items), st1) →
  ∃ i, objs st !! model = Some i ∧ c = cls i ∧ data = VDict items.
Proof.
  unfold fromdict_base. munfold.
  intros (c' & st0 & Hc & Hrun)%bind_Ok.
  unfold class_of in Hc. destruct (objs st !! model) as [i|]; [|done].
  injection Hc as <- <-. exists i. split; [done|].
  apply bind_Ok in Hrun as (? & ? & _ & Hrun).
  apply bind_Ok in Hrun as (items' & ? & Hitems & Hrun).
  apply bind_Ok in Hrun as (? & ? & _ & Hrun). injection Hrun as <- <- _.
  split; [done|]. destruct data; try done. by injection Hitems as <- _.
Qed.

(** ** A follow key that is not a relationship *)




(** ** A followed relation that is neither dictable nor a collection *)

Lemma attr_of_same_objs st st' model k :
  objs st' = objs st → attr_of st' model k = attr_of st model k.
Proof. intros Hobjs. unfold attr_of. by rewrite Hobjs. Qed.

Lemma dictable_instance_same_objs st st' rel :
  objs st' = objs st → dictable_instance st' rel = dictable_instance st rel.
Proof. intros Hobjs. unfold dictable_instance. by rewrite Hobjs. Qed.

Lemma asdict_same_objs model exclude exclude_underscore exclude_pk follow include :
  frames same_objs (asdict model exclude exclude_underscore exclude_pk follow include).
Proof. apply (frames_asdict_fuel same_objs), extend_same_objs. Qed.

Lemma call_asdict_same_objs o a : frames same_objs (call_asdict asdict o a).
Proof. apply (frames_call_asdict same_objs). intros. apply asdict_same_objs. Qed.

(** A name that is no field to read is no key of the mapping either,
    unless [follow] names it. *)
Lemma asdict_not_field_absent model i exclude exclude_underscore exclude_pk follow
    include st d st' k :
  objs st !! model = Some i →
  asdict model exclude exclude_underscore exclude_pk follow include st
    = (Ok (VDict d), st') →
  k ∉ get_column_keys (cls i) ++ get_synonym_keys (cls i)
        ++ or_nil include ++ or_nil (dictalchemy_asdict_include (cls i)) →
  k ∉ (normalize_follow follow).*1 →
  k ∉ d.*1.
Proof.
  intros Hi Hrun Hk Hfollow. unfold asdict in Hrun. simpl in Hrun.
  apply asdict_body_Ok in Hrun as (i' & st1 & kvs & d' & Hi' & _ & Hread & Hloop & [= <-]).
  assert (i' = i) as -> by congruence.
  apply dict_get_None. rewrite (asdict_follow_get _ _ _ _ _ _ _ _ _ Hloop Hfollow).
  apply dict_get_None. rewrite dict_of_keys.
  apply read_fields_Ok in Hread as (_ & -> & _).
  rewrite list_elem_of_filter. tauto.
Qed.

(** C8, as amended.  [follow] names the relationship [k], whose value [v]
    is no dictable instance and no collection.  The loop does nothing for
    [k]: the call runs, and ends, as the call without that entry of [follow].
    So [v] is in the returned mapping only when [k] is among the fields the
    call reads anyway (a name of an include list that no exclusion rule
    covers); otherwise the mapping has no key [k]. *)
Theorem asdict_follow_plain_value model i k kw pre post v exclude exclude_underscore
    exclude_pk include st :
  objs st !! model = Some i →
  NoDup (pre ++ (k, kw) :: post).*1 →
  k ∈ get_relation_keys (cls i) →
  attr_of st model k = Some v →
  dictable_instance st v = None →
  (∀ children, v ≠ VColl children) →
  asdict model exclude exclude_underscore exclude_pk
    (FollowMap (pre ++ (k, kw) :: post)) include st
  = asdict model exclude exclude_underscore exclude_pk (FollowMap (pre ++ post)) include st
  ∧ ∀ d st',
      asdict model exclude exclude_underscore exclude_pk
        (FollowMap (pre ++ (k, kw) :: post)) include st = (Ok (VDict d), st') →
      let fields := get_column_keys (cls i) ++ get_synonym_keys (cls i)
                      ++ or_nil include ++ or_nil (dictalchemy_asdict_include (cls i)) in
      let excluded := given_exclude st exclude ++ added_exclude (cls i) exclude_underscore
                        ++ added_pk (cls i) exclude_pk in
      (k ∈ fields ∧ k ∉ excluded → dict_get k d = Some v)
      ∧ (k ∉ fields ∨ k ∈ excluded → dict_get k d = None).
Proof.
  intros Hi Hnd Hk Hv Hplain Hcoll.
  assert (NoDup (pre ++ post).*1 ∧ k ∉ (pre ++ post).*1) as [Hnd_skip Hfresh].
  { rewrite fmap_app in *. rewrite fmap_cons in Hnd.
    apply NoDup_app in Hnd as (? & Hdisj & [Hk' ?]%NoDup_cons). split.
    - apply NoDup_app. split; [done|]. split; [|done].
      intros x Hx Hx'. apply (Hdisj x Hx). by right.
    - intros [Hin|Hin]%elem_of_app; [|done]. apply (Hdisj k Hin). left. }
  assert (asdict model exclude exclude_underscore exclude_pk
            (FollowMap (pre ++ (k, kw) :: post)) include st
          = asdict model exclude exclude_underscore exclude_pk
              (FollowMap (pre ++ post)) include st) as Heq.
  { rewrite !asdict_split, !normalize_follow_FollowMap by done.
    apply bind_ext_run. intros [c data] st1 Hbase. simpl.
    destruct (asdict_base_Ok _ _ _ _ _ _ _ _ _ Hbase) as (i' & Hi' & -> & Hobjs1).
    assert (i' = i) as -> by congruence.
    apply bind_ext2; [|done]. rewrite !fmap_app, fmap_cons, !asdict_follow_app.
    apply bind_ext_run. intros data1 st2 Hpre. simpl.
    assert (objs st2 = objs st) as Hobjs2.
    { apply (frames_asdict_follow same_objs) in Hpre; [unfold same_objs in *; congruence|].
      apply call_asdict_same_objs. }
    unfold mem. rewrite bool_decide_eq_true_2 by done. simpl. munfold.
    unfold bind at 1, getattr. rewrite (attr_of_same_objs st st2), Hv by done.
    unfold bind at 1, hasattr_asdict.
    rewrite (dictable_instance_same_objs st st2), Hplain by done.
    unfold bind at 1. destruct v; try done. by destruct (Hcoll l). }
  split; [done|]. intros d st' Hrun fields excluded. rewrite Heq in Hrun.
  assert (k ∉ (normalize_follow (FollowMap (pre ++ post))).*1) as Hfollow.
  { rewrite normalize_follow_FollowMap, <- list_fmap_compose by done. done. }
  split.
  - intros [Hfield Hex].
    destruct (asdict_field_present _ _ _ _ _ _ _ _ _ _ _ Hi Hrun Hfield Hex Hfollow)
      as (v' & Hget & Hv'). congruence.
  - intros [Hfield|Hex]; apply dict_get_None.
    + eapply asdict_not_field_absent; eauto.
    + eapply asdict_excluded_absent; eauto.
Qed.

Lemma asdict_follow_plain_value_witness :
  asdict 0 None None None (FollowMap [("hq", no_kwargs); ("boss", no_kwargs)]) None world
  = asdict 0 None None None (FollowMap [("hq", no_kwargs)]) None world
  ∧ ∀ d st',
      asdict 0 None None None (FollowMap [("hq", no_kwargs); ("boss", no_kwargs)]) None
        world = (Ok (VDict d), st') →
      dict_get "boss" d = None.
Proof.
  destruct (asdict_follow_plain_value 0
              (new Employee [("id", VInt 1); ("name", VStr "ann"); ("_salary", VInt 10);
                             ("boss", VNone); ("reports", VColl [VObj 1; VObj 2]);
                             ("hq", VObj 3)])
              "boss" no_kwargs [("hq", no_kwargs)] [] VNone None None None None world)
    as [Heq Hget].
  - vm_compute. reflexivity.
  - apply (bool_decide_unpack _). vm_compute. exact I.
  - apply (bool_decide_unpack _). vm_compute. exact I.
  - vm_compute. reflexivity.
  - reflexivity.
  - intros children. discriminate.
  - split; [exact Heq|]. intros d st' Hrun.
    apply (Hget d st' Hrun). left.
    apply (bool_decide_unpack _). vm_compute. exact I.
Defined.

(** C8 as stated fails: the followed relationship [boss] of employee 0
    holds [None], and the returned mapping has no key ["boss"]. *)
Lemma asdict_follow_none_not_passed_through :
  "boss" ∈ get_relation_keys Employee
  ∧ attr_of world 0 "boss" = Some VNone
  ∧ (asdict 0 None None None (FollowMap [("boss", no_kwargs)]) None world).1
    = Ok (VDict [("id", VInt 1); ("name", VStr "ann")]).
Proof.
  split; [apply (bool_decide_unpack _); vm_compute; exact I|].
  split; vm_compute; reflexivity.
Qed.

(** ** The loop over follow in fromdict (lines 197-206) *)

(** C9, at the failing input: the relationship [hq] is followed and is a
    key of [data].  Line 205 tests whether the relation value has [asdict],
    and line 206 calls its [fromdict].  A depot has [fromdict] and no
    [asdict]: the call returns and the depot is not updated, although its
    own [fromdict] would set [city].  A vault has [asdict] and no
    [fromdict]: the call raises [AttributeError]. *)
Theorem fromdict_follow_tests_asdict :
  "hq" ∈ get_relation_keys Employee
  ∧ attr_of archive 1 "hq" = Some (VObj 3)
  ∧ (has_fromdict ∘ cls <$> objs archive !! 3) = Some true
  ∧ (has_asdict ∘ cls <$> objs archive !! 3) = Some false
  ∧ fromdict 1 (VDict [("hq", VDict [("city", VStr "rome")])]) None None None
      (FollowMap [("hq", no_kwargs)]) None archive = (Ok (), archive)
  ∧ attr_of (fromdict 3 (VDict [("city", VStr "rome")]) None None None FollowNone None
               archive).2 3 "city" = Some (VStr "rome")
  ∧ attr_of archive 0 "hq" = Some (VObj 2)
  ∧ (has_fromdict ∘ cls <$> objs archive !! 2) = Some false
  ∧ (has_asdict ∘ cls <$> objs archive !! 2) = Some true
  ∧ fromdict 0 (VDict [("hq", VDict [("city", VStr "rome")])]) None None None
      (FollowMap [("hq", no_kwargs)]) None archive = (Raise AttributeError, archive).
Proof.
  split; [vm_compute; set_solver|].
  repeat split; vm_compute; reflexivity.
Qed.

(** X20: [follow] is a mapping whose last entry sends [k] to the bundle
    [kw], and [st1] is the state in which the loop reaches that entry, that
    is the one in which the call without it ends.  If [k] is no key of
    [data] the entry is skipped without error, relationship or not.  If [k]
    is a key of [data] and a relationship, what decides is whether the
    relation value has [asdict]: when it has, the call ends as the call of
    [fromdict] on that value with [data[k]] and the options of [kw] if the
    value has [fromdict] too, and with [AttributeError] if it has not; when
    it has no [asdict] the entry does nothing.  A collection has no
    [asdict], so it is never traversed. *)
Theorem fromdict_follow_entry model i k kw pre items exclude exclude_underscore allow_pk
    include st st1 :
  objs st !! model = Some i →
  NoDup (pre ++ [(k, kw)]).*1 →
  fromdict model (VDict items) exclude exclude_underscore allow_pk (FollowMap pre)
    include st = (Ok (), st1) →
  let run := fromdict model (VDict items) exclude exclude_underscore allow_pk
               (FollowMap (pre ++ [(k, kw)])) include st in
  (k ∉ items.*1 → run = (Ok (), st1))
  ∧ (∀ dk rel,
       dict_get k items = Some dk →
       k ∈ get_relation_keys (cls i) →
       attr_of st1 model k = Some rel →
       (∀ o io exclude' exclude_underscore' allow_pk' follow' include',
          dictable_instance st1 rel = Some o →
          objs st1 !! o = Some io →
          kw = Kwargs exclude' exclude_underscore' None allow_pk' follow' include' →
          run = if has_fromdict (cls io)
                then fromdict o dk exclude' exclude_underscore' allow_pk' follow'
                       include' st1
                else (Raise AttributeError, st1))
       ∧ (dictable_instance st1 rel = None → run = (Ok (), st1))
       ∧ (∀ children, rel = VColl children → run = (Ok (), st1))).
Proof.
  intros Hi Hnd Hpre run.
  assert (NoDup pre.*1) as Hnd_pre.
  { rewrite fmap_app in Hnd. by apply NoDup_app in Hnd as (? & _ & _). }
  rewrite fromdict_split, normalize_follow_FollowMap in Hpre by done.
  apply bind_Ok in Hpre as ([c items'] & st0 & Hbase & Hloop). simpl in Hloop.
  destruct (fromdict_base_Ok _ _ _ _ _ _ _ _ _ _ Hbase) as (i' & Hi' & -> & [= <-]).
  assert (i' = i) as -> by congruence.
  assert (run = fromdict_follow (call_fromdict fromdict) model (get_relation_keys (cls i))
                  items [(k, ArgsKw kw)] st1) as ->.
  { unfold run. rewrite fromdict_split, normalize_follow_FollowMap by done.
    unfold bind at 1. rewrite Hbase. simpl.
    rewrite fmap_app, fromdict_follow_app. unfold bind at 1. by rewrite Hloop. }
  split.
  - intros Hk. simpl. by rewrite (proj2 (dict_get_None k items)).
  - intros dk rel Hdk Hk Hrel.
    assert (fromdict_follow (call_fromdict fromdict) model (get_relation_keys (cls i))
              items [(k, ArgsKw kw)] st1
            = bind match dictable_instance st1 rel with
                   | Some o => call_fromdict fromdict o dk (ArgsKw kw)
                   | None => ret ()
                   end (λ _, ret ()) st1) as ->.
    { simpl. rewrite Hdk. unfold mem. rewrite bool_decide_eq_true_2 by done. simpl.
      munfold. unfold bind at 1, getattr. rewrite Hrel.
      unfold bind at 1, hasattr_asdict. done. }
    assert (dictable_instance st1 rel = None →
            bind match dictable_instance st1 rel with
                 | Some o => call_fromdict fromdict o dk (ArgsKw kw)
                 | None => ret ()
                 end (λ _, ret ()) st1 = (Ok (), st1)) as Hnone.
    { intros ->. done. }
    split; [|split; [done|]].
    + intros o io ex' eu' apk' fol' inc' -> Hio ->.
      unfold call_fromdict. munfold. unfold bind, class_of. rewrite Hio.
      destruct (has_fromdict (cls io)); [|done].
      by destruct (fromdict o dk ex' eu' apk' fol' inc' st1) as [[[]|e|] st2].
    + intros children ->. by apply Hnone.
Qed.

Lemma fromdict_follow_entry_witness :
  attr_of (fromdict 0 (VDict [("hq", VDict [("city", VStr "rome")])]) None None None
             (FollowMap [("hq", no_kwargs)]) None world).2 3 "city" = Some (VStr "rome")
  ∧ fromdict 0 (VDict [("reports", VList [])]) None None None
      (FollowMap [("reports", no_kwargs)]) None world = (Ok (), world)
  ∧ fromdict 0 (VDict []) None None None (FollowMap [("nosuch", no_kwargs)]) None world
    = (Ok (), world)
  ∧ fromdict 0 (VDict [("hq", VDict [("city", VStr "rome")])]) None None None
      (FollowMap [("hq", no_kwargs)]) None archive = (Raise AttributeError, archive).
Proof.
  pose (ann := new Employee [("id", VInt 1); ("name", VStr "ann"); ("_salary", VInt 10);
                             ("boss", VNone); ("reports", VColl [VObj 1; VObj 2]);
                             ("hq", VObj 3)]).
  split; [|split; [|split]].
  - destruct (fromdict_follow_entry 0 ann "hq" no_kwargs []
                [("hq", VDict [("city", VStr "rome")])] None None None None world world)
      as [_ Hkey].
    + vm_compute. reflexivity.
    + apply (bool_decide_unpack _). vm_compute. exact I.
    + vm_compute. reflexivity.
    + destruct (Hkey (VDict [("city", VStr "rome")]) (VObj 3)) as (Hrec & _ & _).
      * vm_compute. reflexivity.
      * apply (bool_decide_unpack _). vm_compute. exact I.
      * vm_compute. reflexivity.
      * simpl app in Hrec.
        rewrite (Hrec 3 (new Office [("id", VInt 7); ("city", VStr "oslo")])
                   None None None FollowNone None).
        -- vm_compute. reflexivity.
        -- vm_compute. reflexivity.
        -- vm_compute. reflexivity.
        -- reflexivity.
  - destruct (fromdict_follow_entry 0 ann "reports" no_kwargs []
                [("reports", VList [])] None None None None world world) as [_ Hkey].
    + vm_compute. reflexivity.
    + apply (bool_decide_unpack _). vm_compute. exact I.
    + vm_compute. reflexivity.
    + destruct (Hkey (VList []) (VColl [VObj 1; VObj 2])) as (_ & _ & Hcoll).
      * vm_compute. reflexivity.
      * apply (bool_decide_unpack _). vm_compute. exact I.
      * vm_compute. reflexivity.
      * exact (Hcoll [VObj 1; VObj 2] eq_refl).
  - destruct (fromdict_follow_entry 0 ann "nosuch" no_kwargs [] [] None None None None
                world world) as [Hskip _].
    + vm_compute. reflexivity.
    + apply (bool_decide_unpack _). vm_compute. exact I.
    + vm_compute. reflexivity.
    + apply Hskip. apply (bool_decide_unpack _). vm_compute. exact I.
  - destruct (fromdict_follow_entry 0
                (new Employee [("id", VInt 1); ("name", VStr "ann");
                               ("_salary", VInt 10); ("boss", VNone);
                               ("reports", VColl []); ("hq", VObj 2)])
                "hq" no_kwargs [] [("hq", VDict [("city", VStr "rome")])]
                None None None None archive archive) as [_ Hkey].
    + vm_compute. reflexivity.
    + apply (bool_decide_unpack _). vm_compute. exact I.
    + vm_compute. reflexivity.
    + destruct (Hkey (VDict [("city", VStr "rome")]) (VObj 2)) as (Hrec & _ & _).
      * vm_compute. reflexivity.
      * apply (bool_decide_unpack _). vm_compute. exact I.
      * vm_compute. reflexivity.
      * simpl app in Hrec.
        rewrite (Hrec 2 (new Vault [("id", VInt 7); ("city", VStr "oslo")])
                   None None None FollowNone None); [reflexivity| | |reflexivity].
        -- vm_compute. reflexivity.
        -- vm_compute. reflexivity.
Defined.

(** ** Calls that are given no list object *)

(** A computation whose result depends on the instances only and which
    leaves the store as it is. *)
Definition objs_pure {A} (m : M A) : Prop :=
  ∀ st1 st2, objs st1 = objs st2 → m st1 = ((m st2).1, st1).

Lemma objs_pure_bind_post {A B} (Q : A → Prop) (m : M A) (f : A → M B) :
  objs_pure m →
  (∀ st a st', m st = (Ok a, st') → Q a) →
  (∀ a, Q a → objs_pure (f a)) →
  objs_pure (bind m f).
Proof.
  intros Hm HQ Hf st1 st2 Hobjs. unfold bind. rewrite (Hm st1 st2 Hobjs).
  pose proof (Hm st2 st2 eq_refl) as H2.
  destruct (m st2) as [[a|e|] st2'] eqn:Hrun; simpl in *; try done.
  injection H2 as ->. apply Hf; [by eapply HQ|done].
Qed.

Lemma objs_pure_bind {A B} (m : M A) (f : A → M B) :
  objs_pure m → (∀ a, objs_pure (f a)) → objs_pure (bind m f).
Proof. intros Hm Hf. apply (objs_pure_bind_post (λ _, True)); auto. Qed.

Lemma objs_pure_ret {A} (a : A) : objs_pure (ret a).
Proof. done. Qed.

Lemma objs_pure_raise {A} e : objs_pure (@raise A e).
Proof. done. Qed.

Lemma objs_pure_class_of model : objs_pure (class_of model).
Proof.
  intros st1 st2 Hobjs. unfold class_of. rewrite Hobjs. by destruct (objs st2 !! model).
Qed.

Lemma objs_pure_getattr model k : objs_pure (getattr model k).
Proof.
  intros st1 st2 Hobjs. unfold getattr, resolves.
  rewrite (attr_of_same_objs st2 st1), Hobjs by done.
  by destruct (attr_of st2 model k).
Qed.

Lemma objs_pure_hasattr_asdict rel : objs_pure (hasattr_asdict rel).
Proof.
  intros st1 st2 Hobjs. unfold hasattr_asdict.
  by rewrite (dictable_instance_same_objs st2 st1).
Qed.

Lemma objs_pure_underscore_keys props : objs_pure (underscore_keys props).
Proof.
  induction props as [|k props IH]; simpl; [done|].
  destruct (key k); [done|]. munfold. apply objs_pure_bind; [done|]. by intros.
Qed.

Lemma objs_pure_read_fields model keys exclude :
  objs_pure (read_fields model keys exclude).
Proof.
  induction keys as [|k keys IH]; simpl; [done|].
  destruct (mem k exclude); [done|]. munfold.
  apply objs_pure_bind; [apply objs_pure_getattr|]. intros v.
  apply objs_pure_bind; [done|]. by intros.
Qed.

Lemma objs_pure_pair_of v : objs_pure (pair_of v).
Proof. intros st1 st2 _. unfold pair_of. repeat case_match; done. Qed.

Lemma objs_pure_pairs_of vs : objs_pure (pairs_of vs).
Proof.
  induction vs as [|v vs IH]; simpl; [done|]. munfold.
  apply objs_pure_bind; [apply objs_pure_pair_of|]. intros kv.
  apply objs_pure_bind; [done|]. by intros.
Qed.

Lemma objs_pure_dict_child child : objs_pure (dict_child child).
Proof.
  destruct child as [| |s|o|l|l|d]; try done.
  - by destruct s.
  - simpl. munfold. apply objs_pure_bind; [apply objs_pure_pairs_of|]. by intros.
  - simpl. munfold. apply objs_pure_bind; [apply objs_pure_pairs_of|]. by intros.
Qed.

(** Without a list object from the caller the resolved list is the call's
    own. *)
Lemma resolve_exclude_fresh c exclude_underscore :
  objs_pure (resolve_exclude c None exclude_underscore)
  ∧ ∀ st ex st', resolve_exclude c None exclude_underscore st = (Ok ex, st') →
                 ∃ l, ex = Fresh l.
Proof.
  unfold resolve_exclude. munfold. split.
  - intros st1 st2 Hobjs. unfold bind. simpl.
    destruct (resolve_exclude_underscore c exclude_underscore); [|done].
    pose proof (objs_pure_underscore_keys (iterate_properties c) st1 st2 Hobjs) as Hks.
    pose proof (objs_pure_underscore_keys (iterate_properties c) st2 st2 eq_refl) as Hks2.
    destruct (underscore_keys (iterate_properties c) st2) as [[ks|e|] ?] eqn:Hrun;
      simpl in *; injection Hks2 as ->; by rewrite Hks.
  - intros st ex st'. unfold bind. simpl.
    destruct (resolve_exclude_underscore c exclude_underscore).
    + destruct (underscore_keys (iterate_properties c) st) as [[ks|e|] ?]; try done.
      simpl. intros [= <- _]. eauto.
    + intros [= <- _]. eauto.
Qed.

(** No bundle reached through [follow] passes an [exclude] list. *)
Fixpoint kw_no_lists (kw : kwargs) : Prop :=
  match kw with
  | Kwargs exclude _ _ _ follow _ =>
      exclude = None
      ∧ match follow with
        | FollowMap m =>
            (fix go (m : list (string * kwargs)) : Prop :=
               match m with
               | [] => True
               | (_, kw') :: m' => kw_no_lists kw' ∧ go m'
               end) m
        | _ => True
        end
  end.

Definition follow_no_lists (follow : follow_arg) : Prop :=
  kw_no_lists (Kwargs None None None None follow None).

Lemma follow_no_lists_elem m k kw :
  follow_no_lists (FollowMap m) → (k, kw) ∈ m → kw_no_lists kw.
Proof.
  intros [_ Hm]. induction m as [|[k' kw'] m IH]; [by intros ?%elem_of_nil|].
  destruct Hm as [Hkw Hm]. intros [[= -> ->]|Hin]%elem_of_cons; auto.
Qed.

Lemma normalize_follow_no_lists follow k kw :
  follow_no_lists follow → (k, ArgsKw kw) ∈ normalize_follow follow → kw_no_lists kw.
Proof.
  intros Hfollow. destruct follow as [|names|m]; unfold normalize_follow; simpl.
  - by intros ?%elem_of_nil.
  - destruct (dict_pairs_of_strings names) as [ps|] eqn:Hps.
    + intros Hin%dict_of_items.
      destruct (dict_pairs_of_strings_str _ _ _ _ Hps Hin); done.
    + unfold fromkeys. intros Hin%dict_of_items.
      apply list_elem_of_fmap in Hin as (? & [= _ ->] & _). done.
  - intros Hin%dict_of_items.
    apply list_elem_of_fmap in Hin as ([k' kw'] & [= -> ->] & Hin).
    by eapply follow_no_lists_elem.
Qed.

Section pure_asdict.
Variable rel_asdict : nat → args → M value.

Lemma objs_pure_asdict_children rel a :
  (∀ o, objs_pure (rel_asdict o a)) →
  objs_pure (asdict_children rel_asdict rel a).
Proof.
  intros Hrec. induction rel as [|child rel IH]; simpl; [done|]. munfold.
  apply objs_pure_bind; [apply objs_pure_hasattr_asdict|]. intros h.
  apply objs_pure_bind; [destruct h; [apply Hrec|apply objs_pure_dict_child]|].
  intros d. apply objs_pure_bind; [done|]. by intros.
Qed.

Lemma objs_pure_asdict_follow model relations follow data :
  (∀ k a, (k, a) ∈ follow → ∀ o, objs_pure (rel_asdict o a)) →
  objs_pure (asdict_follow rel_asdict model relations follow data).
Proof.
  revert data. induction follow as [|[k a] follow IH]; intros data Hrec; simpl; [done|].
  destruct (negb (mem k relations)); [done|]. munfold.
  assert (Ha : ∀ o, objs_pure (rel_asdict o a)) by (apply (Hrec k); left).
  apply objs_pure_bind; [apply objs_pure_getattr|]. intros rel.
  apply objs_pure_bind; [apply objs_pure_hasattr_asdict|]. intros h.
  apply objs_pure_bind.
  - destruct h; [apply objs_pure_bind; [apply Ha|by intros]|].
    destruct rel; try done.
    apply objs_pure_bind; [by apply objs_pure_asdict_children|by intros].
  - intros data'. apply IH. intros k' a' Hin. apply (Hrec k'). by right.
Qed.

Lemma objs_pure_asdict_body model exclude_underscore exclude_pk follow include :
  (∀ k a, (k, a) ∈ normalize_follow follow → ∀ o, objs_pure (rel_asdict o a)) →
  objs_pure (asdict_body rel_asdict model None exclude_underscore exclude_pk
               follow include).
Proof.
  intros Hrec. unfold asdict_body. munfold.
  apply objs_pure_bind; [apply objs_pure_class_of|]. intros c.
  destruct (resolve_exclude_fresh c exclude_underscore) as [Hpure Hfresh].
  apply (objs_pure_bind_post (λ ex, ∃ l, ex = Fresh l)); [done|done|].
  intros ex [l ->].
  apply (objs_pure_bind_post (λ ex, ∃ l, ex = Fresh l)).
  { destruct exclude_pk as [[]|]; done. }
  { intros st ex st'. destruct exclude_pk as [[]|]; intros [= <- _]; eauto. }
  intros ex' [l' ->].
  apply objs_pure_bind; [done|]. intros names.
  apply objs_pure_bind; [apply objs_pure_read_fields|]. intros kvs.
  apply objs_pure_bind; [by apply objs_pure_asdict_follow|]. by intros.
Qed.
End pure_asdict.

Lemma objs_pure_asdict_fuel n model exclude_underscore exclude_pk follow include :
  follow_no_lists follow →
  objs_pure (asdict_fuel n model None exclude_underscore exclude_pk follow include).
Proof.
  revert model exclude_underscore exclude_pk follow include.
  induction n as [|n IH]; intros ????? Hfollow; [done|]. simpl.
  apply objs_pure_asdict_body.
  intros k [[ex eu epk [apk|] fol inc]|s] Hin o; simpl; try done.
  apply normalize_follow_no_lists in Hin as [-> Hfol]; [|done].
  apply IH. by split.
Qed.

(** A call of [asdict] through a bundle that passes no list object, at any
    depth, changes nothing and returns what it returns in any state with the
    same instances. *)
Lemma objs_pure_call_asdict o kw :
  kw_no_lists kw → objs_pure (call_asdict asdict o (ArgsKw kw)).
Proof.
  destruct kw as [ex eu epk [apk|] fol inc]; intros [-> Hfol]; simpl; [done|].
  apply objs_pure_asdict_fuel. by split.
Qed.

(** ** Collections followed by asdict (lines 115-122) *)







(** The list object of the caller reaches the children when a bundle hands
    it on: employee 0 is serialised with [exclude_pk = True] and the list
    [["name"]], and the bundle for [reports] passes the same list, by then
    extended with ["_salary"] and ["id"]. *)
Example shared_exclude_list_reaches_children :
  (asdict 0 (Some 0) None (Some true)
     (FollowMap [("reports", Kwargs (Some 0) None None None FollowNone None)]) None
     world).1
  = Ok (VDict [("reports", VList [VDict []; VDict []])])
  ∧ (asdict 1 (Some 0) None None FollowNone None world).1 = Ok (VDict [("id", VInt 2)]).
Proof. split; vm_compute; reflexivity. Qed.

(** * Further properties *)

(** ** The metadata accessors (lines 11-50) *)

(** X2: [get_primary_key_properties] holds the key [k] exactly when some
    column property with that key has a column flagged as primary key;
    synonyms and relationships, which have no [columns], never contribute. *)
Theorem primary_key_properties_spec c k :
  k ∈ get_primary_key_properties c
  ↔ ∃ p columns col,
      p ∈ iterate_properties c ∧ key p = k ∧ kind p = ColumnProperty columns
      ∧ col ∈ columns ∧ primary_key col = true.
Proof. apply primary_key_elem. Qed.

(** ** What asdict and fromdict never touch *)

(** X5: whatever its arguments and its outcome, [asdict] changes no
    instance, and a list object of the store can only have gained elements
    at its end. *)
Theorem asdict_changes_no_instance model exclude exclude_underscore exclude_pk follow
    include st r st' :
  asdict model exclude exclude_underscore exclude_pk follow include st = (r, st') →
  objs st' = objs st ∧ lists_grow st st'.
Proof.
  intros Hrun. split.
  - by eapply asdict_fuel_same_objs.
  - by eapply asdict_fuel_lists_grow.
Qed.

(** The instances of the store and their classes. *)
Definition same_classes : relation state := λ st st',
  ∀ o, cls <$> objs st' !! o = cls <$> objs st !! o.

#[global] Instance same_classes_preorder : PreOrder same_classes.
Proof.
  split; [done|]. intros st1 st2 st3 H12 H23 o. by rewrite H23, H12.
Qed.

Lemma extend_same_classes exclude names : frames same_classes (extend exclude names).
Proof. intros st r st'. destruct exclude; intros [= _ <-]; done. Qed.

Lemma setattr_same_classes model k v : frames same_classes (setattr model k v).
Proof.
  intros st r st'. unfold setattr.
  destruct (objs st !! model) as [i|] eqn:Hi; [destruct (target (cls i) k)|];
    intros [= _ <-]; [|done|done].
  intros o. simpl. destruct (decide (model = o)) as [->|Hne].
  - by rewrite lookup_insert_eq, Hi.
  - by rewrite lookup_insert_ne.
Qed.

(** X15: whatever its arguments and its outcome, [fromdict] creates no
    instance, deletes none and changes the class of none; list objects can
    only have gained elements at their end. *)
Theorem fromdict_keeps_instances_and_classes model data exclude exclude_underscore
    allow_pk follow include st r st' :
  fromdict model data exclude exclude_underscore allow_pk follow include st = (r, st') →
  (∀ o, cls <$> objs st' !! o = cls <$> objs st !! o) ∧ lists_grow st st'.
Proof.
  intros Hrun. split.
  - eapply (frames_fromdict_fuel same_classes), Hrun;
      auto using extend_same_classes, setattr_same_classes.
  - by eapply fromdict_fuel_lists_grow.
Qed.

(** X6: when neither the call nor any bundle of its [follow] passes an
    [exclude] list, [asdict] leaves the whole store as it is, and its result
    is the same in every state that has the same instances. *)
Theorem asdict_without_lists_is_pure model exclude_underscore exclude_pk follow include
    st r st' :
  follow_no_lists follow →
  asdict model None exclude_underscore exclude_pk follow include st = (r, st') →
  st' = st
  ∧ ∀ st2, objs st2 = objs st →
           asdict model None exclude_underscore exclude_pk follow include st2 = (r, st2).
Proof.
  intros Hfollow Hrun.
  pose proof (objs_pure_asdict_fuel (S (depth_follow follow)) model exclude_underscore
                exclude_pk follow include Hfollow) as Hpure.
  fold (asdict model None exclude_underscore exclude_pk follow include) in Hpure.
  pose proof (Hpure st st eq_refl) as Hst. rewrite Hrun in Hst. injection Hst as ->.
  split; [done|]. intros st2 Hobjs. by rewrite (Hpure st2 st Hobjs), Hrun.
Qed.

Lemma asdict_without_lists_is_pure_witness :
  asdict 0 None None None (FollowMap [("reports", no_kwargs); ("hq", no_kwargs)])
    None {| objs := objs world; lists := ∅ |}
  = (Ok (VDict [("id", VInt 1); ("name", VStr "ann");
                ("reports", VList [VDict [("id", VInt 2); ("name", VStr "bob")];
                                   VDict [("id", VInt 3); ("name", VStr "cyd")]]);
                ("hq", VDict [("id", VInt 7); ("city", VStr "oslo")])]),
     {| objs := objs world; lists := ∅ |}).
Proof.
  apply (asdict_without_lists_is_pure 0 None None
           (FollowMap [("reports", no_kwargs); ("hq", no_kwargs)]) None world _ world).
  - vm_compute. tauto.
  - vm_compute. reflexivity.
  - reflexivity.
Defined.

(** ** The fields asdict reads (lines 84-105) *)

(** The run of everything before the loop over [follow], on a live
    instance whose class has no empty key. *)
Lemma asdict_base_run model i exclude exclude_underscore exclude_pk include st :
  objs st !! model = Some i →
  keys_nonempty (cls i) →
  ∃ st2,
    objs st2 = objs st
    ∧ asdict_base model exclude exclude_underscore exclude_pk include st
      = bind (read_fields model
                (get_column_keys (cls i) ++ get_synonym_keys (cls i)
                   ++ or_nil include ++ or_nil (dictalchemy_asdict_include (cls i)))
                (given_exclude st exclude ++ added_exclude (cls i) exclude_underscore
                   ++ added_pk (cls i) exclude_pk))
             (λ kvs, ret (cls i, dict_of kvs)) st2.
Proof.
  intros Hi Hne. unfold asdict_base. munfold.
  unfold bind at 1, class_of. rewrite Hi.
  destruct (resolve_exclude_total (cls i) exclude exclude_underscore st Hne)
    as (ex & st1 & Hres).
  pose proof (resolve_exclude_Ok _ _ _ _ _ _ Hres) as [Hex Hobjs1].
  unfold bind at 1. rewrite Hres.
  set (pk := match exclude_pk with Some true => _ | _ => _ end).
  assert (∃ ex2 st2, pk st1 = (Ok ex2, st2) ∧ objs st2 = objs st1
                     ∧ list_of ex2 st2 = list_of ex st1 ++ added_pk (cls i) exclude_pk)
    as (ex2 & st2 & Hpk & Hobjs2 & Hex2).
  { unfold pk, added_pk. destruct exclude_pk as [[]|];
      try (exists ex, st1; by rewrite app_nil_r).
    destruct (extend_list_of ex (elements (get_primary_key_properties (cls i))) st1)
      as (ex2 & st2 & ? & ? & ?). by exists ex2, st2. }
  unfold bind at 1. rewrite Hpk. exists st2. split; [congruence|].
  unfold bind at 1.
  assert (contents ex2 st2 = (Ok (list_of ex2 st2), st2)) as -> by (by destruct ex2).
  by rewrite Hex2, Hex, <- app_assoc.
Qed.

(** X7: outside the keys of [follow], the mapping [asdict] returns is
    exactly the attributes of the instance, as [getattr] finds them,
    restricted to the columns, synonyms and included names that no exclusion
    rule covers: such a name maps to the value of the attribute, unchanged,
    and no other name is a key. *)
Theorem asdict_mapping_outside_follow model i exclude exclude_underscore exclude_pk
    follow include st d st' k :
  objs st !! model = Some i →
  asdict model exclude exclude_underscore exclude_pk follow include st
    = (Ok (VDict d), st') →
  k ∉ (normalize_follow follow).*1 →
  let fields := get_column_keys (cls i) ++ get_synonym_keys (cls i)
                  ++ or_nil include ++ or_nil (dictalchemy_asdict_include (cls i)) in
  let excluded := given_exclude st exclude ++ added_exclude (cls i) exclude_underscore
                    ++ added_pk (cls i) exclude_pk in
  (k ∈ fields ∧ k ∉ excluded →
   is_Some (attr_of st model k) ∧ dict_get k d = attr_of st model k)
  ∧ (k ∉ fields ∨ k ∈ excluded → dict_get k d = None).
Proof.
  intros Hi Hrun Hfollow fields excluded. split.
  - intros [Hfield Hex].
    destruct (asdict_field_present _ _ _ _ _ _ _ _ _ _ _ Hi Hrun Hfield Hex Hfollow)
      as (v & Hget & Hv).
    rewrite Hget, Hv. eauto.
  - intros [Hfield|Hex]; apply dict_get_None.
    + eapply asdict_not_field_absent; eauto.
    + eapply asdict_excluded_absent; eauto.
Qed.

Lemma asdict_mapping_outside_follow_witness :
  dict_get "name" [("id", VInt 1); ("name", VStr "ann");
                   ("hq", VDict [("id", VInt 7); ("city", VStr "oslo")])]
  = Some (VStr "ann")
  ∧ dict_get "_salary" [("id", VInt 1); ("name", VStr "ann");
                        ("hq", VDict [("id", VInt 7); ("city", VStr "oslo")])]
    = None.
Proof.
  pose (ann := new Employee [("id", VInt 1); ("name", VStr "ann"); ("_salary", VInt 10);
                             ("boss", VNone); ("reports", VColl [VObj 1; VObj 2]);
                             ("hq", VObj 3)]).
  split.
  - destruct (asdict_mapping_outside_follow 0 ann None None None
                (FollowMap [("hq", no_kwargs)]) None world
                [("id", VInt 1); ("name", VStr "ann");
                 ("hq", VDict [("id", VInt 7); ("city", VStr "oslo")])] world "name")
      as [Hin _].
    + vm_compute. reflexivity.
    + vm_compute. reflexivity.
    + apply (bool_decide_unpack _). vm_compute. exact I.
    + destruct Hin as [_ ->]; [|vm_compute; reflexivity].
      split; apply (bool_decide_unpack _); vm_compute; exact I.
  - destruct (asdict_mapping_outside_follow 0 ann None None None
                (FollowMap [("hq", no_kwargs)]) None world
                [("id", VInt 1); ("name", VStr "ann");
                 ("hq", VDict [("id", VInt 7); ("city", VStr "oslo")])] world "_salary")
      as [_ Hout].
    + vm_compute. reflexivity.
    + vm_compute. reflexivity.
    + apply (bool_decide_unpack _). vm_compute. exact I.
    + apply Hout. right. apply (bool_decide_unpack _). vm_compute. exact I.
Defined.

Lemma read_fields_missing model keys exclude st k :
  (∀ k0, resolves st model k0 = true) →
  k ∈ keys → k ∉ exclude → attr_of st model k = None →
  read_fields model keys exclude st = (Raise AttributeError, st).
Proof.
  intros Hres Hk Hex Hattr.
  induction keys as [|k0 keys IH]; [by apply elem_of_nil in Hk|].
  simpl. unfold mem. apply elem_of_cons in Hk as [<-|Hk].
  - rewrite bool_decide_eq_false_2 by done. munfold. unfold bind, getattr.
    by rewrite Hattr, Hres.
  - case_bool_decide; [by apply IH|]. munfold. unfold bind at 1, getattr.
    destruct (attr_of st model k0); [|by rewrite Hres].
    unfold bind. by rewrite IH.
Qed.

(** X8: a column, synonym or included name that no exclusion rule covers
    and for which [getattr] finds no attribute on the instance makes
    [asdict] raise [AttributeError], whatever [follow] is (the fields are
    read before the loop over [follow] starts); no instance is changed.
    (No chain of synonyms runs in a circle: that would be a
    [RuntimeError].) *)
Theorem asdict_missing_attribute model i exclude exclude_underscore exclude_pk follow
    include st k :
  objs st !! model = Some i →
  keys_nonempty (cls i) →
  synonyms_resolve (cls i) →
  k ∈ get_column_keys (cls i) ++ get_synonym_keys (cls i)
        ++ or_nil include ++ or_nil (dictalchemy_asdict_include (cls i)) →
  k ∉ given_exclude st exclude ++ added_exclude (cls i) exclude_underscore
        ++ added_pk (cls i) exclude_pk →
  attr_of st model k = None →
  ∃ st', asdict model exclude exclude_underscore exclude_pk follow include st
           = (Raise AttributeError, st')
         ∧ objs st' = objs st.
Proof.
  intros Hi Hne Hsyn Hfield Hex Hattr.
  destruct (asdict_base_run model i exclude exclude_underscore exclude_pk include st Hi Hne)
    as (st2 & Hobjs2 & Hbase).
  exists st2. split; [|done].
  rewrite asdict_split. unfold bind at 1. rewrite Hbase.
  unfold bind at 1. rewrite (read_fields_missing _ _ _ _ k); try done.
  - intros k0. unfold resolves. rewrite Hobjs2, Hi.
    by apply bool_decide_eq_true_2, target_total.
  - unfold attr_of in *. by rewrite Hobjs2.
Qed.

Lemma asdict_missing_attribute_witness :
  ∃ st', asdict 0 None None None (FollowSeq ["reports"]) (Some ["full_name"]) world
           = (Raise AttributeError, st')
         ∧ objs st' = objs world.
Proof.
  apply (asdict_missing_attribute 0
           (new Employee [("id", VInt 1); ("name", VStr "ann"); ("_salary", VInt 10);
                          ("boss", VNone); ("reports", VColl [VObj 1; VObj 2]);
                          ("hq", VObj 3)])
           None None None (FollowSeq ["reports"]) (Some ["full_name"]) world "full_name").
  - vm_compute. reflexivity.
  - simpl. repeat constructor; done.
  - unfold synonyms_resolve. apply (bool_decide_unpack _). vm_compute. exact I.
  - apply (bool_decide_unpack _). vm_compute. exact I.
  - apply (bool_decide_unpack _). vm_compute. exact I.
  - vm_compute. reflexivity.
Defined.

Lemma asdict_returns_witness :
  ∃ d st', asdict 0 (Some 0) None (Some true) FollowNone None world = (Ok (VDict d), st').
Proof.
  apply (asdict_returns 0
           (new Employee [("id", VInt 1); ("name", VStr "ann"); ("_salary", VInt 10);
                          ("boss", VNone); ("reports", VColl [VObj 1; VObj 2]);
                          ("hq", VObj 3)])).
  - vm_compute. reflexivity.
  - simpl. repeat constructor; done.
  - intros k Hk. vm_compute in Hk.
    repeat (apply elem_of_cons in Hk as [-> | Hk]; [vm_compute; eauto|]).
    by apply elem_of_nil in Hk.
Defined.

(** ** exclude_pk (lines 94-95) *)

Lemma read_fields_more_excluded model keys exclude more st kvs st2 :
  read_fields model keys exclude st = (Ok kvs, st) →
  objs st2 = objs st →
  read_fields model keys (exclude ++ more) st2
  = (Ok (filter (λ kv, kv.1 ∉ more) kvs), st2).
Proof.
  intros Hrun Hobjs. revert kvs Hrun.
  induction keys as [|k keys IH]; intros kvs; simpl.
  { by intros [= <-]. }
  unfold mem. case_bool_decide as Hk.
  - rewrite bool_decide_eq_true_2 by (apply elem_of_app; by left). apply IH.
  - munfold.
    intros (v & st1 & [Hv ->]%getattr_Ok & (kvs' & st1' & Hrest & [= <- _])%bind_Ok)%bind_Ok.
    pose proof (read_fields_Ok _ _ _ _ _ _ Hrest) as (-> & _).
    rewrite filter_cons. simpl. case_bool_decide as Hk'.
    + apply elem_of_app in Hk' as [?|Hk']; [done|].
      rewrite decide_False by auto. by apply IH.
    + rewrite decide_True by (intros ?; apply Hk', elem_of_app; by right).
      unfold bind at 1, getattr. rewrite (attr_of_same_objs st st2), Hv by done.
      unfold bind. rewrite (IH _ Hrest). done.
Qed.

Lemma dict_set_filter_keep (Q : string → Prop) `{!∀ k, Decision (Q k)} k v
    (d : list (string * value)) :
  Q k → dict_set k v (filter (λ kv, Q kv.1) d) = filter (λ kv, Q kv.1) (dict_set k v d).
Proof.
  intros Hk. induction d as [|[k0 v0] d IH]; simpl.
  - rewrite filter_cons. simpl. by rewrite decide_True.
  - rewrite !filter_cons. simpl. destruct (decide (k = k0)) as [->|Hne].
    + rewrite decide_True by done. simpl. rewrite decide_True by done.
      rewrite filter_cons. simpl. by rewrite decide_True.
    + rewrite filter_cons. simpl. destruct (decide (Q k0)); simpl.
      * rewrite decide_False by done. by rewrite IH.
      * apply IH.
Qed.

Lemma dict_set_filter_drop (Q : string → Prop) `{!∀ k, Decision (Q k)} k v
    (d : list (string * value)) :
  ¬ Q k → filter (λ kv, Q kv.1) (dict_set k v d) = filter (λ kv, Q kv.1) d.
Proof.
  intros Hk. induction d as [|[k0 v0] d IH]; simpl.
  - rewrite filter_cons. simpl. by rewrite decide_False.
  - destruct (decide (k = k0)) as [->|Hne].
    + rewrite !filter_cons. simpl. by rewrite !decide_False.
    + rewrite !filter_cons. simpl. by rewrite IH.
Qed.

Lemma dict_of_filter (Q : string → Prop) `{!∀ k, Decision (Q k)}
    (kvs : list (string * value)) :
  dict_of (filter (λ kv, Q kv.1) kvs) = filter (λ kv, Q kv.1) (dict_of kvs).
Proof.
  unfold dict_of.
  change (@nil (string * value)) with (filter (λ kv : string * value, Q kv.1) []) at 1.
  generalize (@nil (string * value)).
  induction kvs as [|[k v] kvs IH]; intros acc; simpl; [done|].
  rewrite filter_cons. simpl. destruct (decide (Q k)); simpl.
  - rewrite dict_set_filter_keep by done. apply IH.
  - rewrite <- (dict_set_filter_drop Q k v acc) by done. apply IH.
Qed.

(** X9: without [follow], the mapping returned with [exclude_pk = True] is
    the mapping returned without [exclude_pk], less the entries of the
    primary keys; and only [True] itself has this effect: [exclude_pk = False]
    runs as no [exclude_pk] at all. *)
Theorem exclude_pk_drops_primary_keys model i exclude exclude_underscore include st d
    st1 :
  objs st !! model = Some i →
  keys_nonempty (cls i) →
  asdict model exclude exclude_underscore None FollowNone include st
    = (Ok (VDict d), st1) →
  (∃ st1',
     asdict model exclude exclude_underscore (Some true) FollowNone include st
     = (Ok (VDict (filter (λ kv, kv.1 ∉ get_primary_key_properties (cls i)) d)), st1'))
  ∧ asdict model exclude exclude_underscore (Some false) FollowNone include st
    = (Ok (VDict d), st1).
Proof.
  intros Hi Hne Hrun. split; [|exact Hrun].
  destruct (asdict_base_run model i exclude exclude_underscore None include st Hi Hne)
    as (st2 & Hobjs2 & Hbase).
  destruct (asdict_base_run model i exclude exclude_underscore (Some true) include st
              Hi Hne) as (st2' & Hobjs2' & Hbase').
  rewrite asdict_split in Hrun. unfold bind at 1 in Hrun. rewrite Hbase in Hrun.
  destruct (read_fields model
              (get_column_keys (cls i) ++ get_synonym_keys (cls i)
                 ++ or_nil include ++ or_nil (dictalchemy_asdict_include (cls i)))
              (given_exclude st exclude ++ added_exclude (cls i) exclude_underscore
                 ++ added_pk (cls i) None) st2) as [[kvs|e|] st3] eqn:Hread;
    unfold bind at 1 in Hrun; rewrite Hread in Hrun; try done.
  simpl in Hrun. injection Hrun as <- <-.
  pose proof (read_fields_Ok _ _ _ _ _ _ Hread) as (-> & _).
  exists st2'. rewrite asdict_split. unfold bind at 1. rewrite Hbase'.
  simpl added_pk in Hread. rewrite app_nil_r in Hread.
  assert (given_exclude st exclude ++ added_exclude (cls i) exclude_underscore
            ++ added_pk (cls i) (Some true)
          = (given_exclude st exclude ++ added_exclude (cls i) exclude_underscore)
              ++ elements (get_primary_key_properties (cls i))) as ->
    by (simpl; by rewrite app_assoc).
  unfold bind at 1.
  rewrite (read_fields_more_excluded _ _ _ _ _ _ st2' Hread) by congruence.
  rewrite normalize_follow_FollowNone.
  pose proof (dict_of_filter (λ k, k ∉ elements (get_primary_key_properties (cls i))) kvs)
    as Hfilter. cbv beta in Hfilter. rewrite Hfilter.
  rewrite (list_filter_iff _ (λ kv, kv.1 ∉ get_primary_key_properties (cls i)));
    [done|].
  intros [k v]. simpl. by rewrite elem_of_elements.
Qed.

Lemma exclude_pk_drops_primary_keys_witness :
  (∃ st1', asdict 0 None None (Some true) FollowNone None world
           = (Ok (VDict (filter (λ kv, kv.1 ∉ get_primary_key_properties Employee)
                                [("id", VInt 1); ("name", VStr "ann")])), st1'))
  ∧ asdict 0 None None (Some false) FollowNone None world
    = (Ok (VDict [("id", VInt 1); ("name", VStr "ann")]), world).
Proof.
  apply (exclude_pk_drops_primary_keys 0
           (new Employee [("id", VInt 1); ("name", VStr "ann"); ("_salary", VInt 10);
                          ("boss", VNone); ("reports", VColl [VObj 1; VObj 2]);
                          ("hq", VObj 3)])
           None None None world).
  - vm_compute. reflexivity.
  - simpl. repeat constructor; done.
  - vm_compute. reflexivity.
Defined.

(** ** Keys that cannot be indexed (lines 92-93 and 172-173) *)

Lemma underscore_keys_empty props st :
  Exists (λ p, key p = "") props → underscore_keys props st = (Raise IndexError, st).
Proof.
  induction 1 as [p props Hp|p props _ IH]; simpl.
  - by rewrite Hp.
  - destruct (key p); [done|]. munfold. unfold bind. by rewrite IH.
Qed.

(** X10: the underscore test reads the first character of every key of the
    mapper.  If some key is the empty string and [exclude_underscore]
    resolves true, [asdict] and [fromdict] raise [IndexError] before they
    read or write any attribute; no instance is changed. *)
Theorem empty_key_raises_IndexError model i exclude exclude_underscore st :
  objs st !! model = Some i →
  resolve_exclude_underscore (cls i) exclude_underscore = true →
  Exists (λ p, key p = "") (iterate_properties (cls i)) →
  (∀ exclude_pk follow include,
     ∃ st', asdict model exclude exclude_underscore exclude_pk follow include st
              = (Raise IndexError, st')
            ∧ objs st' = objs st)
  ∧ (∀ data allow_pk follow include,
       ∃ st', fromdict model data exclude exclude_underscore allow_pk follow include st
                = (Raise IndexError, st')
              ∧ objs st' = objs st).
Proof.
  intros Hi Heu Hempty.
  assert (∃ st1, resolve_exclude (cls i) exclude exclude_underscore st
                 = (Raise IndexError, st1) ∧ objs st1 = objs st) as (st1 & Hres & Hobjs).
  { unfold resolve_exclude. munfold. unfold bind at 1.
    destruct (or_fresh_list_of exclude st) as (ex0 & -> & _).
    destruct (extend_list_of ex0 (or_nil (default default_exclude
                                            (dictalchemy_exclude (cls i)))) st)
      as (ex1 & st1 & Hext & _ & Hobjs).
    unfold bind at 1. rewrite Hext, Heu. unfold bind.
    rewrite underscore_keys_empty by done. by exists st1. }
  split.
  - intros exclude_pk follow include. exists st1. split; [|done].
    unfold asdict. simpl. unfold asdict_body. munfold.
    unfold bind at 1, class_of. rewrite Hi. unfold bind at 1. by rewrite Hres.
  - intros data allow_pk follow include. exists st1. split; [|done].
    unfold fromdict. simpl. unfold fromdict_body. munfold.
    unfold bind at 1, class_of. rewrite Hi. unfold bind at 1. by rewrite Hres.
Qed.

Lemma empty_key_raises_IndexError_witness :
  (∃ st', asdict 0 None None None FollowNone None
            {| objs := {[ 0 := new (plain_class [column_property "" false])
                                   [("", VInt 1)] ]};
               lists := ∅ |} = (Raise IndexError, st')
          ∧ objs st' = {[ 0 := new (plain_class [column_property "" false])
                                   [("", VInt 1)] ]})
  ∧ (∃ st', fromdict 0 (VDict []) None None None FollowNone None
              {| objs := {[ 0 := new (plain_class [column_property "" false])
                                     [("", VInt 1)] ]};
                 lists := ∅ |} = (Raise IndexError, st')
            ∧ objs st' = {[ 0 := new (plain_class [column_property "" false])
                                     [("", VInt 1)] ]}).
Proof.
  destruct (empty_key_raises_IndexError 0
              (new (plain_class [column_property "" false]) [("", VInt 1)]) None None
              {| objs := {[ 0 := new (plain_class [column_property "" false])
                                     [("", VInt 1)] ]};
                 lists := ∅ |}) as [Hasdict Hfromdict].
  - vm_compute. reflexivity.
  - reflexivity.
  - simpl. left. reflexivity.
  - split; [apply Hasdict|apply Hfromdict].
Defined.

(** ** More on the simple updates of fromdict (lines 163-194) *)

Lemma assign_no_field c fields items m :
  (∀ k, k ∈ items.*1 → k ∉ fields) → assign c fields items m = m.
Proof.
  revert m. induction items as [|[k0 v0] items IH]; intros m Hk; [done|].
  rewrite assign_cons. unfold mem. rewrite bool_decide_eq_false_2.
  - apply IH. intros k ?. apply Hk. by right.
  - apply Hk. left.
Qed.

(** The run of [fromdict], on a dict and a live instance whose class has no
    empty key, up to its two loops. *)
Lemma fromdict_prefix model i exclude exclude_underscore st :
  objs st !! model = Some i →
  keys_nonempty (cls i) →
  ∃ st1,
    objs st1 = objs st
    ∧ ∀ items allow_pk follow include,
        fromdict model (VDict items) exclude exclude_underscore allow_pk follow include st
        = bind (update_simple model (resolve_allow_pk (cls i) allow_pk)
                  (get_primary_key_properties (cls i))
                  (get_column_keys (cls i) ++ get_synonym_keys (cls i)
                     ++ or_nil include ++ or_nil (dictalchemy_fromdict_include (cls i)))
                  items)
               (λ _, fromdict_follow (call_fromdict fromdict) model
                       (get_relation_keys (cls i)) items (normalize_follow follow)) st1.
Proof.
  intros Hi Hne.
  destruct (resolve_exclude_total (cls i) exclude exclude_underscore st Hne)
    as (ex & st1 & Hres).
  pose proof (resolve_exclude_Ok _ _ _ _ _ _ Hres) as [_ Hobjs1].
  exists st1. split; [done|]. intros items allow_pk follow include.
  rewrite fromdict_unfold. unfold fromdict_body. munfold.
  unfold bind at 1, class_of. rewrite Hi.
  unfold bind at 1. rewrite Hres. done.
Qed.

Lemma update_simple_stops model primary_keys fields applied k v rest st i :
  objs st !! model = Some i →
  Forall (λ kv, kv.1 ∉ primary_keys) applied →
  Forall (λ kv, kv.1 ∈ fields → is_Some (target (cls i) kv.1)) applied →
  k ∈ primary_keys →
  update_simple model false primary_keys fields (applied ++ (k, v) :: rest) st
  = (Raise Exception, set_attrs st model i (assign (cls i) fields applied (attrs i))).
Proof.
  intros Hi Happlied Hres Hk. revert st i Hi Hres.
  induction Happlied as [|[k0 v0] applied Hk0 _ IH]; intros st i Hi Hres.
  { simpl. rewrite bool_decide_eq_true_2 by done. simpl. by rewrite set_attrs_id. }
  apply Forall_cons in Hres as [Ht Hres]. simpl in Ht, Hk0.
  rewrite assign_cons. simpl.
  rewrite bool_decide_eq_false_2 by done. simpl. munfold.
  unfold bind at 1. unfold mem. destruct (decide (k0 ∈ fields)) as [Hf|Hf].
  - rewrite !bool_decide_eq_true_2 by done. destruct (Ht Hf) as [t Ht'].
    unfold setattr. rewrite Hi, Ht'.
    erewrite IH; [|simpl; by rewrite lookup_insert_eq|done]. simpl. f_equal.
    unfold set_attrs. simpl. by rewrite insert_insert_eq.
  - rewrite !bool_decide_eq_false_2 by done. simpl. by apply IH.
Qed.

(** X12: [fromdict] does not roll back.  When [allow_pk] resolves false and
    [data] yields its items in the order [applied], then the primary key
    [k], then [rest], the call raises the protection error with the items of
    [applied] assigned and nothing else changed, whatever [rest] and
    [follow] are.  A synonym writes the attribute it stands for: a column,
    synonym or included name of [applied] holds its new value when no other
    such name of [applied] ends at the same attribute, and an attribute that
    no such name of [applied] ends at holds its old value. *)
Theorem fromdict_is_not_atomic model i applied k v rest exclude exclude_underscore
    allow_pk follow include st :
  objs st !! model = Some i →
  keys_nonempty (cls i) →
  synonyms_resolve (cls i) →
  NoDup (applied ++ (k, v) :: rest).*1 →
  resolve_allow_pk (cls i) allow_pk = false →
  (∀ k', k' ∈ applied.*1 → k' ∉ get_primary_key_properties (cls i)) →
  k ∈ get_primary_key_properties (cls i) →
  let fields := get_column_keys (cls i) ++ get_synonym_keys (cls i)
                  ++ or_nil include ++ or_nil (dictalchemy_fromdict_include (cls i)) in
  ∃ st',
    fromdict model (VDict (applied ++ (k, v) :: rest)) exclude exclude_underscore
      allow_pk follow include st = (Raise Exception, st')
    ∧ (∀ k' v', (k', v') ∈ applied → k' ∈ fields →
                (∀ k'', k'' ∈ applied.*1 → k'' ≠ k' → k'' ∈ fields →
                        target (cls i) k'' ≠ target (cls i) k') →
                attr_of st' model k' = Some v')
    ∧ (∀ k', (∀ k'', k'' ∈ applied.*1 → k'' ∈ fields →
                     target (cls i) k'' ≠ target (cls i) k') →
             attr_of st' model k' = attr_of st model k')
    ∧ (∀ o, o ≠ model → objs st' !! o = objs st !! o).
Proof.
  intros Hi Hne Hsyn Hnd Hallow Happlied Hk fields.
  destruct (fromdict_prefix model i exclude exclude_underscore st Hi Hne)
    as (st1 & Hobjs1 & Hrun).
  assert (objs st1 !! model = Some i) as Hi1 by (by rewrite Hobjs1).
  rewrite Hrun, Hallow. unfold bind.
  rewrite (update_simple_stops _ _ _ _ _ _ _ _ i); [|done| | |done].
  2:{ apply Forall_forall. intros [k' v'] Hin. apply Happlied.
      by apply (list_elem_of_fmap_2 fst _ (k', v')). }
  2:{ apply Forall_forall. intros kv _ _. by apply target_total. }
  eexists. split; [done|]. split; [|split].
  - intros k' v' Hin Hfield Hnames. rewrite attr_of_set_attrs.
    destruct (target_total (cls i) k' Hsyn) as [t Ht]. rewrite Ht. simpl.
    apply (assign_assigned _ _ _ _ k' v' t); try done.
    + rewrite fmap_app in Hnd. by apply NoDup_app in Hnd as (? & _ & _).
    + intros k'' Hk'' Hne'' Hf'' Ht''. apply (Hnames k''); try done; congruence.
  - intros k' Hnames. rewrite attr_of_set_attrs, (attr_of_live _ _ _ _ Hi).
    destruct (target (cls i) k') as [t|] eqn:Ht; [|done]. simpl.
    apply assign_not_assigned. intros k'' Hk'' Hf'' Ht''.
    apply (Hnames k''); try done; congruence.
  - intros o Ho. unfold set_attrs. simpl. rewrite lookup_insert_ne by done.
    by rewrite Hobjs1.
Qed.

Lemma fromdict_is_not_atomic_witness :
  ∃ st',
    fromdict 0 (VDict [("number", VInt 9); ("id", VInt 5); ("owner", VStr "zoe")])
      None None None FollowNone None bank = (Raise Exception, st')
    ∧ attr_of st' 0 "number" = Some (VInt 9)
    ∧ attr_of st' 0 "owner" = attr_of bank 0 "owner".
Proof.
  destruct (fromdict_is_not_atomic 0
              (new Account [("id", VInt 1); ("owner", VStr "ann"); ("_pin", VInt 1234)])
              [("number", VInt 9)] "id" (VInt 5) [("owner", VStr "zoe")]
              None None None FollowNone None bank)
    as (st' & Hrun & Hset & Hkept & _).
  - vm_compute. reflexivity.
  - simpl. repeat constructor; done.
  - unfold synonyms_resolve. apply (bool_decide_unpack _). vm_compute. exact I.
  - apply (bool_decide_unpack _). vm_compute. exact I.
  - reflexivity.
  - intros k' Hk'. apply (bool_decide_unpack _).
    apply list_elem_of_singleton in Hk' as ->. vm_compute. exact I.
  - apply (bool_decide_unpack _). vm_compute. exact I.
  - exists st'. split; [exact Hrun|]. split.
    + apply Hset; [left| |].
      * apply (bool_decide_unpack _). vm_compute. exact I.
      * intros k'' Hk''. apply list_elem_of_singleton in Hk'' as ->. done.
    + apply Hkept. intros k'' Hk'' _. apply list_elem_of_singleton in Hk'' as ->.
      vm_compute. congruence.
Defined.

(** X13: when no key of [follow] is a key of [data] (and no chain of
    synonyms runs in a circle), [fromdict] writes to the instance it is
    called on only, and there only to the attributes that the columns,
    synonyms and included names among the keys of [data] end at: whatever
    the outcome, every other instance and every other attribute is as
    before. *)
Theorem fromdict_writes_only_named_fields model i items exclude exclude_underscore
    allow_pk follow include st r st' :
  objs st !! model = Some i →
  keys_nonempty (cls i) →
  synonyms_resolve (cls i) →
  (∀ f, f ∈ (normalize_follow follow).*1 → f ∉ items.*1) →
  fromdict model (VDict items) exclude exclude_underscore allow_pk follow include st
    = (r, st') →
  let fields := get_column_keys (cls i) ++ get_synonym_keys (cls i)
                  ++ or_nil include ++ or_nil (dictalchemy_fromdict_include (cls i)) in
  (∀ o, o ≠ model → objs st' !! o = objs st !! o)
  ∧ (∀ k, (∀ k', k' ∈ items.*1 → k' ∈ fields → target (cls i) k' ≠ target (cls i) k) →
          attr_of st' model k = attr_of st model k).
Proof.
  intros Hi Hne Hsyn Hfollow Hrun fields.
  destruct (fromdict_run model i items exclude exclude_underscore allow_pk follow
              include st Hi Hne)
    as (st1 & applied & rest & Hobjs1 & _ & Hitems & _ & _ & Hrun').
  { apply Forall_forall. intros kv _ _. by apply target_total. }
  rewrite Hrun in Hrun'.
  assert (st' = set_attrs st1 model i
                  (assign (cls i) fields applied (attrs i))) as ->.
  { destruct rest; [|by injection Hrun' as _ ->].
    rewrite fromdict_follow_skip in Hrun' by done. by injection Hrun' as _ ->. }
  split.
  - intros o Ho. unfold set_attrs. simpl. rewrite lookup_insert_ne by done.
    by rewrite Hobjs1.
  - intros k Hnames. rewrite attr_of_set_attrs, (attr_of_live _ _ _ _ Hi).
    destruct (target (cls i) k) as [t|] eqn:Ht; [|done]. simpl.
    apply assign_not_assigned. intros k' Hk' Hf' Ht'.
    apply (Hnames k'); [|done|congruence].
    rewrite Hitems, fmap_app. apply elem_of_app. by left.
Qed.

Lemma fromdict_writes_only_named_fields_witness :
  objs (fromdict 0 (VDict [("number", VInt 9)]) None None (Some true)
          (FollowSeq ["owner"]) None bank).2 !! 1 = objs bank !! 1
  ∧ attr_of (fromdict 0 (VDict [("number", VInt 9)]) None None (Some true)
               (FollowSeq ["owner"]) None bank).2 0 "owner" = attr_of bank 0 "owner".
Proof.
  destruct (fromdict_writes_only_named_fields 0
              (new Account [("id", VInt 1); ("owner", VStr "ann"); ("_pin", VInt 1234)])
              [("number", VInt 9)] None None (Some true) (FollowSeq ["owner"]) None bank
              (fromdict 0 (VDict [("number", VInt 9)]) None None (Some true)
                 (FollowSeq ["owner"]) None bank).1
              (fromdict 0 (VDict [("number", VInt 9)]) None None (Some true)
                 (FollowSeq ["owner"]) None bank).2) as [Hothers Hattrs].
  - vm_compute. reflexivity.
  - simpl. repeat constructor; done.
  - unfold synonyms_resolve. apply (bool_decide_unpack _). vm_compute. exact I.
  - intros f Hf. apply (bool_decide_unpack _).
    vm_compute in Hf. apply list_elem_of_singleton in Hf as ->. vm_compute. exact I.
  - apply surjective_pairing.
  - split; [by apply Hothers|]. apply Hattrs.
    intros k' Hk' _. apply list_elem_of_singleton in Hk' as ->. vm_compute. congruence.
Defined.

(** X11: keys of [data] that are no column, no synonym and no included
    name are ignored without error: if [data] has only such keys (or none at
    all) and [follow] names none of them, [fromdict] returns and no instance
    has changed. *)
Theorem fromdict_ignores_unknown_keys model i items exclude exclude_underscore allow_pk
    follow include st :
  objs st !! model = Some i →
  keys_nonempty (cls i) →
  (∀ k, k ∈ items.*1 →
        k ∉ get_column_keys (cls i) ++ get_synonym_keys (cls i)
              ++ or_nil include ++ or_nil (dictalchemy_fromdict_include (cls i))) →
  (∀ f, f ∈ (normalize_follow follow).*1 → f ∉ items.*1) →
  ∃ st', fromdict model (VDict items) exclude exclude_underscore allow_pk follow
           include st = (Ok (), st')
         ∧ objs st' = objs st.
Proof.
  intros Hi Hne Hunknown Hfollow.
  destruct (fromdict_run model i items exclude exclude_underscore allow_pk follow
              include st Hi Hne)
    as (st1 & applied & rest & Hobjs1 & _ & Hitems & _ & Hrest & ->).
  { apply Forall_forall. intros [k v] Hin Hf. destruct (Hunknown k); [|done].
    by apply (list_elem_of_fmap_2 fst _ (k, v)). }
  destruct rest as [|[k v] rest].
  - rewrite fromdict_follow_skip by done. eexists. split; [done|].
    unfold set_attrs. simpl. rewrite Hobjs1, assign_no_field.
    + destruct i. by apply insert_id.
    + intros k Hk. apply Hunknown. rewrite Hitems, fmap_app.
      apply elem_of_app. by left.
  - exfalso. destruct Hrest as [_ Hk]. apply (Hunknown k).
    + rewrite Hitems, fmap_app. apply elem_of_app. right. left.
    + apply elem_of_app. left. by apply primary_key_is_column.
Qed.

Lemma fromdict_ignores_unknown_keys_witness :
  ∃ st', fromdict 0 (VDict [("nickname", VStr "zed"); ("reports", VList [])]) None None
           None FollowNone None world = (Ok (), st')
         ∧ objs st' = objs world.
Proof.
  apply (fromdict_ignores_unknown_keys 0
           (new Employee [("id", VInt 1); ("name", VStr "ann"); ("_salary", VInt 10);
                          ("boss", VNone); ("reports", VColl [VObj 1; VObj 2]);
                          ("hq", VObj 3)])).
  - vm_compute. reflexivity.
  - simpl. repeat constructor; done.
  - intros k Hk. apply (bool_decide_unpack _). vm_compute in Hk.
    repeat (apply elem_of_cons in Hk as [-> | Hk]; [vm_compute; exact I|]).
    by apply elem_of_nil in Hk.
  - intros f Hf. by apply elem_of_nil in Hf.
Defined.

(** X14: [data] must have [iteritems]: when it is no dict, [fromdict] raises
    [AttributeError] at the start of its first loop, and no instance has
    changed. *)
Theorem fromdict_data_not_a_dict model i data exclude exclude_underscore allow_pk follow
    include st :
  objs st !! model = Some i →
  keys_nonempty (cls i) →
  (∀ items, data ≠ VDict items) →
  ∃ st', fromdict model data exclude exclude_underscore allow_pk follow include st
           = (Raise AttributeError, st')
         ∧ objs st' = objs st.
Proof.
  intros Hi Hne Hdata.
  destruct (resolve_exclude_total (cls i) exclude exclude_underscore st Hne)
    as (ex & st1 & Hres).
  pose proof (resolve_exclude_Ok _ _ _ _ _ _ Hres) as [_ Hobjs1].
  exists st1. split; [|done].
  unfold fromdict. simpl. unfold fromdict_body. munfold.
  unfold bind at 1, class_of. rewrite Hi.
  unfold bind at 1. rewrite Hres. unfold bind at 1.
  destruct data; try done. by destruct (Hdata d).
Qed.

Lemma fromdict_data_not_a_dict_witness :
  ∃ st', fromdict 0 (VList [VStr "name"]) None None None FollowNone None world
           = (Raise AttributeError, st')
         ∧ objs st' = objs world.
Proof.
  apply (fromdict_data_not_a_dict 0
           (new Employee [("id", VInt 1); ("name", VStr "ann"); ("_salary", VInt 10);
                          ("boss", VNone); ("reports", VColl [VObj 1; VObj 2]);
                          ("hq", VObj 3)])).
  - vm_compute. reflexivity.
  - simpl. repeat constructor; done.
  - intros items. discriminate.
Defined.

(** ** Included names and the underscore rule (lines 90-98) *)

Lemma column_key_is_property_key c k :
  k ∈ get_column_keys c → k ∈ key <$> iterate_properties c.
Proof.
  unfold get_column_keys. intros (p & -> & Hp)%list_elem_of_fmap.
  apply list_elem_of_filter in Hp as [_ Hp]. by apply list_elem_of_fmap_2.
Qed.

(** X17: the underscore rule looks at the keys of the mapper only.  A name
    that reaches [asdict] through an include list and is no key of the
    mapper (a plain Python property) is returned with its value even if it
    starts with an underscore and [exclude_underscore] is true, and even
    with [exclude_pk]; only the explicit exclude lists can hide it. *)
Theorem included_name_escapes_underscore_rule model i exclude exclude_underscore
    exclude_pk follow include st d st' k :
  objs st !! model = Some i →
  asdict model exclude exclude_underscore exclude_pk follow include st
    = (Ok (VDict d), st') →
  k ∈ or_nil include ++ or_nil (dictalchemy_asdict_include (cls i)) →
  k ∉ key <$> iterate_properties (cls i) →
  k ∉ given_exclude st exclude →
  k ∉ or_nil (default default_exclude (dictalchemy_exclude (cls i))) →
  k ∉ (normalize_follow follow).*1 →
  ∃ v, dict_get k d = Some v ∧ attrs i !! k = Some v.
Proof.
  intros Hi Hrun Hinc Hkey Hgiven Hclass Hfollow.
  destruct (asdict_field_present model i exclude exclude_underscore exclude_pk follow
              include st d st' k Hi Hrun) as (v & Hget & Hv); [| |done|].
  - rewrite !elem_of_app in *. tauto.
  - unfold added_exclude, added_pk, underscore_names.
    rewrite !elem_of_app. intros [?|[[?|Hund]|Hpk]]; try done.
    + destruct (resolve_exclude_underscore (cls i) exclude_underscore);
        [|by apply elem_of_nil in Hund].
      by apply list_elem_of_filter in Hund as [_ ?].
    + destruct exclude_pk as [[]|]; try by apply elem_of_nil in Hpk.
      apply elem_of_elements, primary_key_is_column, column_key_is_property_key in Hpk.
      done.
  - exists v. split; [done|].
    by rewrite (attr_of_live _ _ _ _ Hi), target_not_synonym in Hv
      by (by apply synonym_of_not_key).
Qed.

Lemma included_name_escapes_underscore_rule_witness :
  ∃ v, dict_get "_label" [("id", VInt 7); ("city", VStr "oslo"); ("_label", VStr "HQ")]
       = Some v
       ∧ attrs (new Office [("id", VInt 7); ("city", VStr "oslo"); ("_label", VStr "HQ")])
           !! "_label" = Some v.
Proof.
  apply (included_name_escapes_underscore_rule 0
           (new Office [("id", VInt 7); ("city", VStr "oslo"); ("_label", VStr "HQ")])
           None (Some true) None FollowNone (Some ["_label"])
           {| objs := {[ 0 := new Office [("id", VInt 7); ("city", VStr "oslo");
                                          ("_label", VStr "HQ")] ]};
              lists := ∅ |}
           [("id", VInt 7); ("city", VStr "oslo"); ("_label", VStr "HQ")]
           {| objs := {[ 0 := new Office [("id", VInt 7); ("city", VStr "oslo");
                                          ("_label", VStr "HQ")] ]};
              lists := ∅ |}).
  - vm_compute. reflexivity.
  - vm_compute. reflexivity.
  - apply (bool_decide_unpack _). vm_compute. exact I.
  - apply (bool_decide_unpack _). vm_compute. exact I.
  - apply (bool_decide_unpack _). vm_compute. exact I.
  - apply (bool_decide_unpack _). vm_compute. exact I.
  - apply (bool_decide_unpack _). vm_compute. exact I.
Defined.

(** ** iter and make_class_dictable (lines 209-247) *)

Lemma asdict_no_lists_unchanged model exclude_underscore exclude_pk follow include
    st r st' :
  follow_no_lists follow →
  asdict model None exclude_underscore exclude_pk follow include st = (r, st') →
  st' = st.
Proof.
  intros Hfollow Hrun.
  pose proof (objs_pure_asdict_fuel (S (depth_follow follow)) model exclude_underscore
                exclude_pk follow include Hfollow st st eq_refl) as Hpure.
  fold (asdict model None exclude_underscore exclude_pk follow include) in Hpure.
  rewrite Hrun in Hpure. by injection Hpure as ->.
Qed.

(** X3: on an instance of a class that [make_class_dictable] was applied
    to, [iter] leaves the store as it is, whatever its outcome, so it can be
    run again with the same result; the pairs it yields have distinct keys
    and are exactly the pairs of a name and the value of that attribute for
    the columns, synonyms and [asdict_include] names of the class that are
    not in the [exclude] given to [make_class_dictable] and, when its
    [exclude_underscore] is true, are no underscore-prefixed key of the
    mapper. *)
Theorem iter_of_dictable_class model i c exclude exclude_underscore fromdict_allow_pk
    asdict_include fromdict_include st r st' :
  objs st !! model = Some i →
  cls i = make_class_dictable c exclude exclude_underscore fromdict_allow_pk
            asdict_include fromdict_include →
  iter model st = (r, st') →
  st' = st
  ∧ iter model st' = (r, st')
  ∧ ∀ items, r = Ok items →
      NoDup items.*1
      ∧ ∀ k v, (k, v) ∈ items
               ↔ k ∈ get_column_keys c ++ get_synonym_keys c ++ or_nil asdict_include
                 ∧ (k ∉ or_nil exclude)
                 ∧ (exclude_underscore = true → k ∉ underscore_names c)
                 ∧ attr_of st model k = Some v.
Proof.
  intros Hi Hcls Hrun.
  assert (st' = st
          ∧ ∃ r0, asdict model None None None FollowNone None st = (r0, st)
                  ∧ r = match r0 with
                        | Ok (VDict d) => Ok d
                        | Ok _ => Raise AttributeError
                        | Raise e => Raise e
                        | OutOfFuel => OutOfFuel
                        end) as [-> (r0 & Hasdict & ->)].
  { unfold iter in Hrun. munfold. unfold bind at 1, class_of in Hrun.
    rewrite Hi, Hcls in Hrun. simpl in Hrun. unfold bind in Hrun.
    destruct (asdict model None None None FollowNone None st) as [r0 st0] eqn:Hasdict.
    assert (st0 = st) as ->
      by (eapply asdict_no_lists_unchanged, Hasdict; by split).
    destruct r0 as [[]| |]; simpl in Hrun; injection Hrun as <- <-; eauto. }
  split; [done|]. split; [done|]. intros items Hitems.
  destruct r0 as [[| | | | | |d]|e|]; try done. injection Hitems as <-.
  unfold asdict in Hasdict. simpl in Hasdict.
  apply asdict_body_Ok in Hasdict
    as (i' & st1 & kvs & d' & Hi' & Hobjs1 & Hread & Hloop & [= <-]).
  assert (i' = i) as -> by congruence. injection Hloop as <- _.
  apply read_fields_Ok in Hread as (_ & Hkeys & Hvals).
  rewrite Forall_forall in Hvals.
  assert (∀ k, k ∈ kvs.*1
               ↔ k ∈ get_column_keys c ++ get_synonym_keys c ++ or_nil asdict_include
                 ∧ (k ∉ or_nil exclude)
                 ∧ (exclude_underscore = true → k ∉ underscore_names c)) as Hkeys'.
  { intros k. rewrite Hkeys, list_elem_of_filter, Hcls. simpl.
    unfold added_exclude, resolve_exclude_underscore, underscore_names. simpl.
    change (get_column_keys (make_class_dictable c exclude exclude_underscore
                               fromdict_allow_pk asdict_include fromdict_include))
      with (get_column_keys c).
    change (get_synonym_keys (make_class_dictable c exclude exclude_underscore
                                fromdict_allow_pk asdict_include fromdict_include))
      with (get_synonym_keys c).
    rewrite app_nil_r, !elem_of_app.
    destruct exclude_underscore; simpl; [|rewrite elem_of_nil]; split.
    - intros (Hex & Hf). repeat split; tauto.
    - intros (Hf & Hex & Hund). split; [|tauto]. intros [?|?]; [done|by apply Hund].
    - intros (Hex & Hf). repeat split; [tauto|tauto|done].
    - intros (Hf & Hex & _). split; [|tauto]. tauto. }
  split; [apply dict_of_NoDup_keys|]. intros k v. split.
  - intros Hin%dict_of_items. pose proof (Hvals _ Hin) as Hv. simpl in Hv.
    unfold attr_of in *. rewrite Hobjs1 in Hv.
    apply (list_elem_of_fmap_2 fst) in Hin. apply Hkeys' in Hin. tauto.
  - intros (Hf & Hex & Hund & Hv).
    assert (k ∈ (dict_of kvs).*1) as Hin by (rewrite dict_of_keys; apply Hkeys'; tauto).
    apply list_elem_of_fmap in Hin as ([k' v'] & -> & Hin). simpl in *.
    pose proof (Hvals _ (dict_of_items _ _ Hin)) as Hv'. simpl in Hv'.
    unfold attr_of in *. rewrite Hobjs1 in Hv'. congruence.
Qed.

Lemma iter_of_dictable_class_witness :
  iter 0 world = (Ok [("id", VInt 1); ("name", VStr "ann")], world)
  ∧ NoDup [("id", VInt 1); ("name", VStr "ann")].*1
  ∧ (("name", VStr "ann") ∈ [("id", VInt 1); ("name", VStr "ann")]
     ↔ "name" ∈ get_column_keys
                  (plain_class [column_property "id" true; column_property "name" false;
                                column_property "_salary" false;
                                relationship_property "boss";
                                relationship_property "reports";
                                relationship_property "hq"])
                ++ get_synonym_keys
                     (plain_class [column_property "id" true;
                                   column_property "name" false;
                                   column_property "_salary" false;
                                   relationship_property "boss";
                                   relationship_property "reports";
                                   relationship_property "hq"])
                ++ or_nil None
       ∧ ("name" ∉ or_nil default_exclude)
       ∧ (default_exclude_underscore = true
          → "name" ∉ underscore_names
                       (plain_class [column_property "id" true;
                                     column_property "name" false;
                                     column_property "_salary" false;
                                     relationship_property "boss";
                                     relationship_property "reports";
                                     relationship_property "hq"]))
       ∧ attr_of world 0 "name" = Some (VStr "ann")).
Proof.
  destruct (iter_of_dictable_class 0
              (new Employee [("id", VInt 1); ("name", VStr "ann"); ("_salary", VInt 10);
                             ("boss", VNone); ("reports", VColl [VObj 1; VObj 2]);
                             ("hq", VObj 3)])
              (plain_class [column_property "id" true; column_property "name" false;
                            column_property "_salary" false;
                            relationship_property "boss"; relationship_property "reports";
                            relationship_property "hq"])
              default_exclude default_exclude_underscore default_fromdict_allow_pk
              None None world (Ok [("id", VInt 1); ("name", VStr "ann")]) world)
    as (_ & Hagain & Hitems).
  - vm_compute. reflexivity.
  - reflexivity.
  - vm_compute. reflexivity.
  - split; [exact Hagain|].
    destruct (Hitems _ eq_refl) as [Hnd Hiff]. split; [exact Hnd|]. apply Hiff.
Defined.

(** ** A followed relation that holds a dictable instance (lines 112-114) *)

(** X19: [follow] sends the relationship [k], which holds the dictable
    instance [o], to a bundle.  In the mapping that [asdict] returns, [k]
    holds what [asdict] on [o] returns under the options of the bundle,
    called from a state with the instances of the initial one; when no
    bundle involved passes an [exclude] list, it is what that call returns
    in the initial state itself. *)
Theorem asdict_follow_instance model i k ex' eu' epk' apk' fol' inc' pre post o
    exclude exclude_underscore exclude_pk include st d st' :
  objs st !! model = Some i →
  NoDup (pre ++ (k, Kwargs ex' eu' epk' apk' fol' inc') :: post).*1 →
  attr_of st model k = Some (VObj o) →
  dictable_instance st (VObj o) = Some o →
  asdict model exclude exclude_underscore exclude_pk
    (FollowMap (pre ++ (k, Kwargs ex' eu' epk' apk' fol' inc') :: post)) include st
    = (Ok (VDict d), st') →
  ∃ dk sta stb,
    dict_get k d = Some dk
    ∧ objs sta = objs st
    ∧ lists_grow st sta
    ∧ asdict o ex' eu' epk' fol' inc' sta = (Ok dk, stb)
    ∧ (ex' = None → follow_no_lists fol' →
       asdict o None eu' epk' fol' inc' st = (Ok dk, st)).
Proof.
  intros Hi Hnd Hrel Ho Hrun.
  assert (k ∉ post.*1) as Hfresh.
  { rewrite fmap_app, fmap_cons in Hnd.
    by apply NoDup_app in Hnd as (_ & _ & [? _]%NoDup_cons). }
  rewrite asdict_split, normalize_follow_FollowMap in Hrun by done.
  apply bind_Ok in Hrun as ([c data] & st1 & Hbase & Hrun). simpl in Hrun.
  destruct (asdict_base_Ok _ _ _ _ _ _ _ _ _ Hbase) as (i' & Hi' & -> & Hobjs1).
  pose proof (frames_asdict_base lists_grow _ _ _ _ _ extend_lists_grow _ _ _ Hbase)
    as Hgrow1.
  apply bind_Ok in Hrun as (d' & st4 & Hrun & [= <- <-]).
  rewrite fmap_app, fmap_cons, asdict_follow_app in Hrun.
  apply bind_Ok in Hrun as (data1 & st2 & Hpre & Hrun).
  assert (objs st2 = objs st1) as Hobjs2.
  { eapply (frames_asdict_follow same_objs), Hpre. apply call_asdict_same_objs. }
  assert (lists_grow st1 st2) as Hgrow2.
  { eapply (frames_asdict_follow lists_grow), Hpre. intros o0 a.
    apply (frames_call_asdict lists_grow). intros.
    apply (frames_asdict_fuel lists_grow), extend_lists_grow. }
  simpl in Hrun. destruct (negb (mem k (get_relation_keys (cls i')))); [done|].
  munfold. unfold bind at 1, getattr in Hrun.
  rewrite (attr_of_same_objs st st2), Hrel in Hrun by congruence.
  unfold bind at 1, hasattr_asdict in Hrun.
  rewrite (dictable_instance_same_objs st st2), Ho in Hrun by congruence.
  apply bind_Ok in Hrun as (data2 & st3 & Hstep & Hpost).
  apply bind_Ok in Hstep as (dk & st3' & Hcall & [= <- <-]).
  simpl in Hcall. destruct apk'; [done|].
  exists dk, st2, st3'. split.
  { rewrite (asdict_follow_get _ _ _ _ _ _ _ _ _ Hpost).
    - apply dict_get_set_eq.
    - by rewrite <- list_fmap_compose. }
  split; [congruence|]. split; [by etrans|]. split; [done|].
  intros -> Hfol.
  pose proof (objs_pure_asdict_fuel (S (depth_follow fol')) o eu' epk' fol' inc' Hfol)
    as Hpure. fold (asdict o None eu' epk' fol' inc') in Hpure.
  rewrite (Hpure st st2) by congruence. by rewrite Hcall.
Qed.

Lemma asdict_follow_instance_witness :
  ∃ dk sta stb,
    dict_get "hq" [("id", VInt 1); ("name", VStr "ann");
                   ("hq", VDict [("id", VInt 7); ("city", VStr "oslo")])] = Some dk
    ∧ asdict 3 None None None FollowNone None sta = (Ok dk, stb)
    ∧ asdict 3 None None None FollowNone None world = (Ok dk, world).
Proof.
  destruct (asdict_follow_instance 0
              (new Employee [("id", VInt 1); ("name", VStr "ann"); ("_salary", VInt 10);
                             ("boss", VNone); ("reports", VColl [VObj 1; VObj 2]);
                             ("hq", VObj 3)])
              "hq" None None None None FollowNone None [] [] 3
              None None None None world
              [("id", VInt 1); ("name", VStr "ann");
               ("hq", VDict [("id", VInt 7); ("city", VStr "oslo")])]
              world)
    as (dk & sta & stb & Hget & _ & _ & Hcall & Hpure).
  - vm_compute. reflexivity.
  - apply (bool_decide_unpack _). vm_compute. exact I.
  - vm_compute. reflexivity.
  - vm_compute. reflexivity.
  - vm_compute. reflexivity.
  - exists dk, sta, stb. split; [exact Hget|]. split; [exact Hcall|].
    apply Hpure; [reflexivity|]. split; [reflexivity|exact I].
Defined.

(** ** A followed collection of plain mappings (lines 115-122) *)

Lemma asdict_children_mappings rel_asdict children a st :
  Forall (λ child, ∃ m, child = VDict m) children →
  asdict_children rel_asdict children a st = (Ok children, st).
Proof.
  induction 1 as [|child children [m ->] _ IH]; simpl; [done|].
  munfold. unfold bind at 1, hasattr_asdict. simpl.
  unfold bind at 1. simpl. unfold bind. by rewrite IH.
Qed.

(** X18: a followed relationship that holds a collection of plain dicts is
    returned as the list of those dicts, in order: the children have no
    [asdict], and [dict(child)] on a dict is a copy. *)
Theorem asdict_follow_collection_of_mappings model i k kw pre post children
    exclude exclude_underscore exclude_pk include st d st' :
  objs st !! model = Some i →
  NoDup (pre ++ (k, kw) :: post).*1 →
  attr_of st model k = Some (VColl children) →
  Forall (λ child, ∃ m, child = VDict m) children →
  asdict model exclude exclude_underscore exclude_pk
    (FollowMap (pre ++ (k, kw) :: post)) include st = (Ok (VDict d), st') →
  dict_get k d = Some (VList children).
Proof.
  intros Hi Hnd Hrel Hchildren Hrun.
  assert (k ∉ post.*1) as Hfresh.
  { rewrite fmap_app, fmap_cons in Hnd.
    by apply NoDup_app in Hnd as (_ & _ & [? _]%NoDup_cons). }
  rewrite asdict_split, normalize_follow_FollowMap in Hrun by done.
  apply bind_Ok in Hrun as ([c data] & st1 & Hbase & Hrun). simpl in Hrun.
  destruct (asdict_base_Ok _ _ _ _ _ _ _ _ _ Hbase) as (i' & Hi' & -> & Hobjs1).
  apply bind_Ok in Hrun as (d' & st4 & Hrun & [= <- <-]).
  rewrite fmap_app, fmap_cons, asdict_follow_app in Hrun.
  apply bind_Ok in Hrun as (data1 & st2 & Hpre & Hrun).
  assert (objs st2 = objs st1) as Hobjs2.
  { eapply (frames_asdict_follow same_objs), Hpre. apply call_asdict_same_objs. }
  simpl in Hrun. destruct (negb (mem k (get_relation_keys (cls i')))); [done|].
  munfold. unfold bind at 1, getattr in Hrun.
  rewrite (attr_of_same_objs st st2), Hrel in Hrun by congruence.
  unfold bind at 1, hasattr_asdict in Hrun. simpl in Hrun.
  apply bind_Ok in Hrun as (data2 & st3 & Hstep & Hpost).
  unfold bind in Hstep. rewrite asdict_children_mappings in Hstep by done.
  injection Hstep as <- <-.
  rewrite (asdict_follow_get _ _ _ _ _ _ _ _ _ Hpost).
  - apply dict_get_set_eq.
  - by rewrite <- list_fmap_compose.
Qed.

Lemma asdict_follow_collection_of_mappings_witness :
  dict_get "reports"
    [("id", VInt 1); ("name", VStr "ann");
     ("reports", VList [VDict [("name", VStr "bob")]; VDict []])]
  = Some (VList [VDict [("name", VStr "bob")]; VDict []]).
Proof.
  pose (ann := new Employee [("id", VInt 1); ("name", VStr "ann"); ("_salary", VInt 10);
                             ("boss", VNone);
                             ("reports", VColl [VDict [("name", VStr "bob")]; VDict []]);
                             ("hq", VNone)]).
  apply (asdict_follow_collection_of_mappings 0 ann "reports" no_kwargs [] []
           [VDict [("name", VStr "bob")]; VDict []] None None None None
           {| objs := {[ 0 := ann ]}; lists := ∅ |} _
           {| objs := {[ 0 := ann ]}; lists := ∅ |}).
  - vm_compute. reflexivity.
  - apply (bool_decide_unpack _). vm_compute. exact I.
  - vm_compute. reflexivity.
  - repeat constructor; eauto.
  - vm_compute. reflexivity.
Defined.

(** ** The list form of follow (lines 84-89 and 156-161) *)

Lemma dict_pairs_of_strings_None names k :
  k ∈ names → String.length k ≠ 2%nat → dict_pairs_of_strings names = None.
Proof.
  induction names as [|n names IH]; intros Hin Hlen.
  { by apply elem_of_nil in Hin. }
  apply elem_of_cons in Hin as [<-|Hin].
  - destruct k as [|a [|b [|c s]]]; simpl in *; done.
  - destruct n as [|a [|b [|c s]]]; simpl; try done. by rewrite IH.
Qed.

(** X16: a list of names given as [follow] stands for the mapping of each
    name to the empty bundle as soon as one of the names is not two
    characters long: [dict(follow)] then raises ValueError and the
    [except] branch builds that mapping.  [asdict] and [fromdict] run
    exactly as with the mapping. *)
Theorem follow_list_is_shorthand names k :
  k ∈ names →
  String.length k ≠ 2%nat →
  (∀ model exclude exclude_underscore exclude_pk include st,
     asdict model exclude exclude_underscore exclude_pk (FollowSeq names) include st
     = asdict model exclude exclude_underscore exclude_pk
         (FollowMap ((λ k, (k, no_kwargs)) <$> names)) include st)
  ∧ (∀ model data exclude exclude_underscore allow_pk include st,
       fromdict model data exclude exclude_underscore allow_pk (FollowSeq names) include st
       = fromdict model data exclude exclude_underscore allow_pk
           (FollowMap ((λ k, (k, no_kwargs)) <$> names)) include st).
Proof.
  intros Hin Hlen. apply follow_sequence_as_mapping. left.
  by apply (dict_pairs_of_strings_None names k).
Qed.

Lemma follow_list_is_shorthand_witness :
  asdict 0 None None None (FollowSeq ["hq"; "reports"]) None world
  = asdict 0 None None None (FollowMap [("hq", no_kwargs); ("reports", no_kwargs)]) None
      world
  ∧ fromdict 0 (VDict [("hq", VDict [("city", VStr "rome")])]) None None None
      (FollowSeq ["hq"; "reports"]) None world
    = fromdict 0 (VDict [("hq", VDict [("city", VStr "rome")])]) None None None
        (FollowMap [("hq", no_kwargs); ("reports", no_kwargs)]) None world.
Proof.
  destruct (follow_list_is_shorthand ["hq"; "reports"] "reports") as [Hasdict Hfromdict].
  - apply (bool_decide_unpack _). vm_compute. exact I.
  - simpl. lia.
  - split; [apply Hasdict|apply Hfromdict].
Defined.

Lemma asdict_changes_no_instance_witness :
  objs (asdict 0 (Some 0) None None (FollowSeq ["reports"]) None world).2 = objs world
  ∧ lists_grow world (asdict 0 (Some 0) None None (FollowSeq ["reports"]) None world).2.
Proof.
  apply (asdict_changes_no_instance 0 (Some 0) None None (FollowSeq ["reports"]) None
           world (asdict 0 (Some 0) None None (FollowSeq ["reports"]) None world).1).
  apply surjective_pairing.
Defined.

Lemma fromdict_keeps_instances_and_classes_witness :
  cls <$> objs (fromdict 0 (VDict [("name", VStr "zed"); ("id", VInt 9)])
                  (Some 0) None None FollowNone None world).2 !! 0
  = cls <$> objs world !! 0
  ∧ lists_grow world
      (fromdict 0 (VDict [("name", VStr "zed"); ("id", VInt 9)])
         (Some 0) None None FollowNone None world).2.
Proof.
  destruct (fromdict_keeps_instances_and_classes 0
              (VDict [("name", VStr "zed"); ("id", VInt 9)]) (Some 0) None None
              FollowNone None world
              (fromdict 0 (VDict [("name", VStr "zed"); ("id", VInt 9)])
                 (Some 0) None None FollowNone None world).1
              (fromdict 0 (VDict [("name", VStr "zed"); ("id", VInt 9)])
                 (Some 0) None None FollowNone None world).2) as [Hcls Hlists].
  - apply surjective_pairing.
  - split; [apply Hcls|exact Hlists].
Defined.
